(** * SkylinkJS peer connections: a shallow embedding of
      [source/peer-connection.js] and the properties of its restart,
      refresh and removal protocol.

    The JavaScript object [Skylink] becomes the record [Skylink]; every
    prototype method becomes a function on that record.  Native transport
    objects ([RTCPeerConnection]) live in a heap ([transports]) and the peer
    table [_peerConnections] holds references into it, so that the closures
    wired onto an old transport keep reading that transport after a restart
    has replaced it in the table.  Whatever the code hands to a collaborator
    (logger, event bus, signaling channel, media streams, data channels) is
    appended to the list [effects], oldest first. *)

From stdpp Require Import gmap strings list fin_maps.
From Stdlib Require Import ZArith Lia.

Local Open Scope string_scope.
Local Open Scope Z_scope.

(** ** Values *)

(** The few JavaScript values the timestamps of this file can take. *)
Inductive jsval :=
| undefined
| null
| number (z : Z)
| function_.

(** [ToNumber]: [None] is NaN. *)
Definition ToNumber (v : jsval) : option Z :=
  match v with
  | number z => Some z
  | null => Some 0
  | undefined | function_ => None
  end.

Definition js_sub (a b : jsval) : option Z :=
  match ToNumber a, ToNumber b with
  | Some x, Some y => Some (x - y)
  | _, _ => None
  end.

(** [a < b] on numbers; any comparison with NaN is false. *)
Definition js_lt (a : option Z) (b : Z) : bool :=
  match a with
  | Some x => bool_decide (x < b)
  | None => false
  end.

(** [Date.now() || function() { return +new Date(); }] when the clock reads
    [t]: zero is falsy, so the fallback function object is the value. *)
Definition Date_now_or_fallback (t : Z) : jsval :=
  if bool_decide (t = 0) then function_ else number t.

(** [!!v] for a property that holds a boolean or was never assigned. *)
Definition truthy (v : option bool) : bool :=
  match v with
  | Some b => b
  | None => false
  end.

(** [Skylink.prototype.PEER_CONNECTION_STATE]. *)
Module PEER_CONNECTION_STATE.
Definition STABLE : string := "stable".
Definition HAVE_LOCAL_OFFER : string := "have-local-offer".
Definition HAVE_REMOTE_OFFER : string := "have-remote-offer".
Definition CLOSED : string := "closed".
End PEER_CONNECTION_STATE.

(** Modelled from the spec: the table [ICE_CONNECTION_STATE], declared in
    another file of the repository.  The spec lists the states reported by
    the transport and the synthesized [TRICKLE_FAILED]. *)
Module ICE_CONNECTION_STATE.
Inductive t :=
| NEW | CHECKING | CONNECTED | COMPLETED | FAILED | DISCONNECTED | CLOSED
| TRICKLE_FAILED.

#[global] Instance eq_dec : EqDecision t.
Proof. solve_decision. Defined.
End ICE_CONNECTION_STATE.

Abbreviation IceState := ICE_CONNECTION_STATE.t.

(** ** Transports *)

(** A native [RTCPeerConnection] together with the attributes the code adds
    to it and the [targetMid] captured by the callbacks wired onto it. *)
Record RTCPeerConnection := mkPC {
  targetMid : string;
  signalingState : string;
  iceConnectionState : IceState;
  iceGatheringState : string;
  setOffer : string;
  setAnswer : string;
  hasStream : bool;
  receiveOnly : option bool;
  dataChannelClosed : option bool
}.

(** What an entry of [_peerConnections] holds: a reference to a transport,
    or the [null] that a failed [_createPeerConnection] returned. *)
Inductive slot :=
| Null
| Ref (r : nat).

(** ** Observable effects *)

Inductive level := error | warn | info | debug | log_.

Inductive event :=
| iceConnectionState_ev (state : IceState) (peerId : string)
| peerConnectionState_ev (state : string) (peerId : string)
| candidateGenerationState_ev (state : string) (peerId : string)
| streamEnded_ev (peerId : string) (isSelf : bool)
| peerRestart_ev (peerId : string) (isSelfInitiated : bool)
| peerLeft_ev (peerId : string) (isSelf : bool).

(** The fields of the RESTART message that this file decides; the sender
    and room descriptors come from elsewhere and are left out. *)
Record message := mkMessage {
  type : string;
  target : string;
  isConnectionRestart : bool;
  msg_lastRestart : jsval
}.

Module _SIG_MESSAGE_TYPE.
Definition RESTART : string := "restart".
End _SIG_MESSAGE_TYPE.

Inductive effect :=
| ELog (l : level) (peer : option string) (text : string)
| ETrigger (e : event)
| EConstruct (r : nat) (peerId : string)
| EClose (r : nat)
| EAddLocalMediaStreams (peerId : string)
| ECreateDataChannel (peerId : string)
| ECloseDataChannel (peerId : string)
| EDoOffer (peerId : string)
| ERemoteStreamAdded (peerId : string)
| EIceCandidate (peerId : string)
| ESendChannelMessage (m : message)
| ECallback.

(** ** Suspended restarts *)

(** The closure of one call of [_restartPeerConnection]: its arguments, its
    local variables, and where its continuation stands. *)
Inductive phase :=
| Waiting
| Delaying (since : Z)
| Finished.

Record restartClosure := mkRestart {
  r_peerId : string;
  r_isSelfInitiatedRestart : bool;
  r_isConnectionRestart : option bool;
  r_callback : bool;
  r_receiveOnly : bool;
  r_iceConnectionStateClosed : bool;
  r_peerConnectionStateClosed : bool;
  r_dataChannelStateClosed : bool;
  r_phase : phase
}.

(** ** The Skylink object *)

Record Skylink := mkSkylink {
  _peerConnections : gmap string slot;
  transports : list RTCPeerConnection;
  _peerConnectionHealth : gmap string bool;
  _ICEConnectionFailures : gmap string Z;
  _peerIceTrickleDisabled : gmap string bool;
  _peerHSPriorities : gmap string Z;
  _peerInformations : gmap string string;
  _dataChannels : gset string;
  _enableIceTrickle : bool;
  _enableDataChannel : bool;
  _hasMCU : bool;
  _lastRestart : jsval;
  lastRestart : jsval;
  healthTimers : gset string;
  throttleStamp : option Z;
  restarts : list restartClosure;
  clock : Z;
  effects : list effect
}.

Section Setters.
Variable s : Skylink.

Definition set_peerConnections (v : gmap string slot) : Skylink :=
  mkSkylink v (transports s) (_peerConnectionHealth s)
    (_ICEConnectionFailures s) (_peerIceTrickleDisabled s)
    (_peerHSPriorities s) (_peerInformations s) (_dataChannels s)
    (_enableIceTrickle s) (_enableDataChannel s) (_hasMCU s)
    (_lastRestart s) (lastRestart s) (healthTimers s) (throttleStamp s)
    (restarts s) (clock s) (effects s).

Definition set_transports (v : list RTCPeerConnection) : Skylink :=
  mkSkylink (_peerConnections s) v (_peerConnectionHealth s)
    (_ICEConnectionFailures s) (_peerIceTrickleDisabled s)
    (_peerHSPriorities s) (_peerInformations s) (_dataChannels s)
    (_enableIceTrickle s) (_enableDataChannel s) (_hasMCU s)
    (_lastRestart s) (lastRestart s) (healthTimers s) (throttleStamp s)
    (restarts s) (clock s) (effects s).

Definition set_peerConnectionHealth (v : gmap string bool) : Skylink :=
  mkSkylink (_peerConnections s) (transports s) v
    (_ICEConnectionFailures s) (_peerIceTrickleDisabled s)
    (_peerHSPriorities s) (_peerInformations s) (_dataChannels s)
    (_enableIceTrickle s) (_enableDataChannel s) (_hasMCU s)
    (_lastRestart s) (lastRestart s) (healthTimers s) (throttleStamp s)
    (restarts s) (clock s) (effects s).

Definition set_ICEConnectionFailures (v : gmap string Z) : Skylink :=
  mkSkylink (_peerConnections s) (transports s) (_peerConnectionHealth s)
    v (_peerIceTrickleDisabled s)
    (_peerHSPriorities s) (_peerInformations s) (_dataChannels s)
    (_enableIceTrickle s) (_enableDataChannel s) (_hasMCU s)
    (_lastRestart s) (lastRestart s) (healthTimers s) (throttleStamp s)
    (restarts s) (clock s) (effects s).

Definition set_peerIceTrickleDisabled (v : gmap string bool) : Skylink :=
  mkSkylink (_peerConnections s) (transports s) (_peerConnectionHealth s)
    (_ICEConnectionFailures s) v
    (_peerHSPriorities s) (_peerInformations s) (_dataChannels s)
    (_enableIceTrickle s) (_enableDataChannel s) (_hasMCU s)
    (_lastRestart s) (lastRestart s) (healthTimers s) (throttleStamp s)
    (restarts s) (clock s) (effects s).

Definition set_peerHSPriorities (v : gmap string Z) : Skylink :=
  mkSkylink (_peerConnections s) (transports s) (_peerConnectionHealth s)
    (_ICEConnectionFailures s) (_peerIceTrickleDisabled s)
    v (_peerInformations s) (_dataChannels s)
    (_enableIceTrickle s) (_enableDataChannel s) (_hasMCU s)
    (_lastRestart s) (lastRestart s) (healthTimers s) (throttleStamp s)
    (restarts s) (clock s) (effects s).

Definition set_peerInformations (v : gmap string string) : Skylink :=
  mkSkylink (_peerConnections s) (transports s) (_peerConnectionHealth s)
    (_ICEConnectionFailures s) (_peerIceTrickleDisabled s)
    (_peerHSPriorities s) v (_dataChannels s)
    (_enableIceTrickle s) (_enableDataChannel s) (_hasMCU s)
    (_lastRestart s) (lastRestart s) (healthTimers s) (throttleStamp s)
    (restarts s) (clock s) (effects s).

Definition set_dataChannels (v : gset string) : Skylink :=
  mkSkylink (_peerConnections s) (transports s) (_peerConnectionHealth s)
    (_ICEConnectionFailures s) (_peerIceTrickleDisabled s)
    (_peerHSPriorities s) (_peerInformations s) v
    (_enableIceTrickle s) (_enableDataChannel s) (_hasMCU s)
    (_lastRestart s) (lastRestart s) (healthTimers s) (throttleStamp s)
    (restarts s) (clock s) (effects s).

Definition set_hasMCU (v : bool) : Skylink :=
  mkSkylink (_peerConnections s) (transports s) (_peerConnectionHealth s)
    (_ICEConnectionFailures s) (_peerIceTrickleDisabled s)
    (_peerHSPriorities s) (_peerInformations s) (_dataChannels s)
    (_enableIceTrickle s) (_enableDataChannel s) v
    (_lastRestart s) (lastRestart s) (healthTimers s) (throttleStamp s)
    (restarts s) (clock s) (effects s).

Definition set_lastRestart (v : jsval) : Skylink :=
  mkSkylink (_peerConnections s) (transports s) (_peerConnectionHealth s)
    (_ICEConnectionFailures s) (_peerIceTrickleDisabled s)
    (_peerHSPriorities s) (_peerInformations s) (_dataChannels s)
    (_enableIceTrickle s) (_enableDataChannel s) (_hasMCU s)
    (_lastRestart s) v (healthTimers s) (throttleStamp s)
    (restarts s) (clock s) (effects s).

Definition set_healthTimers (v : gset string) : Skylink :=
  mkSkylink (_peerConnections s) (transports s) (_peerConnectionHealth s)
    (_ICEConnectionFailures s) (_peerIceTrickleDisabled s)
    (_peerHSPriorities s) (_peerInformations s) (_dataChannels s)
    (_enableIceTrickle s) (_enableDataChannel s) (_hasMCU s)
    (_lastRestart s) (lastRestart s) v (throttleStamp s)
    (restarts s) (clock s) (effects s).

Definition set_throttleStamp (v : option Z) : Skylink :=
  mkSkylink (_peerConnections s) (transports s) (_peerConnectionHealth s)
    (_ICEConnectionFailures s) (_peerIceTrickleDisabled s)
    (_peerHSPriorities s) (_peerInformations s) (_dataChannels s)
    (_enableIceTrickle s) (_enableDataChannel s) (_hasMCU s)
    (_lastRestart s) (lastRestart s) (healthTimers s) v
    (restarts s) (clock s) (effects s).

Definition set_restarts (v : list restartClosure) : Skylink :=
  mkSkylink (_peerConnections s) (transports s) (_peerConnectionHealth s)
    (_ICEConnectionFailures s) (_peerIceTrickleDisabled s)
    (_peerHSPriorities s) (_peerInformations s) (_dataChannels s)
    (_enableIceTrickle s) (_enableDataChannel s) (_hasMCU s)
    (_lastRestart s) (lastRestart s) (healthTimers s) (throttleStamp s)
    v (clock s) (effects s).

Definition set_clock (v : Z) : Skylink :=
  mkSkylink (_peerConnections s) (transports s) (_peerConnectionHealth s)
    (_ICEConnectionFailures s) (_peerIceTrickleDisabled s)
    (_peerHSPriorities s) (_peerInformations s) (_dataChannels s)
    (_enableIceTrickle s) (_enableDataChannel s) (_hasMCU s)
    (_lastRestart s) (lastRestart s) (healthTimers s) (throttleStamp s)
    (restarts s) v (effects s).

Definition set_effects (v : list effect) : Skylink :=
  mkSkylink (_peerConnections s) (transports s) (_peerConnectionHealth s)
    (_ICEConnectionFailures s) (_peerIceTrickleDisabled s)
    (_peerHSPriorities s) (_peerInformations s) (_dataChannels s)
    (_enableIceTrickle s) (_enableDataChannel s) (_hasMCU s)
    (_lastRestart s) (lastRestart s) (healthTimers s) (throttleStamp s)
    (restarts s) (clock s) v.
End Setters.

(** ** Transport heap *)

Definition with_signalingState (v : string) (pc : RTCPeerConnection) :=
  mkPC (targetMid pc) v (iceConnectionState pc) (iceGatheringState pc)
    (setOffer pc) (setAnswer pc) (hasStream pc) (receiveOnly pc)
    (dataChannelClosed pc).

Definition with_iceConnectionState (v : IceState) (pc : RTCPeerConnection) :=
  mkPC (targetMid pc) (signalingState pc) v (iceGatheringState pc)
    (setOffer pc) (setAnswer pc) (hasStream pc) (receiveOnly pc)
    (dataChannelClosed pc).

Definition with_iceGatheringState (v : string) (pc : RTCPeerConnection) :=
  mkPC (targetMid pc) (signalingState pc) (iceConnectionState pc) v
    (setOffer pc) (setAnswer pc) (hasStream pc) (receiveOnly pc)
    (dataChannelClosed pc).

Definition with_hasStream (v : bool) (pc : RTCPeerConnection) :=
  mkPC (targetMid pc) (signalingState pc) (iceConnectionState pc)
    (iceGatheringState pc) (setOffer pc) (setAnswer pc) v (receiveOnly pc)
    (dataChannelClosed pc).

Definition with_receiveOnly (v : option bool) (pc : RTCPeerConnection) :=
  mkPC (targetMid pc) (signalingState pc) (iceConnectionState pc)
    (iceGatheringState pc) (setOffer pc) (setAnswer pc) (hasStream pc) v
    (dataChannelClosed pc).

Definition with_dataChannelClosed (v : option bool) (pc : RTCPeerConnection) :=
  mkPC (targetMid pc) (signalingState pc) (iceConnectionState pc)
    (iceGatheringState pc) (setOffer pc) (setAnswer pc) (hasStream pc)
    (receiveOnly pc) v.

(** The record that the table holds under [peerId] as an entry of its own:
    the transport it refers to when the entry is an object, [None] when
    there is no entry or the entry is [null]. *)
Definition peerRecord (s : Skylink) (peerId : string) : option nat :=
  match _peerConnections s !! peerId with
  | Some (Ref r) => Some r
  | Some Null | None => None
  end.

(** Modelled from the language.  [_peerConnections] is an Array ([[]] in the
    prototype): a name that has no entry of its own is looked up in
    [Array.prototype] and [Object.prototype].  These are the names that the
    two prototypes define (ECMAScript 2023, with the [__proto__] family of
    its Annex B); each of them reads a function, [__proto__] an object. *)
Definition Array_prototype_names : list string :=
  ["constructor"; "hasOwnProperty"; "isPrototypeOf"; "propertyIsEnumerable";
   "toLocaleString"; "toString"; "valueOf"; "__defineGetter__";
   "__defineSetter__"; "__lookupGetter__"; "__lookupSetter__"; "__proto__";
   "at"; "concat"; "copyWithin"; "entries"; "every"; "fill"; "filter";
   "find"; "findIndex"; "findLast"; "findLastIndex"; "flat"; "flatMap";
   "forEach"; "includes"; "indexOf"; "join"; "keys"; "lastIndexOf"; "map";
   "pop"; "push"; "reduce"; "reduceRight"; "reverse"; "shift"; "slice";
   "some"; "sort"; "splice"; "toReversed"; "toSorted"; "toSpliced";
   "unshift"; "values"; "with"].

Definition inherited (p : string) : bool :=
  bool_decide (p ∈ Array_prototype_names).

(** [self._peerConnections[p]] reads a value of the prototypes: [p] has no
    entry of its own and is an inherited name.  Such a value is truthy;
    assigning to one of its properties succeeds and is not seen by this
    file (through [__proto__] it would add a name to the prototype, which
    the model does not follow); it has no [signalingState] and no [close].
    No code of the file gives an inherited name an entry of its own: the
    assignment of [_addPeer] is behind its duplicate guard, and the one of
    the [_wait] callback runs for a peer that had a record. *)
Definition foreign (s : Skylink) (p : string) : bool :=
  bool_decide (_peerConnections s !! p = None) && inherited p.

(** The peer ids that read [undefined] as long as they have no entry: not
    an inherited name, and not ["length"], the property that every Array has
    of its own.  ["length"] holds a number and refuses a transport (the
    assignment of [_addPeer] is a [RangeError]); it is left out of this
    model, and what is proved of a peer without a record is proved of the
    ordinary ids. *)
Definition ordinary (p : string) : bool :=
  negb (inherited p) && negb (bool_decide (p = "length")).

(** Assignment to a property of the transport [r]. *)
Definition update_pc (r : nat) (f : RTCPeerConnection -> RTCPeerConnection)
    (s : Skylink) : Skylink :=
  set_transports s (alter f r (transports s)).

(** Continue with the transport [r] as it is now. *)
Definition with_pc (r : nat) (s : Skylink)
    (k : RTCPeerConnection -> Skylink) : Skylink :=
  match transports s !! r with
  | Some pc => k pc
  | None => s
  end.

(** ** Collaborators *)

Definition emit (e : effect) (s : Skylink) : Skylink :=
  set_effects s (effects s ++ [e]).

Definition log (l : level) (peer : option string) (text : string)
    (s : Skylink) : Skylink :=
  emit (ELog l peer text) s.

(** Modelled from the spec: the event bus ([once], [_trigger]) is in another
    file.  A one-shot subscription fires once, when its predicate holds of
    the published arguments.  The only subscribers this file registers are
    the two of [_restartPeerConnection]; each one sets a flag of its closure
    and nothing else, so publishing sets the flag of every closure whose
    predicate accepts the event. *)
Definition notify (e : event) (c : restartClosure) : restartClosure :=
  match e with
  | iceConnectionState_ev state currentPeerId =>
      if bool_decide (state = ICE_CONNECTION_STATE.CLOSED)
         && bool_decide (r_peerId c = currentPeerId)
      then mkRestart (r_peerId c) (r_isSelfInitiatedRestart c)
             (r_isConnectionRestart c) (r_callback c) (r_receiveOnly c)
             true (r_peerConnectionStateClosed c)
             (r_dataChannelStateClosed c) (r_phase c)
      else c
  | peerConnectionState_ev state currentPeerId =>
      if bool_decide (state = PEER_CONNECTION_STATE.CLOSED)
         && bool_decide (r_peerId c = currentPeerId)
      then mkRestart (r_peerId c) (r_isSelfInitiatedRestart c)
             (r_isConnectionRestart c) (r_callback c) (r_receiveOnly c)
             (r_iceConnectionStateClosed c) true
             (r_dataChannelStateClosed c) (r_phase c)
      else c
  | _ => c
  end.

Definition _trigger (e : event) (s : Skylink) : Skylink :=
  let s := emit (ETrigger e) s in
  set_restarts s (notify e <$> restarts s).

(** Modelled from the spec: the health monitor is in another file.  It keeps
    at most one watchdog per peer; starting one replaces the previous one,
    stopping removes it. *)
Definition _startPeerConnectionHealthCheck (peerId : string) (toOffer : bool)
    (s : Skylink) : Skylink :=
  set_healthTimers s ({[peerId]} ∪ healthTimers s).

Definition _stopPeerConnectionHealthCheck (peerId : string)
    (s : Skylink) : Skylink :=
  set_healthTimers s (healthTimers s ∖ {[peerId]}).

Definition _addLocalMediaStreams (peerId : string) : Skylink -> Skylink :=
  emit (EAddLocalMediaStreams peerId).

Definition _createDataChannel (peerId : string) (s : Skylink) : Skylink :=
  let s := emit (ECreateDataChannel peerId) s in
  set_dataChannels s ({[peerId]} ∪ _dataChannels s).

Definition _closeDataChannel (peerId : string) (s : Skylink) : Skylink :=
  let s := emit (ECloseDataChannel peerId) s in
  set_dataChannels s (_dataChannels s ∖ {[peerId]}).

Definition _doOffer (targetMid : string) : Skylink -> Skylink :=
  emit (EDoOffer targetMid).

Definition _sendChannelMessage (m : message) : Skylink -> Skylink :=
  emit (ESendChannelMessage m).

(** The transport's own [close()]: both of its states read closed from then
    on; the change notifications come later, as events. *)
Definition close (r : nat) (s : Skylink) : Skylink :=
  let s := emit (EClose r) s in
  update_pc r (fun pc =>
    with_iceConnectionState ICE_CONNECTION_STATE.CLOSED
      (with_signalingState PEER_CONNECTION_STATE.CLOSED pc)) s.

(** ** Results of calls that can fault *)

(** A call either returns or stops at a [TypeError]; the mutations made
    before the fault stay. *)
Inductive outcome :=
| Return (s : Skylink)
| Throw (s : Skylink).

Definition after (o : outcome) : Skylink :=
  match o with
  | Return s | Throw s => s
  end.

Definition throws (o : outcome) : bool :=
  match o with
  | Return _ => false
  | Throw _ => true
  end.

(** ** [_createPeerConnection] *)

(** The transport that [new RTCPeerConnection] yields for [p]. *)
Definition fresh_transport (p : string) : RTCPeerConnection :=
  mkPC p PEER_CONNECTION_STATE.STABLE ICE_CONNECTION_STATE.NEW "new" "" ""
    false None None.

(** The action taken when a connection is judged stable. *)
Definition stabilise (targetMid : string) (s : Skylink) : Skylink :=
  let s := log debug (Some targetMid) "Peer connection with user is stable" s in
  let s := set_peerConnectionHealth s
             (<[targetMid := true]> (_peerConnectionHealth s)) in
  _stopPeerConnectionHealthCheck targetMid s.

(** [ctor_ok] tells whether [new window.RTCPeerConnection(...)] returns or
    throws.  A fresh transport starts stable, with ICE state new.  The result
    is the value returned: a reference, or [Null]. *)
Definition _createPeerConnection (targetMid : string) (ctor_ok : bool)
    (s : Skylink) : slot * Skylink :=
  if ctor_ok then
    let r := length (transports s) in
    let pc := fresh_transport targetMid in
    let s := emit (EConstruct r targetMid)
               (set_transports s (transports s ++ [pc])) in
    let s := log info (Some targetMid) "Created peer connection" s in
    let s := log debug (Some targetMid) "Peer connection config:" s in
    let s := log debug (Some targetMid) "Peer connection constraints:" s in
    (Ref r, s)
  else
    (Null, log error (Some targetMid) "Failed creating peer connection:" s).

(** ** [_restartPeerConnection] *)

(** The synchronous part, up to the call of [_wait].  [isConnectionRestart]
    is [None] when the argument is omitted; [callback] tells whether a
    function was supplied.  The two [once] subscriptions and the closure they
    share are the new last entry of [restarts]; the call of [_wait] leaves
    that closure waiting (see [ready]).

    For an inherited name the first test reads a function and lets the call
    go on: the assignments land on that function, the health flag is deleted
    and the watchdog stopped, and the call ends on [close()], which the
    function does not have, with a [TypeError] (see [restart_faults]).  The
    two subscriptions are registered by then, but [_wait] is never called:
    no closure is suspended. *)
Definition _restartPeerConnection (peerId : string)
    (isSelfInitiatedRestart : bool) (isConnectionRestart : option bool)
    (callback : bool) (s : Skylink) : Skylink :=
  match peerRecord s peerId with
  | None =>
      if foreign s peerId then
        let s := log log_ (Some peerId) "Restarting a peer connection" s in
        let s := set_peerConnectionHealth s
                   (delete peerId (_peerConnectionHealth s)) in
        _stopPeerConnectionHealthCheck peerId s
      else
        log error (Some peerId)
          "Peer does not have an existing connection. Unable to restart" s
  | Some r =>
      let s := log log_ (Some peerId) "Restarting a peer connection" s in
      let receiveOnly := truthy (transports s !! r ≫= receiveOnly) in
      let c := mkRestart peerId isSelfInitiatedRestart isConnectionRestart
                 callback receiveOnly false false
                 (negb (_enableDataChannel s)) Waiting in
      let s := update_pc r (with_dataChannelClosed (Some true)) s in
      let s := set_restarts s (restarts s ++ [c]) in
      let s := set_peerConnectionHealth s
                 (delete peerId (_peerConnectionHealth s)) in
      let s := _stopPeerConnectionHealthCheck peerId s in
      let s := with_pc r s (fun pc =>
                 if bool_decide (signalingState pc ≠ "closed")
                 then close r s else s) in
      let s := with_pc r s (fun pc =>
                 if hasStream pc
                 then _trigger (streamEnded_ev peerId false) s else s) in
      s
  end.

(** Whether the call of [_restartPeerConnection] ends by the [TypeError] of
    [close()]; [_restartPeerConnection] is the object that it leaves. *)
Definition restart_faults (peerId : string) (s : Skylink) : bool :=
  foreign s peerId.

Definition with_phase (v : phase) (c : restartClosure) : restartClosure :=
  mkRestart (r_peerId c) (r_isSelfInitiatedRestart c)
    (r_isConnectionRestart c) (r_callback c) (r_receiveOnly c)
    (r_iceConnectionStateClosed c) (r_peerConnectionStateClosed c)
    (r_dataChannelStateClosed c) v.

(** Modelled from the spec: [_wait] is in another file.  It suspends the
    callback it is given until the condition it is given holds, and then runs
    it, once.  [ready c] tells whether the callback of the closure [c] can
    run now: it has not run yet, and the condition that the source passes,
    [iceConnectionStateClosed && peerConnectionStateClosed], holds. *)
Definition ready (c : restartClosure) : bool :=
  match r_phase c with
  | Waiting => r_iceConnectionStateClosed c && r_peerConnectionStateClosed c
  | Delaying _ | Finished => false
  end.

(** The callback handed to [_wait], for the closure [k]; [None] means that
    it cannot run now.  It ends by arming the timer. *)
Definition wait_callback (k : nat) (ctor_ok : bool)
    (s : Skylink) : option Skylink :=
  c ← restarts s !! k;
  if ready c then
    let peerId := r_peerId c in
    let s := log log_ (Some peerId) "Ice and peer connections closed" s in
    let s := set_peerConnections s (delete peerId (_peerConnections s)) in
    let s := log log_ (Some peerId) "Re-creating peer connection" s in
    let '(v, s) := _createPeerConnection peerId ctor_ok s in
    let s := set_peerConnections s (<[peerId := v]> (_peerConnections s)) in
    Some (set_restarts s
            (alter (with_phase (Delaying (clock s))) k (restarts s)))
  else None.

(** The function handed to [setTimeout(..., 1000)], for the closure [k]: it
    can run once 1000 ms have passed since the timer was armed.  The peer of
    a closure had a record when its restart was called, so it is not an
    inherited name: without a record now, its lookup reads [undefined] or
    [null]. *)
Definition timeout_callback (k : nat) (s : Skylink) : option outcome :=
  c ← restarts s !! k;
  match r_phase c with
  | Delaying since =>
      if bool_decide (since + 1000 ≤ clock s) then
        let peerId := r_peerId c in
        let receiveOnly := r_receiveOnly c in
        let s := set_restarts s (alter (with_phase Finished) k (restarts s)) in
        match peerRecord s peerId with
        | None => Some (Throw s)
        | Some r =>
            let s := update_pc r (with_receiveOnly (Some receiveOnly)) s in
            let s := if negb receiveOnly
                     then _addLocalMediaStreams peerId s else s in
            let s :=
              if r_isSelfInitiatedRestart c then
                let s := log log_ (Some peerId)
                           "Sending restart message to signaling server" s in
                let lastRestart := Date_now_or_fallback (clock s) in
                _sendChannelMessage
                  (mkMessage _SIG_MESSAGE_TYPE.RESTART peerId
                     (truthy (r_isConnectionRestart c)) lastRestart) s
              else s in
            let s := _trigger (peerRestart_ev peerId true) s in
            let s := if r_callback c
                     then emit ECallback (log log_ None "Firing callback" s)
                     else s in
            Some (Return s)
        end
      else None
  | Waiting | Finished => None
  end.

(** ** Callbacks wired by [_createPeerConnection] onto the transport [r] *)

(** The function passed to [checkIceConnectionState], called with
    [iceConnectionState]. *)
Definition iceConnectionState_callback (r : nat)
    (iceConnectionState : IceState) (s : Skylink) : option Skylink :=
  pc ← transports s !! r;
  let targetMid := targetMid pc in
  let s := log debug (Some targetMid) "Ice connection state changed ->" s in
  let s := _trigger (iceConnectionState_ev iceConnectionState targetMid) s in
  let s :=
    if bool_decide (iceConnectionState = ICE_CONNECTION_STATE.COMPLETED)
       && bool_decide (signalingState pc = PEER_CONNECTION_STATE.STABLE)
    then stabilise targetMid s else s in
  let s :=
    match _ICEConnectionFailures s !! targetMid with
    | None => set_ICEConnectionFailures s
                (<[targetMid := 0]> (_ICEConnectionFailures s))
    | Some _ => s
    end in
  let s :=
    if bool_decide (2 < default 0 (_ICEConnectionFailures s !! targetMid))
    then set_peerIceTrickleDisabled s
           (<[targetMid := true]> (_peerIceTrickleDisabled s))
    else s in
  if bool_decide (iceConnectionState = ICE_CONNECTION_STATE.FAILED) then
    let s := set_ICEConnectionFailures s
               (<[targetMid :=
                    default 0 (_ICEConnectionFailures s !! targetMid) + 1]>
                  (_ICEConnectionFailures s)) in
    let s :=
      if _enableIceTrickle s
         && negb (truthy (_peerIceTrickleDisabled s !! targetMid))
      then _trigger (iceConnectionState_ev
                       ICE_CONNECTION_STATE.TRICKLE_FAILED targetMid) s
      else s in
    Some (_restartPeerConnection targetMid true (Some true) false s)
  else Some s.

(** [pc.oniceconnectionstatechange].  [checkIceConnectionState] belongs to
    the adapter library, not to this repository; it is taken to hand the
    state it is given to its callback. *)
Definition oniceconnectionstatechange (r : nat) (s : Skylink) : option Skylink :=
  pc ← transports s !! r;
  iceConnectionState_callback r (iceConnectionState pc) s.

Definition onsignalingstatechange (r : nat) (s : Skylink) : option Skylink :=
  pc ← transports s !! r;
  let targetMid := targetMid pc in
  let s := log debug (Some targetMid) "Peer connection state changed ->" s in
  let s := _trigger (peerConnectionState_ev (signalingState pc) targetMid) s in
  Some
    (if (bool_decide (iceConnectionState pc = ICE_CONNECTION_STATE.COMPLETED)
         || bool_decide (iceConnectionState pc = ICE_CONNECTION_STATE.CONNECTED))
        && bool_decide (signalingState pc = PEER_CONNECTION_STATE.STABLE)
     then stabilise targetMid s else s).

Definition onicegatheringstatechange (r : nat) (s : Skylink) : option Skylink :=
  pc ← transports s !! r;
  let targetMid := targetMid pc in
  let s := log log_ (Some targetMid) "Ice gathering state changed ->" s in
  Some (_trigger
          (candidateGenerationState_ev (iceGatheringState pc) targetMid) s).

Definition ondatachannel (r : nat) (s : Skylink) : option Skylink :=
  pc ← transports s !! r;
  let targetMid := targetMid pc in
  let s := log debug (Some targetMid) "Received datachannel ->" s in
  Some (if _enableDataChannel s then _createDataChannel targetMid s
        else log warn (Some targetMid) "Not adding datachannel" s).

Definition onaddstream (r : nat) (s : Skylink) : option Skylink :=
  pc ← transports s !! r;
  let s := emit (ERemoteStreamAdded (targetMid pc)) s in
  Some (update_pc r (with_hasStream true) s).

Definition onicecandidate (r : nat) (s : Skylink) : option Skylink :=
  pc ← transports s !! r;
  let targetMid := targetMid pc in
  let s := log debug (Some targetMid) "Ice candidate generated ->" s in
  Some (emit (EIceCandidate targetMid) s).

(** ** [_addPeer] *)

(** [peerBrowser] is only logged and passed on.  The omitted optional
    arguments read as [false].  The duplicate guard and the assignment of
    [receiveOnly] read [self._peerConnections[targetMid]]: a record, a value
    of the prototypes for an inherited name, or nothing. *)
Definition _addPeer (targetMid peerBrowser : string)
    (toOffer restartConn receiveOnly : bool) (ctor_ok : bool)
    (s : Skylink) : outcome :=
  if (bool_decide (is_Some (peerRecord s targetMid)) || foreign s targetMid)
     && negb restartConn then
    Return (log error (Some targetMid)
              "Connection to peer has already been made" s)
  else
    let s := log log_ (Some targetMid)
               "Starting the connection to peer. Options provided:" s in
    let s :=
      if negb restartConn then
        let '(v, s) := _createPeerConnection targetMid ctor_ok s in
        set_peerConnections s (<[targetMid := v]> (_peerConnections s))
      else s in
    match peerRecord s targetMid with
    | None =>
        if foreign s targetMid then
          let s := if negb receiveOnly
                   then _addLocalMediaStreams targetMid s else s in
          let s :=
            if toOffer then
              let s := if _enableDataChannel s
                       then _createDataChannel targetMid s else s in
              _doOffer targetMid s
            else s in
          Return (_startPeerConnectionHealthCheck targetMid toOffer s)
        else Throw s
    | Some r =>
        let s := update_pc r (with_receiveOnly (Some receiveOnly)) s in
        let s := if negb receiveOnly
                 then _addLocalMediaStreams targetMid s else s in
        let s :=
          if toOffer then
            let s := if _enableDataChannel s
                     then _createDataChannel targetMid s else s in
            _doOffer targetMid s
          else s in
        Return (_startPeerConnectionHealthCheck targetMid toOffer s)
    end.

(** ** [_removePeer] *)

(** Without a record the call faults: on the assignment of
    [dataChannelClosed] when the lookup reads [undefined] or [null]; for an
    inherited name three statements later, on [close()], with nothing of
    this object changed in between. *)
Definition _removePeer (peerId : string) (s : Skylink) : outcome :=
  let s :=
    if bool_decide (peerId ≠ "MCU") then _trigger (peerLeft_ev peerId false) s
    else log log_ (Some peerId) "MCU has stopped listening and left"
           (set_hasMCU s false) in
  let s := _stopPeerConnectionHealthCheck peerId s in
  match peerRecord s peerId with
  | None => Throw s
  | Some r =>
      let s := update_pc r (with_dataChannelClosed (Some true)) s in
      let s :=
        match _peerConnections s !! peerId with
        | Some _ =>
            let s := with_pc r s (fun pc =>
                       if bool_decide (signalingState pc ≠ "closed")
                       then close r s else s) in
            let s := with_pc r s (fun pc =>
                       if hasStream pc
                       then _trigger (streamEnded_ev peerId false) s
                       else s) in
            set_peerConnections s (delete peerId (_peerConnections s))
        | None => s
        end in
      let s := set_peerHSPriorities s (delete peerId (_peerHSPriorities s)) in
      let s := set_peerInformations s (delete peerId (_peerInformations s)) in
      let s := set_peerConnectionHealth s
                 (delete peerId (_peerConnectionHealth s)) in
      let s := if _enableDataChannel s then _closeDataChannel peerId s
               else s in
      Return (log log_ (Some peerId) "Successfully removed peer" s)
  end.

(** ** [refreshConnection] *)

Definition refreshSinglePeer (peer : string) (s : Skylink) : Skylink :=
  match peerRecord s peer with
  | None =>
      if foreign s peer then
        let now := Date_now_or_fallback (clock s) in
        if js_lt (js_sub now (lastRestart s)) 3000 then
          log error (Some peer) "Last restart was so tight. Aborting." s
        else _restartPeerConnection peer true None false s
      else
        log error (Some peer)
          ("There is currently no existing peer connection made "
           +:+ "with the peer. Unable to restart connection") s
  | Some _ =>
      let now := Date_now_or_fallback (clock s) in
      if js_lt (js_sub now (lastRestart s)) 3000 then
        log error (Some peer) "Last restart was so tight. Aborting." s
      else _restartPeerConnection peer true None false s
  end.

(** [peerId] is [None] when the argument is not a string.  The loop visits
    every entry of the table once; no restart that it starts adds or removes
    an entry while it runs.  The order in which [for..in] visits the entries
    is the engine's (the order of insertion, in today's engines) and is not
    modelled: the fold follows [map_to_list], and no property below depends
    on the order. *)
Definition toRefresh (peerId : option string) (s : Skylink) : Skylink :=
  match peerId with
  | None =>
      foldl (fun s key => refreshSinglePeer key s) s
        (map_to_list (_peerConnections s)).*1
  | Some peerId => refreshSinglePeer peerId s
  end.

(** Modelled from the spec: [_throttle] is in another file.  At most one
    execution per [wait] milliseconds, for the whole object; a call inside
    the window is dropped.  The boolean tells whether [func] was executed. *)
Definition _throttle (func : Skylink -> Skylink) (wait : Z)
    (s : Skylink) : bool * Skylink :=
  let now := clock s in
  match throttleStamp s with
  | Some last =>
      if bool_decide (now - last < wait) then (false, s)
      else (true, set_throttleStamp (func s) (Some now))
  | None => (true, set_throttleStamp (func s) (Some now))
  end.

Definition refreshConnection (peerId : option string)
    (s : Skylink) : bool * Skylink :=
  if _hasMCU s then
    (false,
     log warn peerId
       ("Restart functionality for peer's connection "
        +:+ "for MCU is not yet supported") s)
  else _throttle (toRefresh peerId) 5000 s.

(** Whether the call of [refreshConnection] ends by the fault of the restart
    that it starts: the refresh operation is executed, for an inherited name,
    past the cooldown.  The loop over the entries starts no such restart.
    The throttle is taken to have recorded the execution by then. *)
Definition refresh_faults (peerId : option string) (s : Skylink) : bool :=
  match peerId with
  | Some peer =>
      (refreshConnection peerId s).1
      && restart_faults peer s
      && negb (js_lt (js_sub (Date_now_or_fallback (clock s)) (lastRestart s))
                 3000)
  | None => false
  end.

(** ** The event loop *)

(** What can happen to the object: time passes, a transport reports a change,
    a suspended continuation runs, or one of the methods is called.  Code of
    other files may also assign [lastRestart]. *)
Inductive action :=
| Tick (d : Z)
| IceChange (r : nat) (state : IceState)
| SignalingChange (r : nat) (state : string)
| IceGatheringChange (r : nat) (state : string)
| DataChannel (r : nat)
| AddStream (r : nat)
| IceCandidate (r : nat)
| WaitFire (k : nat) (ctor_ok : bool)
| TimeoutFire (k : nat)
| CallAddPeer (targetMid peerBrowser : string)
    (toOffer restartConn receiveOnly ctor_ok : bool)
| CallRestartPeerConnection (peerId : string) (isSelfInitiatedRestart : bool)
    (isConnectionRestart : option bool) (callback : bool)
| CallRemovePeer (peerId : string)
| CallRefreshConnection (peerId : option string)
| AssignLastRestart (v : jsval).

(** A call ends by returning or by a fault. *)
Definition ends (faults : bool) (s : Skylink) : outcome :=
  if faults then Throw s else Return s.

(** [None]: the action cannot happen in this state.  A fault inside a
    callback of a transport goes to the browser, not to a caller: the turn
    ends there, with the object as the callback leaves it. *)
Definition step (a : action) (s : Skylink) : option outcome :=
  match a with
  | Tick d =>
      if bool_decide (0 ≤ d) then Some (Return (set_clock s (clock s + d)))
      else None
  | IceChange r state =>
      Return <$> oniceconnectionstatechange r
                   (update_pc r (with_iceConnectionState state) s)
  | SignalingChange r state =>
      Return <$> onsignalingstatechange r
                   (update_pc r (with_signalingState state) s)
  | IceGatheringChange r state =>
      Return <$> onicegatheringstatechange r
                   (update_pc r (with_iceGatheringState state) s)
  | DataChannel r => Return <$> ondatachannel r s
  | AddStream r => Return <$> onaddstream r s
  | IceCandidate r => Return <$> onicecandidate r s
  | WaitFire k ctor_ok => Return <$> wait_callback k ctor_ok s
  | TimeoutFire k => timeout_callback k s
  | CallAddPeer targetMid peerBrowser toOffer restartConn receiveOnly ctor_ok =>
      Some (_addPeer targetMid peerBrowser toOffer restartConn receiveOnly
              ctor_ok s)
  | CallRestartPeerConnection peerId isSelf isConn callback =>
      Some (ends (restart_faults peerId s)
              (_restartPeerConnection peerId isSelf isConn callback s))
  | CallRemovePeer peerId => Some (_removePeer peerId s)
  | CallRefreshConnection peerId =>
      Some (ends (refresh_faults peerId s) (refreshConnection peerId s).2)
  | AssignLastRestart v => Some (Return (set_lastRestart s v))
  end.

(** One turn of the loop: an action that cannot happen is skipped, and a
    fault ends the turn with the mutations made so far. *)
Definition turn (a : action) (s : Skylink) : Skylink :=
  match step a s with
  | Some o => after o
  | None => s
  end.

Definition run (acts : list action) (s : Skylink) : Skylink :=
  foldl (fun s a => turn a s) s acts.

(** How many of the calls of [refreshConnection] in [acts] get past the
    throttle and execute the refresh operation. *)
Fixpoint refreshes (acts : list action) (s : Skylink) : nat :=
  match acts with
  | [] => 0%nat
  | a :: acts =>
      (match a with
       | CallRefreshConnection peerId =>
           if (refreshConnection peerId s).1 then 1%nat else 0%nat
       | _ => 0%nat
       end + refreshes acts (turn a s))%nat
  end.

(** A fresh object, as the prototype declares it, with the given settings. *)
Definition new_Skylink (enableIceTrickle enableDataChannel : bool) : Skylink :=
  mkSkylink ∅ [] ∅ ∅ ∅ ∅ ∅ ∅ enableIceTrickle enableDataChannel false
    null undefined ∅ None [] 0 [].

(** A session in which the peer ["p"] was added as a receive-only offerer. *)
Definition session_with_p : Skylink :=
  after (_addPeer "p" "chrome" true false true true (new_Skylink true true)).

(** * Vocabulary of the properties *)

(** The closure that a call of [_restartPeerConnection] suspends. *)
Definition suspended (peerId : string) (isSelfInitiatedRestart : bool)
    (isConnectionRestart : option bool) (callback : bool) (r : nat)
    (s : Skylink) : restartClosure :=
  mkRestart peerId isSelfInitiatedRestart isConnectionRestart callback
    (truthy (transports s !! r ≫= receiveOnly)) false false
    (negb (_enableDataChannel s)) Waiting.

(** The statements of the callback called with FAILED, up to the call of
    [_restartPeerConnection]. *)
Definition failed_bookkeeping (targetMid : string) (s : Skylink) : Skylink :=
  let s := log debug (Some targetMid) "Ice connection state changed ->" s in
  let s := _trigger (iceConnectionState_ev
                       ICE_CONNECTION_STATE.FAILED targetMid) s in
  let s :=
    match _ICEConnectionFailures s !! targetMid with
    | None => set_ICEConnectionFailures s
                (<[targetMid := 0]> (_ICEConnectionFailures s))
    | Some _ => s
    end in
  let s :=
    if bool_decide (2 < default 0 (_ICEConnectionFailures s !! targetMid))
    then set_peerIceTrickleDisabled s
           (<[targetMid := true]> (_peerIceTrickleDisabled s))
    else s in
  let s := set_ICEConnectionFailures s
             (<[targetMid :=
                  default 0 (_ICEConnectionFailures s !! targetMid) + 1]>
                (_ICEConnectionFailures s)) in
  if _enableIceTrickle s
     && negb (truthy (_peerIceTrickleDisabled s !! targetMid))
  then _trigger (iceConnectionState_ev
                   ICE_CONNECTION_STATE.TRICKLE_FAILED targetMid) s
  else s.

(** The arguments and the snapshot of a suspended restart never change. *)
Definition same_closure_args (c c' : restartClosure) : Prop :=
  r_peerId c' = r_peerId c
  ∧ r_isSelfInitiatedRestart c' = r_isSelfInitiatedRestart c
  ∧ r_isConnectionRestart c' = r_isConnectionRestart c
  ∧ r_callback c' = r_callback c
  ∧ r_receiveOnly c' = r_receiveOnly c.

(** The effect [e] was produced at position [n] of the log or later. *)
Definition published_since (n : nat) (e : effect) (s : Skylink) : Prop :=
  ∃ i, (n ≤ i)%nat ∧ effects s !! i = Some e.

(** Between [s] and [s'] a transport was constructed for the peer [p]: the
    heap, which keeps every transport ever constructed, holds one for [p]
    that it did not hold before. *)
Definition constructs_for (p : string) (s s' : Skylink) : Prop :=
  ∃ r, transports s !! r = None ∧ targetMid <$> transports s' !! r = Some p.

Definition ice_closed (p : string) : effect :=
  ETrigger (iceConnectionState_ev ICE_CONNECTION_STATE.CLOSED p).

Definition signaling_closed (p : string) : effect :=
  ETrigger (peerConnectionState_ev PEER_CONNECTION_STATE.CLOSED p).

(** What may happen to one suspended restart between two states: a flag is
    raised only by the matching CLOSED event for its peer, published in
    between; flags stay raised; the closure leaves [Waiting] only with both
    flags raised, and never comes back to it. *)
Record closure_evolves (s s' : Skylink) (c c' : restartClosure) : Prop := {
  ce_args : same_closure_args c c';
  ce_ice :
    r_iceConnectionStateClosed c' = true →
    r_iceConnectionStateClosed c = true
    ∨ published_since (length (effects s)) (ice_closed (r_peerId c)) s';
  ce_signaling :
    r_peerConnectionStateClosed c' = true →
    r_peerConnectionStateClosed c = true
    ∨ published_since (length (effects s)) (signaling_closed (r_peerId c)) s';
  ce_ice_kept :
    r_iceConnectionStateClosed c = true → r_iceConnectionStateClosed c' = true;
  ce_signaling_kept :
    r_peerConnectionStateClosed c = true →
    r_peerConnectionStateClosed c' = true;
  ce_barrier :
    r_phase c = Waiting → r_phase c' ≠ Waiting →
    r_iceConnectionStateClosed c' = true
    ∧ r_peerConnectionStateClosed c' = true;
  ce_left : r_phase c ≠ Waiting → r_phase c' ≠ Waiting
}.

(** The raised flags of [c] are accounted for by CLOSED events of its peer
    published at position [n] of the log or later. *)
Definition raised_since (n : nat) (c : restartClosure) (s : Skylink) : Prop :=
  (r_iceConnectionStateClosed c = true →
   published_since n (ice_closed (r_peerId c)) s)
  ∧ (r_peerConnectionStateClosed c = true →
     published_since n (signaling_closed (r_peerId c)) s).

(** What every piece of code of this file guarantees between the state it
    starts in and the state it leaves. *)
Record evolves (s s' : Skylink) : Prop := {
  ev_effects : effects s `prefix_of` effects s';
  ev_clock : clock s ≤ clock s';
  ev_transports :
    ∀ r pc, transports s !! r = Some pc →
      ∃ pc', transports s' !! r = Some pc' ∧ targetMid pc' = targetMid pc;
  ev_disabled :
    ∀ p, _peerIceTrickleDisabled s !! p = Some true →
      _peerIceTrickleDisabled s' !! p = Some true;
  ev_restarts :
    ∀ k c, restarts s !! k = Some c →
      ∃ c', restarts s' !! k = Some c' ∧ closure_evolves s s' c c';
  ev_suspended :
    ∀ k c', restarts s' !! k = Some c' → (length (restarts s) ≤ k)%nat →
      raised_since (length (effects s)) c' s'
}.

(** The same, for code that does not go through the throttle. *)
Definition quiet (s s' : Skylink) : Prop :=
  evolves s s' ∧ throttleStamp s' = throttleStamp s.

(** Ten calls, 100 ms apart. *)
Definition ten_refreshes : list action :=
  concat (replicate 10 [CallRefreshConnection (Some "p"); Tick 100]).

(** A restart of ["p"] started at time 20000, the two CLOSED notifications
    of the old transport, and the [_wait] callback. *)
Definition restart_until_barrier : list action :=
  [CallRestartPeerConnection "p" true (Some true) false;
   IceChange 0 ICE_CONNECTION_STATE.CLOSED;
   SignalingChange 0 "closed";
   WaitFire 0 true].

(** ** Vocabulary of the further properties *)

(** The part [field] of the object is the same in [s'] as in [s]. *)
Definition keeps {A : Type} (field : Skylink → A) (s s' : Skylink) : Prop :=
  field s' = field s.

(** The same for code that may not run, or may fault: [st] reads the object
    out of the result. *)
Definition keeps_opt {A B : Type} (st : B → Skylink) (field : Skylink → A)
    (s : Skylink) (o : option B) : Prop :=
  ∀ b, o = Some b → keeps field s (st b).

(** The peer table and the number of transports allocated so far. *)
Definition table (s : Skylink) : gmap string slot * nat :=
  (_peerConnections s, length (transports s)).

(** The ICE failure counters and the flags that disable trickle ICE. *)
Definition counters (s : Skylink) : gmap string Z * gmap string bool :=
  (_ICEConnectionFailures s, _peerIceTrickleDisabled s).

(** The two attributes that hold the time of the last restart. *)
Definition stamps (s : Skylink) : jsval * jsval :=
  (lastRestart s, _lastRestart s).

(** What [refreshSinglePeer] reads to decide. *)
Definition refresh_inputs (s : Skylink) : gmap string slot * jsval * Z :=
  (_peerConnections s, lastRestart s, clock s).

(** The actions that register or unregister a transport. *)
Definition registers (a : action) : bool :=
  match a with
  | CallAddPeer _ _ _ _ _ _ | CallRemovePeer _ | WaitFire _ _ => true
  | _ => false
  end.

Definition is_IceChange (a : action) : bool :=
  match a with
  | IceChange _ _ => true
  | _ => false
  end.

Definition is_AssignLastRestart (a : action) : bool :=
  match a with
  | AssignLastRestart _ => true
  | _ => false
  end.

(** The test of [refreshSinglePeer]: the last restart is less than 3000 ms
    old. *)
Definition cooling (s : Skylink) : bool :=
  js_lt (js_sub (Date_now_or_fallback (clock s)) (lastRestart s)) 3000.

(** The entry [v] of the peer [p] is [null], or a transport that was
    allocated and wired for [p]. *)
Definition registered_for (s : Skylink) (p : string) (v : slot) : bool :=
  match v with
  | Null => true
  | Ref r => bool_decide (targetMid <$> transports s !! r = Some p)
  end.

Definition well_formed (s : Skylink) : bool :=
  forallb (λ e, registered_for s e.1 e.2) (map_to_list (_peerConnections s)).

(** A transport as [close()] leaves it. *)
Definition closed (pc : RTCPeerConnection) : RTCPeerConnection :=
  with_iceConnectionState ICE_CONNECTION_STATE.CLOSED
    (with_signalingState PEER_CONNECTION_STATE.CLOSED pc).

(** What the timer function of a restart hands to the collaborators, in
    order. *)
Definition timer_effects (c : restartClosure) (now : Z) : list effect :=
  (if r_receiveOnly c then [] else [EAddLocalMediaStreams (r_peerId c)])
  ++ (if r_isSelfInitiatedRestart c
      then [ELog log_ (Some (r_peerId c))
              "Sending restart message to signaling server";
            ESendChannelMessage
              (mkMessage _SIG_MESSAGE_TYPE.RESTART (r_peerId c)
                 (truthy (r_isConnectionRestart c))
                 (Date_now_or_fallback now))]
      else [])
  ++ [ETrigger (peerRestart_ev (r_peerId c) true)]
  ++ (if r_callback c then [ELog log_ None "Firing callback"; ECallback]
      else []).

(** Two restarts of ["p"] started before the old transport reported that
    it closed, and the two reports. *)
Definition two_restarts : list action :=
  [CallRestartPeerConnection "p" true (Some true) false;
   CallRefreshConnection (Some "p");
   IceChange 0 ICE_CONNECTION_STATE.CLOSED;
   SignalingChange 0 "closed"].

(** The part of the log written since the log was [old]. *)
Definition logged_since (old : list effect) (s : Skylink) : list effect :=
  drop (length old) (effects s).

(** A session with two peers, and a third whose transport could not be
    allocated. *)
Definition session_with_three : Skylink :=
  run [CallAddPeer "q" "firefox" false false false true;
       CallAddPeer "ghost" "chrome" true false false false]
    session_with_p.

(** Calls of [refreshConnection], and time passing. *)
Definition is_refresh_or_tick (a : action) : bool :=
  match a with
  | CallRefreshConnection _ | Tick _ => true
  | _ => false
  end.

(** What [refreshConnection] leaves alone when it refuses to run. *)
Definition refresh_outputs (s : Skylink) :=
  (restarts s, transports s, _peerConnections s, throttleStamp s,
   healthTimers s, _hasMCU s).

(** The old transport of ["p"] once a restart has replaced it. *)
Definition replaced_transport : RTCPeerConnection :=
  mkPC "p" "closed" ICE_CONNECTION_STATE.CLOSED "new" "" "" false
    (Some true) (Some true).

Definition is_Tick (a : action) : bool :=
  match a with
  | Tick _ => true
  | _ => false
  end.

(** The two reports of a transport that closes, in either order. *)
Definition closing_reports (r : nat) (ice_first : bool) : list action :=
  if ice_first
  then [IceChange r ICE_CONNECTION_STATE.CLOSED;
        SignalingChange r PEER_CONNECTION_STATE.CLOSED]
  else [SignalingChange r PEER_CONNECTION_STATE.CLOSED;
        IceChange r ICE_CONNECTION_STATE.CLOSED].

(** A restart of [p] from the call to the timer function: the call, the two
    reports of the old transport [r], the [_wait] callback of the closure
    [k], [d] milliseconds, the timer function. *)
Definition whole_restart (p : string) (isSelfInitiatedRestart : bool)
    (isConnectionRestart : option bool) (callback : bool) (r k : nat)
    (ice_first : bool) (d : Z) : list action :=
  CallRestartPeerConnection p isSelfInitiatedRestart isConnectionRestart
    callback
  :: closing_reports r ice_first ++ [WaitFire k true; Tick d; TimeoutFire k].

(** * Properties *)

(** Reduce the projections of the object through setters and collaborators,
    leaving maps, lists and decisions as they are. *)
Ltac sk :=
  cbn [_peerConnections transports _peerConnectionHealth
       _ICEConnectionFailures _peerIceTrickleDisabled _peerHSPriorities
       _peerInformations _dataChannels _enableIceTrickle _enableDataChannel
       _hasMCU _lastRestart lastRestart healthTimers throttleStamp restarts
       clock effects
       set_peerConnections set_transports set_peerConnectionHealth
       set_ICEConnectionFailures set_peerIceTrickleDisabled
       set_peerHSPriorities set_peerInformations set_dataChannels set_hasMCU
       set_lastRestart set_healthTimers set_throttleStamp set_restarts
       set_clock set_effects
       stabilise close update_pc _trigger log
       _startPeerConnectionHealthCheck _stopPeerConnectionHealthCheck
       _addLocalMediaStreams _createDataChannel _closeDataChannel _doOffer
       _sendChannelMessage emit after throws fst snd
       default from_option id] in *.

(** Normalise, and split on the conditions that show up on the way. *)
Ltac crunch :=
  repeat (sk; repeat rewrite lookup_insert_eq;
          cbn [truthy negb andb orb] in *;
          repeat match goal with
                 | H : ?c = _ |- context [if ?c then _ else _] => rewrite H
                 end;
          try match goal with
              | |- context [if ?c then _ else _] =>
                  lazymatch c with
                  | context [if _ then _ else _] => fail
                  | _ => destruct c eqn:?
                  end
              end).

(** ** Names of the Array *)

Lemma ordinary_not_inherited (p : string) :
  ordinary p = true → inherited p = false.
Proof. unfold ordinary. by destruct (inherited p). Qed.

Lemma ordinary_not_foreign (s : Skylink) (p : string) :
  ordinary p = true → foreign s p = false.
Proof.
  intros Hp. unfold foreign.
  by rewrite (ordinary_not_inherited p Hp), andb_false_r.
Qed.

Lemma entry_not_foreign (s : Skylink) (p : string) (v : slot) :
  _peerConnections s !! p = Some v → foreign s p = false.
Proof. intros Hp. unfold foreign. by rewrite Hp. Qed.

Lemma record_not_foreign (s : Skylink) (p : string) (r : nat) :
  peerRecord s p = Some r → foreign s p = false.
Proof.
  unfold peerRecord. destruct (_peerConnections s !! p) as [v|] eqn:Hp; [|done].
  intros _. by apply (entry_not_foreign s p v).
Qed.


Lemma after_ends (faults : bool) (s : Skylink) : after (ends faults s) = s.
Proof. by destruct faults. Qed.

(** ** Runs *)

Lemma run_snoc (acts : list action) (a : action) (s : Skylink) :
  run (acts ++ [a]) s = turn a (run acts s).
Proof. unfold run. by rewrite foldl_app. Qed.

Lemma run_cons (a : action) (acts : list action) (s : Skylink) :
  run (a :: acts) s = run acts (turn a s).
Proof. done. Qed.

Lemma run_app (acts acts' : list action) (s : Skylink) :
  run (acts ++ acts') s = run acts' (run acts s).
Proof. unfold run. by rewrite foldl_app. Qed.

(** ** What a piece of code leaves untouched *)

Section Keeps.
Context {A : Type} (field : Skylink → A).

Lemma keeps_refl (s : Skylink) : keeps field s s.
Proof. done. Qed.

Lemma keeps_then (a x y : Skylink) :
  keeps field x y → keeps field a x → keeps field a y.
Proof. unfold keeps. congruence. Qed.

Lemma keeps_let (a x : Skylink) (f : Skylink → Skylink) :
  keeps field a x → (∀ y, keeps field a y → keeps field a (f y)) →
  keeps field a (let s := x in f s).
Proof. intros Hx Hf. by apply Hf. Qed.

Lemma keeps_with_pc (a s : Skylink) (r : nat)
    (k : RTCPeerConnection → Skylink) :
  keeps field a s → (∀ pc, keeps field a (k pc)) →
  keeps field a (with_pc r s k).
Proof. intros Hs Hk. unfold with_pc. by case_match. Qed.

Lemma keeps_let_created (a x : Skylink) (p : string) (ctor_ok : bool)
    (f : slot → Skylink → Skylink) :
  (∀ y, keeps field y (_createPeerConnection p ctor_ok y).2) →
  keeps field a x → (∀ v y, keeps field a y → keeps field a (f v y)) →
  keeps field a (let '(v, s) := _createPeerConnection p ctor_ok x in f v s).
Proof.
  intros Hc Hx Hf. specialize (Hc x).
  destruct (_createPeerConnection p ctor_ok x) as [v y].
  apply Hf. by eapply keeps_then.
Qed.

Lemma keeps_opt_Some {B : Type} (st : B → Skylink) (a : Skylink) (b : B) :
  keeps field a (st b) → keeps_opt st field a (Some b).
Proof. by intros H ? [= <-]. Qed.

Lemma keeps_opt_None {B : Type} (st : B → Skylink) (a : Skylink) :
  keeps_opt st field a None.
Proof. by intros ?. Qed.

Lemma keeps_opt_let {B : Type} (st : B → Skylink) (a x : Skylink)
    (f : Skylink → option B) :
  keeps field a x → (∀ y, keeps field a y → keeps_opt st field a (f y)) →
  keeps_opt st field a (let s := x in f s).
Proof. intros Hx Hf. by apply Hf. Qed.

Lemma keeps_opt_let_created {B : Type} (st : B → Skylink) (a x : Skylink)
    (p : string) (ctor_ok : bool) (f : slot → Skylink → option B) :
  (∀ y, keeps field y (_createPeerConnection p ctor_ok y).2) →
  keeps field a x → (∀ v y, keeps field a y → keeps_opt st field a (f v y)) →
  keeps_opt st field a
    (let '(v, s) := _createPeerConnection p ctor_ok x in f v s).
Proof.
  intros Hc Hx Hf. specialize (Hc x).
  destruct (_createPeerConnection p ctor_ok x) as [v y].
  apply Hf. by eapply keeps_then.
Qed.

Lemma keeps_opt_Return (a : Skylink) (o : option Skylink) :
  keeps_opt (λ s, s) field a o → keeps_opt after field a (Return <$> o).
Proof. intros H out. destruct o; [|done]. intros [= <-]. by apply H. Qed.

Lemma keeps_turn (a : action) (s : Skylink) :
  keeps_opt after field s (step a s) → keeps field s (turn a s).
Proof. unfold turn. destruct (step a s); intros H; [by apply H|done]. Qed.

Lemma keeps_toRefresh (peerId : option string) (s : Skylink) :
  (∀ p x, keeps field x (refreshSinglePeer p x)) →
  keeps field s (toRefresh peerId s).
Proof.
  intros Hone. unfold toRefresh. destruct peerId as [p|]; [apply Hone|].
  generalize ((map_to_list (_peerConnections s)).*1). intros keys.
  induction keys as [|key keys IH] using rev_ind; [apply keeps_refl|].
  rewrite foldl_app. cbn [foldl].
  eapply keeps_then; [apply Hone|exact IH].
Qed.

Lemma keeps_refreshConnection (peerId : option string) (s : Skylink) :
  (∀ p x, keeps field x (refreshSinglePeer p x)) →
  (∀ x l p t, keeps field x (log l p t x)) →
  (∀ x v, keeps field x (set_throttleStamp x v)) →
  keeps field s (refreshConnection peerId s).2.
Proof.
  intros Hone Hlog Hstamp.
  assert (Hrun : keeps field s (set_throttleStamp (toRefresh peerId s)
                                  (Some (clock s)))).
  { eapply keeps_then; [apply Hstamp|by apply keeps_toRefresh]. }
  unfold refreshConnection, _throttle.
  repeat case_match; cbn [snd]; try exact Hrun; try apply Hlog.
  apply keeps_refl.
Qed.

Lemma keeps_run (allowed : action → bool) (acts : list action) (s : Skylink) :
  (∀ a x, allowed a = true → keeps field x (turn a x)) →
  forallb allowed acts = true → keeps field s (run acts s).
Proof.
  intros Hturn. induction acts as [|a acts IH] using rev_ind;
    [intros _; apply keeps_refl|].
  rewrite forallb_app, andb_true_iff. cbn [forallb].
  rewrite andb_true_r. intros [Hacts Ha]. rewrite run_snoc.
  eapply keeps_then; [by apply Hturn|by apply IH].
Qed.
End Keeps.

(** One primitive: the field reads the same after it. *)
Ltac keeps_from x :=
  lazymatch goal with
  | |- keeps ?f ?a _ =>
      apply (keeps_then f a x);
      [ unfold keeps; try unfold f; sk; rewrite ?length_alter; reflexivity | ]
  end.

Ltac keeps_peel :=
  lazymatch goal with
  | |- keeps _ _ (log _ _ _ ?x) => keeps_from x
  | |- keeps _ _ (emit _ ?x) => keeps_from x
  | |- keeps _ _ (_trigger _ ?x) => keeps_from x
  | |- keeps _ _ (stabilise _ ?x) => keeps_from x
  | |- keeps _ _ (close _ ?x) => keeps_from x
  | |- keeps _ _ (update_pc _ _ ?x) => keeps_from x
  | |- keeps _ _ (_startPeerConnectionHealthCheck _ _ ?x) => keeps_from x
  | |- keeps _ _ (_stopPeerConnectionHealthCheck _ ?x) => keeps_from x
  | |- keeps _ _ (_addLocalMediaStreams _ ?x) => keeps_from x
  | |- keeps _ _ (_createDataChannel _ ?x) => keeps_from x
  | |- keeps _ _ (_closeDataChannel _ ?x) => keeps_from x
  | |- keeps _ _ (_doOffer _ ?x) => keeps_from x
  | |- keeps _ _ (_sendChannelMessage _ ?x) => keeps_from x
  | |- keeps _ _ (set_peerConnections ?x _) => keeps_from x
  | |- keeps _ _ (set_transports ?x _) => keeps_from x
  | |- keeps _ _ (set_peerConnectionHealth ?x _) => keeps_from x
  | |- keeps _ _ (set_ICEConnectionFailures ?x _) => keeps_from x
  | |- keeps _ _ (set_peerIceTrickleDisabled ?x _) => keeps_from x
  | |- keeps _ _ (set_peerHSPriorities ?x _) => keeps_from x
  | |- keeps _ _ (set_peerInformations ?x _) => keeps_from x
  | |- keeps _ _ (set_dataChannels ?x _) => keeps_from x
  | |- keeps _ _ (set_hasMCU ?x _) => keeps_from x
  | |- keeps _ _ (set_lastRestart ?x _) => keeps_from x
  | |- keeps _ _ (set_healthTimers ?x _) => keeps_from x
  | |- keeps _ _ (set_throttleStamp ?x _) => keeps_from x
  | |- keeps _ _ (set_restarts ?x _) => keeps_from x
  | |- keeps _ _ (set_clock ?x _) => keeps_from x
  | |- keeps _ _ (set_effects ?x _) => keeps_from x
  end.

Ltac keeps_created :=
  intros ?; unfold _createPeerConnection;
  lazymatch goal with
  | |- keeps _ _ (if ?ok then _ else _).2 => destruct ok
  end; cbv zeta; cbn [snd]; repeat first [apply keeps_refl | keeps_peel].

(** A sequence of statements, one statement at a time. *)
Ltac keeps_statement :=
  cbv beta;
  lazymatch goal with
  | |- keeps _ ?a ?a => apply keeps_refl
  | H : keeps ?f ?a ?x |- keeps ?f ?a ?x => exact H
  | |- keeps ?f ?a (let s := ?x in @?g s) =>
      first [ apply (keeps_let f a x g); [|intros ? ?]
            | change (keeps f a (g x)) ]
  | |- keeps ?f ?a (after (let s := ?x in @?g s)) =>
      change (keeps f a (let s := x in after (g s)))
  | |- keeps ?f ?a (let '(v, s) := _createPeerConnection ?p ?ok ?x in @?g v s) =>
      apply (keeps_let_created f a x p ok g); [keeps_created| |intros ? ? ?]
  | |- keeps _ _ (with_pc _ _ _) => apply keeps_with_pc; [|intros ?]
  | |- keeps _ _ (after (Return _)) => cbn [after]
  | |- keeps _ _ (after (Throw _)) => cbn [after]
  | |- keeps _ _ (after (ends _ _)) => rewrite after_ends
  | |- keeps _ _ (after (match ?c with _ => _ end)) => destruct c eqn:?
  | |- keeps _ _ (match ?c with _ => _ end) => destruct c eqn:?
  | |- keeps _ _ (_restartPeerConnection _ _ _ _ _) =>
      cbv beta delta [_restartPeerConnection]
  | |- keeps _ _ (refreshSinglePeer _ _) =>
      cbv beta delta [refreshSinglePeer]
  | |- keeps_opt _ _ _ (Some _) => apply keeps_opt_Some
  | |- keeps_opt _ _ _ None => apply keeps_opt_None
  | |- keeps_opt _ _ _ (Return <$> _) => apply keeps_opt_Return
  | |- keeps_opt ?st ?f ?a (let s := ?x in @?g s) =>
      first [ apply (keeps_opt_let f st a x g); [|intros ? ?]
            | change (keeps_opt st f a (g x)) ]
  | |- keeps_opt ?st ?f ?a
         (let '(v, s) := _createPeerConnection ?p ?ok ?x in @?g v s) =>
      apply (keeps_opt_let_created f st a x p ok g);
        [keeps_created| |intros ? ? ?]
  | |- keeps_opt _ _ _ (mbind _ ?m) =>
      destruct m eqn:?; cbv beta iota delta [mbind option_bind]
  | |- keeps_opt _ _ _ (match ?c with _ => _ end) => destruct c eqn:?
  | |- _ => keeps_peel
  end.

Ltac keeps_auto := repeat keeps_statement.

(** The methods and callbacks, with their statements in sight. *)
Ltac keeps_step :=
  cbv beta iota delta [step oniceconnectionstatechange
    iceConnectionState_callback onsignalingstatechange
    onicegatheringstatechange ondatachannel onaddstream onicecandidate
    wait_callback timeout_callback _addPeer _removePeer].

Ltac keeps_refresh :=
  apply keeps_opt_Some; rewrite after_ends; apply keeps_refreshConnection;
  intros; keeps_auto.

Lemma table_turn (a : action) (s : Skylink) :
  registers a = false → keeps table s (turn a s).
Proof.
  intros Ha. apply keeps_turn.
  destruct a; try discriminate Ha; clear Ha; try keeps_refresh;
    keeps_step; keeps_auto.
Qed.

Lemma counters_turn (a : action) (s : Skylink) :
  is_IceChange a = false → keeps counters s (turn a s).
Proof.
  intros Ha. apply keeps_turn.
  destruct a; try discriminate Ha; clear Ha; try keeps_refresh;
    keeps_step; keeps_auto.
Qed.

Lemma stamps_turn (a : action) (s : Skylink) :
  is_AssignLastRestart a = false → keeps stamps s (turn a s).
Proof.
  intros Ha. apply keeps_turn.
  destruct a; try discriminate Ha; clear Ha; try keeps_refresh;
    keeps_step; keeps_auto.
Qed.

Lemma refresh_inputs_refreshSinglePeer (p : string) (s : Skylink) :
  keeps refresh_inputs s (refreshSinglePeer p s).
Proof. keeps_auto. Qed.

(** ** Creating a connection *)

(** C6.  When [targetMid] already has a record and the call is not a restart,
    [_addPeer] logs the error and returns: the resulting object is the given
    one with that one log line appended, so the peer table, the transports
    (the record's [receiveOnly] among their fields) and every other field
    are the ones before the call. *)
Theorem addPeer_duplicate_rejected (s : Skylink) (targetMid peerBrowser : string)
    (toOffer receiveOnly ctor_ok : bool) (r : nat) :
  peerRecord s targetMid = Some r →
  _addPeer targetMid peerBrowser toOffer false receiveOnly ctor_ok s
  = Return (set_effects s
              (effects s ++
                 [ELog error (Some targetMid)
                    "Connection to peer has already been made"]))
  ∧ _peerConnections
      (after (_addPeer targetMid peerBrowser toOffer false receiveOnly
                ctor_ok s)) = _peerConnections s
  ∧ transports
      (after (_addPeer targetMid peerBrowser toOffer false receiveOnly
                ctor_ok s)) = transports s.
Proof.
  intros Hrec. unfold _addPeer. rewrite Hrec.
  rewrite bool_decide_eq_true_2 by eauto. done.
Qed.

Lemma addPeer_duplicate_rejected_witness :
  peerRecord session_with_p "p" = Some 0%nat
  ∧ transports
      (after (_addPeer "p" "firefox" true false false true session_with_p))
    = transports session_with_p.
Proof.
  split; [ vm_compute; reflexivity | ].
  apply (addPeer_duplicate_rejected session_with_p "p" "firefox"
           true false true 0).
  vm_compute; reflexivity.
Defined.

Lemma addPeer_allocation_failure (s : Skylink)
    (targetMid peerBrowser : string) (toOffer receiveOnly : bool) :
  peerRecord s targetMid = None →
  foreign s targetMid = false →
  _addPeer targetMid peerBrowser toOffer false receiveOnly false s
  = Throw (set_peerConnections
             (set_effects s
                ((effects s ++
                    [ELog log_ (Some targetMid)
                       "Starting the connection to peer. Options provided:"])
                 ++ [ELog error (Some targetMid)
                       "Failed creating peer connection:"]))
             (<[targetMid := Null]> (_peerConnections s))).
Proof.
  intros Hrec Hfor. unfold _addPeer. rewrite Hrec, Hfor. simpl.
  unfold peerRecord, foreign. simpl. rewrite !lookup_insert_eq.
  by rewrite bool_decide_eq_false_2.
Qed.

Lemma notify_peerLeft (p : string) (b : bool) (cs : list restartClosure) :
  notify (peerLeft_ev p b) <$> cs = cs.
Proof. apply list_fmap_id. Qed.

Lemma peerRecord_slot (s : Skylink) (p : string) (r : nat) :
  peerRecord s p = Some r ↔ _peerConnections s !! p = Some (Ref r).
Proof.
  unfold peerRecord.
  destruct (_peerConnections s !! p) as [[|r']|]; split; congruence.
Qed.

Lemma alter_last {A : Type} (f : A → A) (l : list A) (x : A) :
  alter f (length l) (l ++ [x])%list = (l ++ [f x])%list.
Proof. by rewrite <- (Nat.add_0_r (length l)), alter_app_r. Qed.

(** What [_addPeer] leaves for a peer without a record, when the transport
    can be allocated. *)
Lemma addPeer_new (s : Skylink) (p peerBrowser : string)
    (toOffer receiveOnly : bool) :
  peerRecord s p = None →
  foreign s p = false →
  ∃ s', _addPeer p peerBrowser toOffer false receiveOnly true s = Return s'
    ∧ _peerConnections s'
      = <[p := Ref (length (transports s))]> (_peerConnections s)
    ∧ transports s'
      = (transports s
         ++ [with_receiveOnly (Some receiveOnly) (fresh_transport p)])%list
    ∧ healthTimers s' = {[p]} ∪ healthTimers s
    ∧ _dataChannels s'
      = (if toOffer && _enableDataChannel s
         then {[p]} ∪ _dataChannels s else _dataChannels s)
    ∧ effects s'
      = (effects s
         ++ [ELog log_ (Some p)
               "Starting the connection to peer. Options provided:";
             EConstruct (length (transports s)) p;
             ELog info (Some p) "Created peer connection";
             ELog debug (Some p) "Peer connection config:";
             ELog debug (Some p) "Peer connection constraints:"]
         ++ (if receiveOnly then [] else [EAddLocalMediaStreams p])
         ++ (if toOffer
             then (if _enableDataChannel s then [ECreateDataChannel p] else [])
                  ++ [EDoOffer p]
             else []))%list
    ∧ restarts s' = restarts s
    ∧ clock s' = clock s.
Proof.
  intros Hrec Hfor. unfold _addPeer, _createPeerConnection.
  rewrite Hrec, Hfor.
  rewrite bool_decide_eq_false_2 by (by intros [? ?]).
  cbv beta iota zeta delta [andb negb]. unfold peerRecord. sk.
  rewrite lookup_insert_eq.
  pose proof (alter_last (with_receiveOnly (Some receiveOnly)) (transports s)
                (fresh_transport p)) as Halter.
  destruct receiveOnly, toOffer, (_enableDataChannel s) eqn:Hdc;
    cbn [negb andb]; sk; rewrite ?Hdc; sk;
    eexists; (split; [reflexivity|]); sk; rewrite Halter;
    rewrite <- ?app_assoc; cbn [app]; done.
Qed.

(** C7.  When the allocation fails, [_createPeerConnection] logs, returns
    [Null] and does nothing else.  For an ordinary peer id without a record,
    [_addPeer] does not check what it got: it stores that [Null] under the
    peer id, as an entry of the table, and faults at the next statement, the
    assignment of [receiveOnly].  Nothing was allocated and no transport was
    constructed; the entry holds no record. *)
Theorem allocation_failure_registers_null_and_faults (s : Skylink)
    (targetMid peerBrowser : string) (toOffer receiveOnly : bool) :
  ordinary targetMid = true →
  peerRecord s targetMid = None →
  _createPeerConnection targetMid false s
  = (Null, set_effects s
             (effects s ++
                [ELog error (Some targetMid)
                   "Failed creating peer connection:"]))
  ∧ let o := _addPeer targetMid peerBrowser toOffer false receiveOnly false s in
    throws o = true
    ∧ _peerConnections (after o) = <[targetMid := Null]> (_peerConnections s)
    ∧ peerRecord (after o) targetMid = None
    ∧ (∀ q, q ≠ targetMid → peerRecord (after o) q = peerRecord s q)
    ∧ transports (after o) = transports s
    ∧ (∀ r q, EConstruct r q ∈ effects (after o) → EConstruct r q ∈ effects s).
Proof.
  intros Hord Hrec. split; [done|].
  rewrite (addPeer_allocation_failure s targetMid peerBrowser toOffer
             receiveOnly Hrec (ordinary_not_foreign s targetMid Hord)).
  simpl. split; [done|]. split; [done|]. split.
  { unfold peerRecord. simpl. by rewrite lookup_insert_eq. }
  split.
  { intros q Hq. unfold peerRecord. simpl. by rewrite lookup_insert_ne. }
  split; [done|].
  intros r q. rewrite !elem_of_app, !list_elem_of_singleton.
  intros [[H|H]|H]; [done | discriminate H | discriminate H].
Qed.

Lemma allocation_failure_registers_null_and_faults_witness :
  ordinary "q" = true
  ∧ peerRecord (new_Skylink true true) "q" = None
  ∧ _peerConnections
      (after (_addPeer "q" "chrome" true false false false
                (new_Skylink true true))) !! "q" = Some Null.
Proof.
  split; [ vm_compute; reflexivity | ]. split; [ vm_compute; reflexivity | ].
  destruct (allocation_failure_registers_null_and_faults
              (new_Skylink true true) "q" "chrome" true false)
    as (_ & _ & -> & _); [ vm_compute; reflexivity.. | ].
  apply lookup_insert_eq.
Defined.





(** ** Unknown peers *)

(** [_restartPeerConnection] and [refreshConnection] for a peer id whose
    lookup reads [undefined] or [null]: one log line, nothing else. *)

Lemma restartPeerConnection_unknown_peer (s : Skylink) (p : string)
    (isSelf : bool) (isConn : option bool) (callback : bool) :
  peerRecord s p = None →
  foreign s p = false →
  _restartPeerConnection p isSelf isConn callback s
  = set_effects s
      (effects s ++
         [ELog error (Some p)
            "Peer does not have an existing connection. Unable to restart"]).
Proof.
  intros Hrec Hfor. unfold _restartPeerConnection. by rewrite Hrec, Hfor.
Qed.

Lemma refreshSinglePeer_unknown_peer (s : Skylink) (p : string) :
  peerRecord s p = None →
  foreign s p = false →
  refreshSinglePeer p s
  = set_effects s
      (effects s ++
         [ELog error (Some p)
            ("There is currently no existing peer connection made "
             +:+ "with the peer. Unable to restart connection")]).
Proof.
  intros Hrec Hfor. unfold refreshSinglePeer. by rewrite Hrec, Hfor.
Qed.

Lemma refreshConnection_unknown_peer (s : Skylink) (p : string) :
  peerRecord s p = None →
  foreign s p = false →
  _peerConnections (refreshConnection (Some p) s).2 = _peerConnections s
  ∧ transports (refreshConnection (Some p) s).2 = transports s
  ∧ restarts (refreshConnection (Some p) s).2 = restarts s.
Proof.
  intros Hrec Hfor. unfold refreshConnection, _throttle, toRefresh.
  rewrite (refreshSinglePeer_unknown_peer s p Hrec Hfor).
  repeat case_match; done.
Qed.

(** On an inherited name the restart is not refused: it goes on to
    [close()] and ends there by a fault. *)
Example restart_inherited_name_faults :
  throws <$> step (CallRestartPeerConnection "constructor" true None false)
               (new_Skylink true true) = Some true
  ∧ effects (turn (CallRestartPeerConnection "constructor" true None false)
               (new_Skylink true true))
    = [ELog log_ (Some "constructor") "Restarting a peer connection"].
Proof. vm_compute. done. Qed.

(** C8.  What [_removePeer] does for a peer id without a record: it
    publishes [peerLeft] (or clears [_hasMCU]), stops the watchdog, and then
    faults on the assignment of [dataChannelClosed], before the test that
    would have skipped an absent record (for an inherited name, on [close()]
    right after that test).  The [TypeError] leaves the method. *)
Theorem removePeer_unknown_peer_faults (s : Skylink) (p : string) :
  peerRecord s p = None →
  _removePeer p s
  = Throw (_stopPeerConnectionHealthCheck p
             (if bool_decide (p ≠ "MCU")
              then _trigger (peerLeft_ev p false) s
              else log log_ (Some p) "MCU has stopped listening and left"
                     (set_hasMCU s false))).
Proof.
  intros Hrec. unfold _removePeer.
  assert (peerRecord
            (_stopPeerConnectionHealthCheck p
               (if bool_decide (p ≠ "MCU")
                then _trigger (peerLeft_ev p false) s
                else log log_ (Some p) "MCU has stopped listening and left"
                       (set_hasMCU s false))) p = None) as ->; [|done].
  by case_bool_decide.
Qed.

Lemma removePeer_unknown_peer_faults_witness :
  peerRecord (new_Skylink true true) "ghost" = None
  ∧ throws (_removePeer "ghost" (new_Skylink true true)) = true.
Proof.
  split; [ vm_compute; reflexivity | ].
  rewrite (removePeer_unknown_peer_faults (new_Skylink true true) "ghost");
    [ | vm_compute ]; reflexivity.
Defined.

(** ** The synchronous part of a restart *)

Lemma notify_streamEnded (p : string) (b : bool) (cs : list restartClosure) :
  notify (streamEnded_ev p b) <$> cs = cs.
Proof. apply list_fmap_id. Qed.

Lemma restartPeerConnection_restarts (s : Skylink) (p : string) (r : nat)
    (isSelf : bool) (isConn : option bool) (callback : bool) :
  peerRecord s p = Some r →
  restarts (_restartPeerConnection p isSelf isConn callback s)
  = (restarts s ++ [suspended p isSelf isConn callback r s])%list.
Proof.
  intros Hrec. unfold _restartPeerConnection, with_pc, suspended.
  rewrite Hrec. cbv zeta. sk.
  repeat case_match; sk; rewrite ?notify_streamEnded; reflexivity.
Qed.

(** ** The cooldown of [refreshConnection] *)




(** ** The ICE callback *)

Lemma iceConnectionState_callback_FAILED (s : Skylink) (r : nat)
    (pc : RTCPeerConnection) :
  transports s !! r = Some pc →
  iceConnectionState_callback r ICE_CONNECTION_STATE.FAILED s
  = Some (_restartPeerConnection (targetMid pc) true (Some true) false
            (failed_bookkeeping (targetMid pc) s)).
Proof.
  intros Hpc. unfold iceConnectionState_callback, failed_bookkeeping.
  rewrite Hpc. cbn [mbind option_bind].
  rewrite (bool_decide_eq_false_2
             (ICE_CONNECTION_STATE.FAILED = ICE_CONNECTION_STATE.COMPLETED))
    by done.
  rewrite (bool_decide_eq_true_2
             (ICE_CONNECTION_STATE.FAILED = ICE_CONNECTION_STATE.FAILED))
    by done.
  reflexivity.
Qed.

Lemma notify_ice_not_closed (state : IceState) (p : string)
    (cs : list restartClosure) :
  state ≠ ICE_CONNECTION_STATE.CLOSED →
  notify (iceConnectionState_ev state p) <$> cs = cs.
Proof.
  intros Hst. rewrite <- (list_fmap_id cs) at 2.
  apply list_fmap_ext. intros i c _. unfold notify.
  by rewrite bool_decide_eq_false_2.
Qed.

(** The failure counter, the trickle flag and the events published by the
    statements before the restart. *)
Lemma failed_bookkeeping_spec (p : string) (s : Skylink) :
  let n := default 0 (_ICEConnectionFailures s !! p) in
  let s1 := failed_bookkeeping p s in
  _ICEConnectionFailures s1 = <[p := n + 1]> (_ICEConnectionFailures s)
  ∧ _peerIceTrickleDisabled s1
    = (if bool_decide (2 < n) then <[p := true]> (_peerIceTrickleDisabled s)
       else _peerIceTrickleDisabled s)
  ∧ effects s1
    = ((effects s ++
          [ELog debug (Some p) "Ice connection state changed ->";
           ETrigger (iceConnectionState_ev ICE_CONNECTION_STATE.FAILED p)])
       ++ (if _enableIceTrickle s
              && negb (truthy (_peerIceTrickleDisabled s1 !! p))
           then [ETrigger (iceConnectionState_ev
                             ICE_CONNECTION_STATE.TRICKLE_FAILED p)]
           else []))%list
  ∧ _enableIceTrickle s1 = _enableIceTrickle s
  ∧ _peerConnections s1 = _peerConnections s
  ∧ transports s1 = transports s
  ∧ restarts s1 = restarts s
  ∧ clock s1 = clock s
  ∧ throttleStamp s1 = throttleStamp s.
Proof.
  unfold failed_bookkeeping. cbv zeta. sk.
  destruct (_ICEConnectionFailures s !! p) as [n|] eqn:Hn; sk;
    rewrite ?Hn; repeat rewrite lookup_insert_eq; sk.
  - crunch; rewrite ?Hn; crunch;
      rewrite ?notify_ice_not_closed by done;
      rewrite <- ?app_assoc, ?app_nil_r; done.
  - rewrite (bool_decide_eq_false_2 (2 < 0)) by lia. crunch;
      rewrite ?insert_insert_eq;
      rewrite ?notify_ice_not_closed by done;
      rewrite <- ?app_assoc, ?app_nil_r; done.
Qed.




(** ** How the object evolves *)

Lemma not_published_since (n : nat) (e : effect) (s : Skylink) :
  e ∉ drop n (effects s) → ¬ published_since n e s.
Proof.
  intros Hnot (i & Hi & Hlook). apply Hnot.
  apply list_elem_of_lookup. exists (i - n)%nat.
  rewrite lookup_drop. by replace (n + (i - n))%nat with i by lia.
Qed.

Lemma published_since_prefix (n : nat) (e : effect) (s s' : Skylink) :
  effects s `prefix_of` effects s' →
  published_since n e s → published_since n e s'.
Proof.
  intros Hpre (i & Hi & Hlook). exists i. split; [done|].
  by eapply prefix_lookup_Some.
Qed.

Lemma published_since_le (n m : nat) (e : effect) (s : Skylink) :
  (n ≤ m)%nat → published_since m e s → published_since n e s.
Proof. intros Hnm (i & Hi & Hlook). exists i. split; [lia|done]. Qed.

Lemma closure_evolves_refl (s s' : Skylink) (c : restartClosure) :
  closure_evolves s s' c c.
Proof. split; unfold same_closure_args; tauto. Qed.

Lemma closure_evolves_trans (s1 s2 s3 : Skylink) (c1 c2 c3 : restartClosure) :
  effects s1 `prefix_of` effects s2 →
  effects s2 `prefix_of` effects s3 →
  closure_evolves s1 s2 c1 c2 → closure_evolves s2 s3 c2 c3 →
  closure_evolves s1 s3 c1 c3.
Proof.
  intros H12 H23 [A1 I1 S1 IK1 SK1 B1 L1] [A2 I2 S2 IK2 SK2 B2 L2].
  pose proof (prefix_length _ _ H12) as Hlen.
  destruct A1 as (Ap1 & Aa1 & Ab1 & Ac1 & Ad1).
  destruct A2 as (Ap2 & Aa2 & Ab2 & Ac2 & Ad2).
  split.
  - unfold same_closure_args. repeat split; congruence.
  - intros Hc3. destruct (I2 Hc3) as [Hc2|Hc2].
    + destruct (I1 Hc2) as [?|?]; [by left|right].
      by eapply published_since_prefix.
    + right. rewrite Ap1 in Hc2. by eapply published_since_le.
  - intros Hc3. destruct (S2 Hc3) as [Hc2|Hc2].
    + destruct (S1 Hc2) as [?|?]; [by left|right].
      by eapply published_since_prefix.
    + right. rewrite Ap1 in Hc2. by eapply published_since_le.
  - auto.
  - auto.
  - intros Hw Hn. destruct (r_phase c2) eqn:Hw2.
    + auto.
    + destruct B1 as [? ?]; [done|done|]. auto.
    + destruct B1 as [? ?]; [done|done|]. auto.
  - auto.
Qed.

(** Nothing was suspended in between when the list has kept its length. *)
Lemma none_suspended (l l' : list restartClosure) (k : nat)
    (c : restartClosure) (P : Prop) :
  length l' = length l → l' !! k = Some c → (length l ≤ k)%nat → P.
Proof. intros Hlen Hk Hle. apply lookup_lt_Some in Hk. lia. Qed.

Lemma evolves_refl (s : Skylink) : evolves s s.
Proof.
  split; try done; eauto.
  - intros k c Hc. exists c. split; [done|]. apply closure_evolves_refl.
  - intros k c. by apply none_suspended.
Qed.

Lemma evolves_trans (s1 s2 s3 : Skylink) :
  evolves s1 s2 → evolves s2 s3 → evolves s1 s3.
Proof.
  intros [E1 C1 T1 D1 R1 N1] [E2 C2 T2 D2 R2 N2]. split.
  - by etrans.
  - lia.
  - intros r pc Hpc. destruct (T1 _ _ Hpc) as (pc' & Hpc' & Hmid).
    destruct (T2 _ _ Hpc') as (pc'' & Hpc'' & Hmid').
    exists pc''. split; [done|congruence].
  - auto.
  - intros k c Hc. destruct (R1 _ _ Hc) as (c' & Hc' & Hev).
    destruct (R2 _ _ Hc') as (c'' & Hc'' & Hev').
    exists c''. split; [done|]. by eapply closure_evolves_trans.
  - intros k c3 Hc3 Hle.
    pose proof (prefix_length _ _ E1) as Hlen.
    destruct (restarts s2 !! k) as [c2|] eqn:Hc2.
    + destruct (R2 _ _ Hc2) as (c3' & Hc3' & [Ha Hi Hs _ _ _ _]).
      rewrite Hc3 in Hc3'. injection Hc3' as <-.
      destruct Ha as (Hp & _). destruct (N1 _ _ Hc2 Hle) as [Hi1 Hs1].
      unfold raised_since. rewrite Hp. split; intros Hflag.
      * destruct (Hi Hflag) as [H|H].
        -- eapply published_since_prefix; [exact E2|]. auto.
        -- by eapply published_since_le.
      * destruct (Hs Hflag) as [H|H].
        -- eapply published_since_prefix; [exact E2|]. auto.
        -- by eapply published_since_le.
    + apply lookup_ge_None in Hc2.
      destruct (N2 _ _ Hc3 Hc2) as [Hi2 Hs2].
      split; intros Hflag; eapply published_since_le; eauto.
Qed.

Lemma quiet_refl (s : Skylink) : quiet s s.
Proof. split; [apply evolves_refl|done]. Qed.

Lemma quiet_trans (s1 s2 s3 : Skylink) : quiet s1 s2 → quiet s2 s3 → quiet s1 s3.
Proof.
  intros [E1 T1] [E2 T2]. split; [by eapply evolves_trans|congruence].
Qed.

Lemma quiet_then (a x y : Skylink) : quiet x y → quiet a x → quiet a y.
Proof. intros Hxy Hax. by eapply quiet_trans. Qed.

(** Code that only appends to the log and touches none of the fields that
    [evolves] watches. *)
Lemma quiet_simple (s s' : Skylink) :
  effects s `prefix_of` effects s' →
  clock s' = clock s →
  transports s' = transports s →
  _peerIceTrickleDisabled s' = _peerIceTrickleDisabled s →
  restarts s' = restarts s →
  throttleStamp s' = throttleStamp s →
  quiet s s'.
Proof.
  intros He Hc Ht Hd Hr Hth. split; [|done]. split.
  - done.
  - lia.
  - intros r pc Hpc. exists pc. by rewrite Ht.
  - intros p. by rewrite Hd.
  - intros k c Hk. exists c. rewrite Hr. split; [done|].
    apply closure_evolves_refl.
  - intros k c. apply none_suspended. by rewrite Hr.
Qed.

(** *** Collaborators and assignments *)

Lemma quiet_emit (e : effect) (s : Skylink) : quiet s (emit e s).
Proof. apply quiet_simple; try done. by apply prefix_app_r. Qed.

Lemma quiet_log (l : level) (peer : option string) (text : string)
    (s : Skylink) : quiet s (log l peer text s).
Proof. apply quiet_emit. Qed.

Lemma quiet_set_peerConnections (s : Skylink) (v : gmap string slot) :
  quiet s (set_peerConnections s v).
Proof. by apply quiet_simple. Qed.

Lemma quiet_set_peerConnectionHealth (s : Skylink) (v : gmap string bool) :
  quiet s (set_peerConnectionHealth s v).
Proof. by apply quiet_simple. Qed.

Lemma quiet_set_ICEConnectionFailures (s : Skylink) (v : gmap string Z) :
  quiet s (set_ICEConnectionFailures s v).
Proof. by apply quiet_simple. Qed.

Lemma quiet_set_peerHSPriorities (s : Skylink) (v : gmap string Z) :
  quiet s (set_peerHSPriorities s v).
Proof. by apply quiet_simple. Qed.

Lemma quiet_set_peerInformations (s : Skylink) (v : gmap string string) :
  quiet s (set_peerInformations s v).
Proof. by apply quiet_simple. Qed.

Lemma quiet_set_hasMCU (s : Skylink) (v : bool) : quiet s (set_hasMCU s v).
Proof. by apply quiet_simple. Qed.

Lemma quiet_set_lastRestart (s : Skylink) (v : jsval) :
  quiet s (set_lastRestart s v).
Proof. by apply quiet_simple. Qed.

Lemma quiet_startPeerConnectionHealthCheck (p : string) (b : bool)
    (s : Skylink) : quiet s (_startPeerConnectionHealthCheck p b s).
Proof. by apply quiet_simple. Qed.

Lemma quiet_stopPeerConnectionHealthCheck (p : string) (s : Skylink) :
  quiet s (_stopPeerConnectionHealthCheck p s).
Proof. by apply quiet_simple. Qed.

Lemma quiet_stabilise (p : string) (s : Skylink) : quiet s (stabilise p s).
Proof. apply quiet_simple; try done. by apply prefix_app_r. Qed.

Lemma quiet_addLocalMediaStreams (p : string) (s : Skylink) :
  quiet s (_addLocalMediaStreams p s).
Proof. apply quiet_emit. Qed.

Lemma quiet_createDataChannel (p : string) (s : Skylink) :
  quiet s (_createDataChannel p s).
Proof. apply quiet_simple; try done. by apply prefix_app_r. Qed.

Lemma quiet_closeDataChannel (p : string) (s : Skylink) :
  quiet s (_closeDataChannel p s).
Proof. apply quiet_simple; try done. by apply prefix_app_r. Qed.

Lemma quiet_doOffer (p : string) (s : Skylink) : quiet s (_doOffer p s).
Proof. apply quiet_emit. Qed.

Lemma quiet_sendChannelMessage (m : message) (s : Skylink) :
  quiet s (_sendChannelMessage m s).
Proof. apply quiet_emit. Qed.

(** Other changes that keep the watched fields in order. *)
Lemma quiet_frame (s s' : Skylink) :
  effects s `prefix_of` effects s' →
  clock s ≤ clock s' →
  (∀ r pc, transports s !! r = Some pc →
     ∃ pc', transports s' !! r = Some pc' ∧ targetMid pc' = targetMid pc) →
  (∀ p, _peerIceTrickleDisabled s !! p = Some true →
     _peerIceTrickleDisabled s' !! p = Some true) →
  restarts s' = restarts s →
  throttleStamp s' = throttleStamp s →
  quiet s s'.
Proof.
  intros He Hc Ht Hd Hr Hth. split; [|done]. split; try done.
  - intros k c Hk. exists c. rewrite Hr. split; [done|].
    apply closure_evolves_refl.
  - intros k c. apply none_suspended. by rewrite Hr.
Qed.

Lemma quiet_disable (s : Skylink) (p : string) (m : gmap string bool) :
  _peerIceTrickleDisabled s = m →
  quiet s (set_peerIceTrickleDisabled s (<[p := true]> m)).
Proof.
  intros <-. apply quiet_frame; sk; try done; try lia; eauto.
  intros q Hq. destruct (decide (p = q)) as [->|Hne].
  - by rewrite lookup_insert_eq.
  - by rewrite lookup_insert_ne.
Qed.

Lemma quiet_update_pc (r : nat) (f : RTCPeerConnection → RTCPeerConnection)
    (s : Skylink) :
  (∀ pc, targetMid (f pc) = targetMid pc) →
  quiet s (update_pc r f s).
Proof.
  intros Hf. apply quiet_frame; sk; try done; try lia.
  intros r' pc Hpc. destruct (decide (r = r')) as [->|Hne].
  - exists (f pc). by rewrite list_lookup_alter_eq, Hpc.
  - exists pc. by rewrite list_lookup_alter_ne.
Qed.

Lemma quiet_close (r : nat) (s : Skylink) : quiet s (close r s).
Proof.
  unfold close. eapply quiet_trans; [apply quiet_emit|].
  by apply quiet_update_pc.
Qed.

Lemma quiet_allocate (s : Skylink) (pc : RTCPeerConnection)
    (ts : list RTCPeerConnection) :
  transports s = ts →
  quiet s (set_transports s (ts ++ [pc])).
Proof.
  intros <-. apply quiet_frame; sk; try done; try lia.
  intros r pc' Hpc. exists pc'. split; [|done]. by apply lookup_app_l_Some.
Qed.

Lemma quiet_tick (s : Skylink) (d : Z) :
  0 ≤ d → quiet s (set_clock s (clock s + d)).
Proof. intros Hd. apply quiet_frame; sk; try done; try lia; eauto. Qed.

Lemma quiet_suspend (s : Skylink) (c : restartClosure)
    (rs : list restartClosure) :
  restarts s = rs →
  r_iceConnectionStateClosed c = false →
  r_peerConnectionStateClosed c = false →
  quiet s (set_restarts s (rs ++ [c])).
Proof.
  intros <- Hi Hs. split; [|done]. split; sk; try done; eauto.
  - intros k c' Hk. exists c'. split; [by apply lookup_app_l_Some|].
    apply closure_evolves_refl.
  - intros k c' Hk Hle. rewrite lookup_app_r in Hk by done.
    apply list_lookup_singleton_Some in Hk as [_ <-].
    split; congruence.
Qed.

Lemma notify_args (e : event) (c : restartClosure) :
  same_closure_args c (notify e c) ∧ r_phase (notify e c) = r_phase c.
Proof.
  unfold same_closure_args.
  destruct e; cbn [notify]; try done; case_match; done.
Qed.

Lemma quiet_trigger (e : event) (s : Skylink) : quiet s (_trigger e s).
Proof.
  split; [|done]. split; sk; try done; eauto.
  { by apply prefix_app_r. }
  2:{ intros k c. apply none_suspended. by rewrite length_fmap. }
  intros k c Hk. exists (notify e c). split.
  { by rewrite list_lookup_fmap, Hk. }
  destruct (notify_args e c) as [Hargs Hphase].
  assert (Hpub : ∀ x, e = x →
            published_since (length (effects s)) (ETrigger x) (_trigger e s)).
  { intros x <-. exists (length (effects s)). split; [done|]. sk.
    by rewrite lookup_app_r, Nat.sub_diag. }
  split; try done.
  - intros Hflag. destruct e; cbn [notify] in Hflag; auto.
    + destruct (bool_decide (state = ICE_CONNECTION_STATE.CLOSED)) eqn:Hst;
        [|auto].
      destruct (bool_decide (r_peerId c = peerId)) eqn:Hp; [|auto].
      apply bool_decide_eq_true in Hst, Hp. subst.
      right. by apply Hpub.
    + destruct (_ && _); auto.
  - intros Hflag. destruct e; cbn [notify] in Hflag; auto.
    + destruct (_ && _); auto.
    + destruct (bool_decide (state = PEER_CONNECTION_STATE.CLOSED)) eqn:Hst;
        [|auto].
      destruct (bool_decide (r_peerId c = peerId)) eqn:Hp; [|auto].
      apply bool_decide_eq_true in Hst, Hp. subst.
      right. by apply Hpub.
  - intros Hflag. destruct e; cbn [notify]; auto; by case_match.
  - intros Hflag. destruct e; cbn [notify]; auto; by case_match.
  - rewrite Hphase. intros Hw Hn. done.
  - by rewrite Hphase.
Qed.

(** *** Methods and callbacks *)

Ltac quiet_peel :=
  eapply quiet_then;
  [ first
      [ apply quiet_log | apply quiet_emit | apply quiet_trigger
      | apply quiet_set_peerConnections | apply quiet_set_peerConnectionHealth
      | apply quiet_set_ICEConnectionFailures
      | apply quiet_set_peerHSPriorities | apply quiet_set_peerInformations
      | apply quiet_set_hasMCU | apply quiet_set_lastRestart
      | apply quiet_startPeerConnectionHealthCheck
      | apply quiet_stopPeerConnectionHealthCheck | apply quiet_stabilise
      | apply quiet_addLocalMediaStreams | apply quiet_createDataChannel
      | apply quiet_closeDataChannel | apply quiet_doOffer
      | apply quiet_sendChannelMessage | apply quiet_close
      | apply quiet_disable; reflexivity
      | apply quiet_allocate; reflexivity
      | apply quiet_suspend; reflexivity
      | apply quiet_update_pc; intros; reflexivity ]
  | ].

(** A sequence of statements is followed one statement at a time: what is
    known of the state a statement leaves is all that the next one needs. *)
Lemma quiet_let (a x : Skylink) (f : Skylink → Skylink) :
  quiet a x → (∀ y, quiet a y → quiet a (f y)) →
  quiet a (let s := x in f s).
Proof. intros Hx Hf. by apply Hf. Qed.

Lemma quiet_with_pc (a s : Skylink) (r : nat)
    (k : RTCPeerConnection → Skylink) :
  quiet a s → (∀ pc, quiet a (k pc)) → quiet a (with_pc r s k).
Proof. intros Hs Hk. unfold with_pc. by case_match. Qed.

Lemma quiet_createPeerConnection (p : string) (ctor_ok : bool) (s : Skylink) :
  quiet s (_createPeerConnection p ctor_ok s).2.
Proof.
  unfold _createPeerConnection. destruct ctor_ok; cbv zeta; cbn [snd];
    repeat first [apply quiet_refl | quiet_peel].
Qed.

Lemma quiet_let_created (a x : Skylink) (p : string) (ctor_ok : bool)
    (f : slot → Skylink → Skylink) :
  quiet a x → (∀ v y, quiet a y → quiet a (f v y)) →
  quiet a (let '(v, s) := _createPeerConnection p ctor_ok x in f v s).
Proof.
  intros Hx Hf. pose proof (quiet_createPeerConnection p ctor_ok x) as Hc.
  destruct (_createPeerConnection p ctor_ok x) as [v y].
  apply Hf. by eapply quiet_trans.
Qed.

Ltac quiet_statement :=
  cbv beta;
  lazymatch goal with
  | |- quiet ?a ?a => apply quiet_refl
  | H : quiet ?a ?x |- quiet ?a ?x => exact H
  | |- quiet ?a (let s := ?x in @?f s) =>
      first [ apply (quiet_let a x f); [|intros ? ?]
            | change (quiet a (f x)) ]
  | |- quiet ?a (after (let s := ?x in @?f s)) =>
      change (quiet a (let s := x in after (f s)))
  | |- quiet ?a (let '(v, s) := _createPeerConnection ?p ?ok ?x in @?f v s) =>
      apply (quiet_let_created a x p ok f); [|intros ? ? ?]
  | |- quiet _ (with_pc _ _ _) => apply quiet_with_pc; [|intros ?]
  | |- quiet _ (after (Return _)) => cbn [after]
  | |- quiet _ (after (Throw _)) => cbn [after]
  | |- quiet _ (after (match ?c with _ => _ end)) => destruct c eqn:?
  | |- quiet _ (match ?c with _ => _ end) => destruct c eqn:?
  | |- _ => quiet_peel
  end.

Lemma quiet_restartPeerConnection (p : string) (isSelf : bool)
    (isConn : option bool) (callback : bool) (s : Skylink) :
  quiet s (_restartPeerConnection p isSelf isConn callback s).
Proof. cbv beta delta [_restartPeerConnection]. repeat quiet_statement. Qed.

Ltac quiet_step :=
  cbv beta;
  lazymatch goal with
  | |- quiet _ (_restartPeerConnection _ _ _ _ _) =>
      eapply quiet_then; [apply quiet_restartPeerConnection|]
  | |- _ => quiet_statement
  end.

Ltac quiet_auto := repeat quiet_step.

Lemma quiet_addPeer (targetMid peerBrowser : string)
    (toOffer restartConn receiveOnly ctor_ok : bool) (s : Skylink) :
  quiet s (after (_addPeer targetMid peerBrowser toOffer restartConn
                    receiveOnly ctor_ok s)).
Proof. cbv beta delta [_addPeer]. quiet_auto. Qed.

Lemma quiet_removePeer (p : string) (s : Skylink) :
  quiet s (after (_removePeer p s)).
Proof. cbv beta delta [_removePeer]. quiet_auto. Qed.

Lemma quiet_refreshSinglePeer (p : string) (s : Skylink) :
  quiet s (refreshSinglePeer p s).
Proof. cbv beta delta [refreshSinglePeer]. quiet_auto. Qed.

Lemma quiet_toRefresh (peerId : option string) (s : Skylink) :
  quiet s (toRefresh peerId s).
Proof.
  unfold toRefresh. destruct peerId as [p|]; [apply quiet_refreshSinglePeer|].
  generalize ((map_to_list (_peerConnections s)).*1). intros keys.
  induction keys as [|key keys IH] using rev_ind; [apply quiet_refl|].
  rewrite foldl_app. cbn [foldl].
  eapply quiet_trans; [exact IH|apply quiet_refreshSinglePeer].
Qed.

Lemma quiet_iceConnectionState_callback (r : nat) (state : IceState)
    (s s' : Skylink) :
  iceConnectionState_callback r state s = Some s' → quiet s s'.
Proof.
  cbv beta delta [iceConnectionState_callback].
  destruct (transports s !! r) as [pc|]; [|done]. cbn [mbind option_bind].
  cbv zeta. case_match; intros [= <-]; quiet_auto.
Qed.

Lemma quiet_oniceconnectionstatechange (r : nat) (s s' : Skylink) :
  oniceconnectionstatechange r s = Some s' → quiet s s'.
Proof.
  unfold oniceconnectionstatechange.
  destruct (transports s !! r) as [pc|]; [|done]. cbn [mbind option_bind].
  apply quiet_iceConnectionState_callback.
Qed.

Lemma quiet_onsignalingstatechange (r : nat) (s s' : Skylink) :
  onsignalingstatechange r s = Some s' → quiet s s'.
Proof.
  unfold onsignalingstatechange.
  destruct (transports s !! r) as [pc|]; [|done]. cbn [mbind option_bind].
  intros [= <-]. quiet_auto.
Qed.

Lemma quiet_onicegatheringstatechange (r : nat) (s s' : Skylink) :
  onicegatheringstatechange r s = Some s' → quiet s s'.
Proof.
  unfold onicegatheringstatechange.
  destruct (transports s !! r) as [pc|]; [|done]. cbn [mbind option_bind].
  intros [= <-]. quiet_auto.
Qed.

Lemma quiet_ondatachannel (r : nat) (s s' : Skylink) :
  ondatachannel r s = Some s' → quiet s s'.
Proof.
  unfold ondatachannel.
  destruct (transports s !! r) as [pc|]; [|done]. cbn [mbind option_bind].
  intros [= <-]. quiet_auto.
Qed.

Lemma quiet_onaddstream (r : nat) (s s' : Skylink) :
  onaddstream r s = Some s' → quiet s s'.
Proof.
  unfold onaddstream.
  destruct (transports s !! r) as [pc|]; [|done]. cbn [mbind option_bind].
  intros [= <-]. quiet_auto.
Qed.

Lemma quiet_onicecandidate (r : nat) (s s' : Skylink) :
  onicecandidate r s = Some s' → quiet s s'.
Proof.
  unfold onicecandidate.
  destruct (transports s !! r) as [pc|]; [|done]. cbn [mbind option_bind].
  intros [= <-]. quiet_auto.
Qed.

(** A continuation moves its own closure to the next phase; the barrier
    condition is what lets it leave [Waiting]. *)
Lemma quiet_advance (s : Skylink) (k : nat) (c : restartClosure) (ph : phase)
    (rs : list restartClosure) :
  restarts s = rs →
  rs !! k = Some c →
  (r_phase c = Waiting →
   r_iceConnectionStateClosed c = true
   ∧ r_peerConnectionStateClosed c = true) →
  ph ≠ Waiting →
  quiet s (set_restarts s (alter (with_phase ph) k rs)).
Proof.
  intros <- Hk Hbar Hph. split; [|done]. split; sk; try done; eauto.
  2:{ intros j c'. apply none_suspended. by rewrite length_alter. }
  intros j c' Hj. destruct (decide (k = j)) as [<-|Hne].
  - exists (with_phase ph c'). rewrite list_lookup_alter_eq, Hj.
    split; [done|]. rewrite Hk in Hj. injection Hj as <-.
    split; unfold same_closure_args; cbn [with_phase r_peerId
      r_isSelfInitiatedRestart r_isConnectionRestart r_callback r_receiveOnly
      r_iceConnectionStateClosed r_peerConnectionStateClosed r_phase]; auto.
  - exists c'. rewrite list_lookup_alter_ne by done. split; [done|].
    apply closure_evolves_refl.
Qed.

Lemma quiet_wait_callback (k : nat) (ctor_ok : bool) (s s' : Skylink) :
  wait_callback k ctor_ok s = Some s' → quiet s s'.
Proof.
  unfold wait_callback, _createPeerConnection.
  destruct (restarts s !! k) as [c|] eqn:Hk; [|done].
  cbn [mbind option_bind]. unfold ready.
  destruct (r_phase c) eqn:Hph; try done.
  destruct (r_iceConnectionStateClosed c) eqn:Hice; [|done].
  destruct (r_peerConnectionStateClosed c) eqn:Hsig; [|done].
  cbn [andb]. destruct ctor_ok; cbv beta iota zeta; intros [= <-].
  - eapply quiet_then.
    + eapply (quiet_advance _ k c); [reflexivity|exact Hk| |done]. auto.
    + quiet_auto.
  - eapply quiet_then.
    + eapply (quiet_advance _ k c); [reflexivity|exact Hk| |done]. auto.
    + quiet_auto.
Qed.

Lemma quiet_timeout_callback (k : nat) (s : Skylink) (o : outcome) :
  timeout_callback k s = Some o → quiet s (after o).
Proof.
  unfold timeout_callback.
  destruct (restarts s !! k) as [c|] eqn:Hk; [|done].
  cbn [mbind option_bind].
  destruct (r_phase c) eqn:Hph; try done.
  case_bool_decide; [|done]. cbv beta iota zeta.
  assert (Hadv : quiet s (set_restarts s
                            (alter (with_phase Finished) k (restarts s)))).
  { eapply (quiet_advance _ k c); [reflexivity|done| |done]. by rewrite Hph. }
  case_match; intros [= <-]; cbn [after]; [|done].
  eapply quiet_trans; [exact Hadv|]. quiet_auto.
Qed.

Lemma evolves_refreshConnection (peerId : option string) (s : Skylink) :
  evolves s (refreshConnection peerId s).2.
Proof.
  unfold refreshConnection, _throttle.
  assert (Hset : ∀ x v, evolves x (set_throttleStamp x v)).
  { intros x v. split; sk; try done; eauto.
    - intros k c Hk. exists c. split; [done|]. apply closure_evolves_refl.
    - intros k c. by apply none_suspended. }
  repeat case_match; cbn [snd];
    try apply evolves_refl; try apply quiet_log;
    (eapply evolves_trans; [apply quiet_toRefresh|apply Hset]).
Qed.

Lemma quiet_turn (a : action) (s : Skylink) :
  (∀ peerId, a ≠ CallRefreshConnection peerId) → quiet s (turn a s).
Proof.
  intros Ha. unfold turn, step. destruct a; try (by exfalso; eapply Ha).
  - case_bool_decide; [|apply quiet_refl]. by apply quiet_tick.
  - destruct (oniceconnectionstatechange _ _) eqn:H; [|apply quiet_refl].
    cbn [fmap option_fmap option_map after].
    eapply quiet_trans; [|by eapply quiet_oniceconnectionstatechange].
    by apply quiet_update_pc.
  - destruct (onsignalingstatechange _ _) eqn:H; [|apply quiet_refl].
    cbn [fmap option_fmap option_map after].
    eapply quiet_trans; [|by eapply quiet_onsignalingstatechange].
    by apply quiet_update_pc.
  - destruct (onicegatheringstatechange _ _) eqn:H; [|apply quiet_refl].
    cbn [fmap option_fmap option_map after].
    eapply quiet_trans; [|by eapply quiet_onicegatheringstatechange].
    by apply quiet_update_pc.
  - destruct (ondatachannel _ _) eqn:H; [|apply quiet_refl].
    cbn [fmap option_fmap option_map after].
    by eapply quiet_ondatachannel.
  - destruct (onaddstream _ _) eqn:H; [|apply quiet_refl].
    cbn [fmap option_fmap option_map after].
    by eapply quiet_onaddstream.
  - destruct (onicecandidate _ _) eqn:H; [|apply quiet_refl].
    cbn [fmap option_fmap option_map after].
    by eapply quiet_onicecandidate.
  - destruct (wait_callback _ _ _) eqn:H; [|apply quiet_refl].
    cbn [fmap option_fmap option_map after].
    by eapply quiet_wait_callback.
  - destruct (timeout_callback _ _) eqn:H; [|apply quiet_refl].
    by eapply quiet_timeout_callback.
  - apply quiet_addPeer.
  - cbn [after]. rewrite after_ends. apply quiet_restartPeerConnection.
  - apply quiet_removePeer.
  - cbn [after]. apply quiet_set_lastRestart.
Qed.

Lemma evolves_turn (a : action) (s : Skylink) : evolves s (turn a s).
Proof.
  destruct a; try (by apply quiet_turn).
  unfold turn, step. cbn [after]. rewrite after_ends.
  apply evolves_refreshConnection.
Qed.

Lemma evolves_run (acts : list action) (s : Skylink) : evolves s (run acts s).
Proof.
  induction acts as [|a acts IH] using rev_ind; [apply evolves_refl|].
  rewrite run_snoc. eapply evolves_trans; [exact IH|apply evolves_turn].
Qed.

(** ** Repeated ICE failures *)

(** A restart touches neither the failure counters nor the trickle flags. *)
Lemma restartPeerConnection_counters (p : string) (isSelf : bool)
    (isConn : option bool) (callback : bool) (s : Skylink) :
  _ICEConnectionFailures (_restartPeerConnection p isSelf isConn callback s)
  = _ICEConnectionFailures s
  ∧ _peerIceTrickleDisabled (_restartPeerConnection p isSelf isConn callback s)
    = _peerIceTrickleDisabled s.
Proof.
  unfold _restartPeerConnection, with_pc. cbv zeta.
  repeat (case_match; sk); done.
Qed.

Lemma turn_IceChange_FAILED (s : Skylink) (r : nat) (pc : RTCPeerConnection) :
  transports s !! r = Some pc →
  turn (IceChange r ICE_CONNECTION_STATE.FAILED) s
  = _restartPeerConnection (targetMid pc) true (Some true) false
      (failed_bookkeeping (targetMid pc)
         (update_pc r (with_iceConnectionState ICE_CONNECTION_STATE.FAILED) s)).
Proof.
  intros Hpc. unfold turn, step, oniceconnectionstatechange.
  assert (Hpc' : transports
                   (update_pc r
                      (with_iceConnectionState ICE_CONNECTION_STATE.FAILED) s)
                 !! r
                 = Some (with_iceConnectionState
                           ICE_CONNECTION_STATE.FAILED pc)).
  { sk. by rewrite list_lookup_alter_eq, Hpc. }
  rewrite Hpc'. cbn [mbind option_bind].
  cbn [iceConnectionState with_iceConnectionState].
  by rewrite (iceConnectionState_callback_FAILED _ r _ Hpc').
Qed.






(** ** Stabilisation *)

Lemma iceConnectionState_callback_is_Some (s : Skylink) (r : nat)
    (pc : RTCPeerConnection) (state : IceState) :
  transports s !! r = Some pc →
  is_Some (iceConnectionState_callback r state s).
Proof.
  intros Hpc. unfold iceConnectionState_callback. rewrite Hpc.
  cbn [mbind option_bind]. cbv zeta.
  destruct (bool_decide (state = ICE_CONNECTION_STATE.FAILED)); eauto.
Qed.

Lemma turn_IceChange (s : Skylink) (r : nat) (pc : RTCPeerConnection)
    (state : IceState) :
  transports s !! r = Some pc →
  let s0 := update_pc r (with_iceConnectionState state) s in
  transports s0 !! r = Some (with_iceConnectionState state pc)
  ∧ iceConnectionState_callback r state s0
    = Some (turn (IceChange r state) s).
Proof.
  intros Hpc s0.
  assert (Hpc' : transports s0 !! r = Some (with_iceConnectionState state pc)).
  { subst s0. sk. by rewrite list_lookup_alter_eq, Hpc. }
  split; [done|].
  destruct (iceConnectionState_callback_is_Some s0 r _ state Hpc')
    as [s' Hs'].
  rewrite Hs'. f_equal.
  unfold turn, step, oniceconnectionstatechange. fold s0.
  rewrite Hpc'. cbn [mbind option_bind].
  cbn [iceConnectionState with_iceConnectionState].
  by rewrite Hs'.
Qed.

Lemma turn_SignalingChange (s : Skylink) (r : nat) (pc : RTCPeerConnection)
    (state : string) :
  transports s !! r = Some pc →
  let s0 := update_pc r (with_signalingState state) s in
  transports s0 !! r = Some (with_signalingState state pc)
  ∧ onsignalingstatechange r s0 = Some (turn (SignalingChange r state) s).
Proof.
  intros Hpc s0.
  assert (Hpc' : transports s0 !! r = Some (with_signalingState state pc)).
  { subst s0. sk. by rewrite list_lookup_alter_eq, Hpc. }
  split; [done|].
  unfold turn, step. fold s0.
  unfold onsignalingstatechange. rewrite Hpc'. reflexivity.
Qed.

(** The health flag and the watchdog after the callback called with a state
    other than FAILED. *)
Lemma iceConnectionState_callback_health (s s' : Skylink) (r : nat)
    (pc : RTCPeerConnection) (state : IceState) :
  transports s !! r = Some pc →
  state ≠ ICE_CONNECTION_STATE.FAILED →
  iceConnectionState_callback r state s = Some s' →
  let stable :=
    bool_decide (state = ICE_CONNECTION_STATE.COMPLETED)
    && bool_decide (signalingState pc = PEER_CONNECTION_STATE.STABLE) in
  _peerConnectionHealth s'
  = (if stable then <[targetMid pc := true]> (_peerConnectionHealth s)
     else _peerConnectionHealth s)
  ∧ healthTimers s'
    = (if stable then healthTimers s ∖ {[targetMid pc]} else healthTimers s).
Proof.
  intros Hpc Hst. unfold iceConnectionState_callback.
  rewrite Hpc. cbn [mbind option_bind]. cbv zeta.
  rewrite (bool_decide_eq_false_2 (state = ICE_CONNECTION_STATE.FAILED))
    by done.
  intros [= <-].
  destruct (bool_decide (state = ICE_CONNECTION_STATE.COMPLETED)
            && bool_decide (signalingState pc = PEER_CONNECTION_STATE.STABLE));
    crunch; done.
Qed.

Lemma onsignalingstatechange_health (s s' : Skylink) (r : nat)
    (pc : RTCPeerConnection) :
  transports s !! r = Some pc →
  onsignalingstatechange r s = Some s' →
  let stable :=
    (bool_decide (iceConnectionState pc = ICE_CONNECTION_STATE.COMPLETED)
     || bool_decide (iceConnectionState pc = ICE_CONNECTION_STATE.CONNECTED))
    && bool_decide (signalingState pc = PEER_CONNECTION_STATE.STABLE) in
  _peerConnectionHealth s'
  = (if stable then <[targetMid pc := true]> (_peerConnectionHealth s)
     else _peerConnectionHealth s)
  ∧ healthTimers s'
    = (if stable then healthTimers s ∖ {[targetMid pc]} else healthTimers s).
Proof.
  intros Hpc. unfold onsignalingstatechange.
  rewrite Hpc. cbn [mbind option_bind]. cbv zeta.
  intros [= <-].
  destruct ((bool_decide (iceConnectionState pc = ICE_CONNECTION_STATE.COMPLETED)
             || bool_decide
                  (iceConnectionState pc = ICE_CONNECTION_STATE.CONNECTED))
            && bool_decide (signalingState pc = PEER_CONNECTION_STATE.STABLE));
    crunch; done.
Qed.

(** C4, as the code has it.  For a transport [r] of peer [p]: the health
    flag of [p] is set and its watchdog stopped when ICE reports COMPLETED
    while the signaling state is stable, and when the signaling state becomes
    stable while ICE is COMPLETED or CONNECTED; doing it twice changes
    nothing more.  ICE reporting CONNECTED touches neither the flag nor the
    watchdog, whatever the signaling state. *)
Theorem stabilisation_by_either_callback (s : Skylink) (r : nat)
    (pc : RTCPeerConnection) :
  transports s !! r = Some pc →
  let p := targetMid pc in
  (signalingState pc = PEER_CONNECTION_STATE.STABLE →
   let s' := turn (IceChange r ICE_CONNECTION_STATE.COMPLETED) s in
   _peerConnectionHealth s' !! p = Some true ∧ p ∉ healthTimers s')
  ∧ (iceConnectionState pc = ICE_CONNECTION_STATE.COMPLETED
     ∨ iceConnectionState pc = ICE_CONNECTION_STATE.CONNECTED →
     let s' := turn (SignalingChange r PEER_CONNECTION_STATE.STABLE) s in
     _peerConnectionHealth s' !! p = Some true ∧ p ∉ healthTimers s')
  ∧ (∀ x, _peerConnectionHealth (stabilise p (stabilise p x))
          = _peerConnectionHealth (stabilise p x)
          ∧ healthTimers (stabilise p (stabilise p x))
            = healthTimers (stabilise p x))
  ∧ (let s' := turn (IceChange r ICE_CONNECTION_STATE.CONNECTED) s in
     _peerConnectionHealth s' = _peerConnectionHealth s
     ∧ healthTimers s' = healthTimers s).
Proof.
  intros Hpc p. split; [|split; [|split]].
  - intros Hstable. cbv zeta.
    destruct (turn_IceChange s r pc ICE_CONNECTION_STATE.COMPLETED Hpc)
      as [Hpc' Hturn].
    destruct (iceConnectionState_callback_health _ _ r _
                ICE_CONNECTION_STATE.COMPLETED Hpc'
                ltac:(discriminate) Hturn) as [-> ->].
    cbn [signalingState with_iceConnectionState targetMid].
    rewrite Hstable, !bool_decide_eq_true_2 by done. cbn [andb].
    fold p. rewrite lookup_insert_eq. split; [done|set_solver].
  - intros Hice. cbv zeta.
    destruct (turn_SignalingChange s r pc PEER_CONNECTION_STATE.STABLE Hpc)
      as [Hpc' Hturn].
    destruct (onsignalingstatechange_health _ _ r _ Hpc' Hturn) as [-> ->].
    cbn [signalingState iceConnectionState with_signalingState targetMid].
    rewrite (bool_decide_eq_true_2
               (PEER_CONNECTION_STATE.STABLE = PEER_CONNECTION_STATE.STABLE))
      by done.
    assert (bool_decide
              (iceConnectionState pc = ICE_CONNECTION_STATE.COMPLETED)
            || bool_decide
                 (iceConnectionState pc = ICE_CONNECTION_STATE.CONNECTED)
            = true) as ->.
    { destruct Hice as [-> | ->]; done. }
    cbn [andb]. fold p. rewrite lookup_insert_eq. split; [done|set_solver].
  - intros x. sk. split; [by rewrite insert_insert_eq|set_solver].
  - cbv zeta.
    destruct (turn_IceChange s r pc ICE_CONNECTION_STATE.CONNECTED Hpc)
      as [Hpc' Hturn].
    destruct (iceConnectionState_callback_health _ _ r _
                ICE_CONNECTION_STATE.CONNECTED Hpc'
                ltac:(discriminate) Hturn) as [-> ->].
    rewrite (bool_decide_eq_false_2
               (ICE_CONNECTION_STATE.CONNECTED
                = ICE_CONNECTION_STATE.COMPLETED)) by done.
    done.
Qed.

Lemma stabilisation_by_either_callback_witness :
  transports session_with_p !! 0%nat
  = Some (mkPC "p" "stable" ICE_CONNECTION_STATE.NEW "new" "" "" false
            (Some true) None)
  ∧ _peerConnectionHealth
      (turn (IceChange 0 ICE_CONNECTION_STATE.COMPLETED) session_with_p)
    !! "p" = Some true.
Proof.
  split; [ vm_compute; reflexivity | ].
  destruct (stabilisation_by_either_callback session_with_p 0
              (mkPC "p" "stable" ICE_CONNECTION_STATE.NEW "new" "" "" false
                 (Some true) None)) as (H & _);
    [ vm_compute; reflexivity | ].
  apply H. reflexivity.
Defined.

(** C4, as stated, fails when CONNECTED arrives second: the signaling state
    is stable and ICE has reached CONNECTED, yet the health flag is unset
    and the watchdog still runs. *)
Lemma connected_after_stable_is_not_healthy :
  let s' := run [SignalingChange 0 "have-local-offer";
                 SignalingChange 0 "stable";
                 IceChange 0 ICE_CONNECTION_STATE.CHECKING;
                 IceChange 0 ICE_CONNECTION_STATE.CONNECTED] session_with_p in
  (signalingState <$> (transports s' !! 0%nat)) = Some "stable"
  ∧ (iceConnectionState <$> (transports s' !! 0%nat))
    = Some ICE_CONNECTION_STATE.CONNECTED
  ∧ _peerConnectionHealth s' !! "p" = None
  ∧ ¬ (_peerConnectionHealth s' !! "p" = Some true)
  ∧ "p" ∈ healthTimers s'.
Proof.
  vm_compute. repeat split; discriminate.
Qed.

(** ** The throttle of [refreshConnection] *)

Lemma turn_CallRefreshConnection (peerId : option string) (s : Skylink) :
  turn (CallRefreshConnection peerId) s = (refreshConnection peerId s).2.
Proof. unfold turn, step. apply after_ends. Qed.

Lemma turn_CallRestartPeerConnection (p : string) (isSelf : bool)
    (isConn : option bool) (callback : bool) (s : Skylink) :
  turn (CallRestartPeerConnection p isSelf isConn callback) s
  = _restartPeerConnection p isSelf isConn callback s.
Proof. unfold turn, step. apply after_ends. Qed.

Lemma refreshConnection_fired (peerId : option string) (s : Skylink) :
  (refreshConnection peerId s).1 = true →
  throttleStamp (refreshConnection peerId s).2 = Some (clock s).
Proof.
  unfold refreshConnection, _throttle. repeat case_match; cbn [fst snd]; done.
Qed.

Lemma refreshConnection_dropped (peerId : option string) (s : Skylink)
    (t : Z) :
  throttleStamp s = Some t → clock s - t < 5000 →
  (refreshConnection peerId s).1 = false
  ∧ throttleStamp (refreshConnection peerId s).2 = Some t.
Proof.
  intros Ht Hlt. unfold refreshConnection, _throttle. rewrite Ht.
  rewrite bool_decide_eq_true_2 by done.
  destruct (_hasMCU s); done.
Qed.

(** Inside the window that follows an execution, nothing is executed. *)
Lemma refreshes_inside_window (acts : list action) (s : Skylink) (t : Z) :
  throttleStamp s = Some t →
  clock (run acts s) - t < 5000 →
  refreshes acts s = 0%nat.
Proof.
  revert s. induction acts as [|a acts IH]; intros s Ht Hlt; [done|].
  rewrite run_cons in Hlt. cbn [refreshes].
  pose proof (ev_clock _ _ (evolves_run acts (turn a s))) as Hrest.
  pose proof (ev_clock _ _ (evolves_turn a s)) as Hturn.
  assert (Hquiet : (∀ peerId, a ≠ CallRefreshConnection peerId) →
                   refreshes acts (turn a s) = 0%nat).
  { intros Hq. apply IH; [|done]. by rewrite (proj2 (quiet_turn a s Hq)). }
  destruct a; try (by rewrite Hquiet).
  rewrite turn_CallRefreshConnection in *.
  destruct (refreshConnection_dropped peerId s t Ht) as [-> Hstamp]; [lia|].
  by rewrite (IH _ Hstamp Hlt).
Qed.

(** C9.  Modelled on the throttle the spec describes: in any run whose clock
    advances by less than 5000 ms, whatever else happens in between, at most
    one call of [refreshConnection] executes the refresh operation; a call
    that the throttle drops leaves the object as it was, so nothing is queued
    for later. *)
Theorem refreshConnection_throttled (acts : list action) (s : Skylink) :
  clock (run acts s) - clock s < 5000 →
  (refreshes acts s ≤ 1)%nat
  ∧ (∀ peerId s0, _hasMCU s0 = false →
       (refreshConnection peerId s0).1 = false →
       (refreshConnection peerId s0).2 = s0).
Proof.
  intros Hwin. split.
  - revert s Hwin. induction acts as [|a acts IH]; intros s Hwin;
      [cbn [refreshes]; lia|].
    rewrite run_cons in Hwin. cbn [refreshes].
    pose proof (ev_clock _ _ (evolves_turn a s)) as Hturn.
    assert (Hrest : (refreshes acts (turn a s) ≤ 1)%nat) by (apply IH; lia).
    destruct a; try (cbn [Nat.add]; exact Hrest).
    destruct (refreshConnection peerId s).1 eqn:Hfired; [|exact Hrest].
    rewrite (refreshes_inside_window acts _ (clock s)); [lia| |done].
    rewrite turn_CallRefreshConnection. by apply refreshConnection_fired.
  - intros peerId s0 Hmcu. unfold refreshConnection, _throttle. rewrite Hmcu.
    repeat case_match; cbn [fst snd]; done.
Qed.

Lemma refreshConnection_throttled_witness :
  clock (run ten_refreshes (set_clock session_with_p 20000)) - 20000 < 5000
  ∧ (refreshes ten_refreshes (set_clock session_with_p 20000) ≤ 1)%nat.
Proof.
  split; [ vm_compute; reflexivity | ].
  apply (refreshConnection_throttled ten_refreshes
           (set_clock session_with_p 20000)).
  vm_compute; reflexivity.
Defined.

(** ** The restart protocol *)

(** The object right after [_restartPeerConnection] for a peer that has a
    record. *)
Lemma restartPeerConnection_known (s : Skylink) (p : string) (r : nat)
    (pc : RTCPeerConnection) (isSelf : bool) (isConn : option bool)
    (callback : bool) :
  peerRecord s p = Some r →
  transports s !! r = Some pc →
  let s1 := _restartPeerConnection p isSelf isConn callback s in
  let open := bool_decide (signalingState pc ≠ "closed") in
  transports s1
  = (if open
     then alter (λ pc, with_iceConnectionState ICE_CONNECTION_STATE.CLOSED
                         (with_signalingState PEER_CONNECTION_STATE.CLOSED pc))
            r (alter (with_dataChannelClosed (Some true)) r (transports s))
     else alter (with_dataChannelClosed (Some true)) r (transports s))
  ∧ effects s1
    = (effects s
       ++ [ELog log_ (Some p) "Restarting a peer connection"]
       ++ (if open then [EClose r] else [])
       ++ (if hasStream pc then [ETrigger (streamEnded_ev p false)] else []))%list
  ∧ _peerConnections s1 = _peerConnections s
  ∧ healthTimers s1 = healthTimers s ∖ {[p]}
  ∧ _peerConnectionHealth s1 = delete p (_peerConnectionHealth s)
  ∧ clock s1 = clock s.
Proof.
  intros Hrec Hpc. cbv zeta.
  unfold _restartPeerConnection, with_pc. rewrite Hrec. cbv zeta. sk.
  rewrite list_lookup_alter_eq, Hpc. cbn [fmap option_fmap option_map].
  cbn [signalingState with_dataChannelClosed].
  destruct (bool_decide (signalingState pc ≠ "closed")); sk.
  - rewrite !list_lookup_alter_eq, Hpc. cbn [fmap option_fmap option_map].
    cbn [hasStream with_dataChannelClosed with_iceConnectionState
           with_signalingState].
    destruct (hasStream pc); sk; rewrite <- ?app_assoc, ?app_nil_r; done.
  - rewrite !list_lookup_alter_eq, Hpc. cbn [fmap option_fmap option_map].
    cbn [hasStream with_dataChannelClosed].
    destruct (hasStream pc); sk; rewrite <- ?app_assoc, ?app_nil_r; done.
Qed.

(** When and how the callback of [_wait] runs. *)
Lemma wait_callback_spec (k : nat) (ctor_ok : bool) (s s' : Skylink) :
  wait_callback k ctor_ok s = Some s' →
  ∃ c, restarts s !! k = Some c
       ∧ r_phase c = Waiting
       ∧ r_iceConnectionStateClosed c = true
       ∧ r_peerConnectionStateClosed c = true
       ∧ _peerConnections s'
         = <[r_peerId c :=
               if ctor_ok then Ref (length (transports s)) else Null]>
             (delete (r_peerId c) (_peerConnections s))
       ∧ transports s'
         = (if ctor_ok
            then (transports s ++ [fresh_transport (r_peerId c)])%list
            else transports s)
       ∧ restarts s'
         = alter (with_phase (Delaying (clock s))) k (restarts s)
       ∧ clock s' = clock s
       ∧ ∃ new, effects s' = (effects s ++ new)%list
                ∧ (EConstruct (length (transports s)) (r_peerId c) ∈ new
                   ↔ ctor_ok = true).
Proof.
  unfold wait_callback, _createPeerConnection.
  destruct (restarts s !! k) as [c|] eqn:Hk; [|done].
  cbn [mbind option_bind]. unfold ready.
  destruct (r_phase c) eqn:Hph; try done.
  destruct (r_iceConnectionStateClosed c) eqn:Hice; [|done].
  destruct (r_peerConnectionStateClosed c) eqn:Hsig; [|done].
  cbn [andb]. destruct ctor_ok; cbv beta iota zeta; intros [= <-];
    exists c; sk; repeat (split; [done|]);
    rewrite <- ?app_assoc; eexists; (split; [reflexivity|]).
  - split; [done|]. intros _. set_solver.
  - split; [|done]. rewrite !elem_of_app, !list_elem_of_singleton.
    intros [H|[H|H]]; discriminate H.
Qed.

(** When and how the function given to [setTimeout] runs. *)
Lemma timeout_callback_spec (k : nat) (s : Skylink) (c : restartClosure)
    (since : Z) :
  restarts s !! k = Some c →
  r_phase c = Delaying since →
  (clock s < since + 1000 → timeout_callback k s = None)
  ∧ (since + 1000 ≤ clock s →
     ∀ r, peerRecord s (r_peerId c) = Some r →
       ∃ s', timeout_callback k s = Some (Return s')
             ∧ transports s'
               = alter (with_receiveOnly (Some (r_receiveOnly c))) r
                   (transports s)
             ∧ _peerConnections s' = _peerConnections s
             ∧ (r_phase <$> (restarts s' !! k)) = Some Finished
             ∧ ∃ new, effects s' = (effects s ++ new)%list
                 ∧ (r_receiveOnly c = false →
                    EAddLocalMediaStreams (r_peerId c) ∈ new)
                 ∧ (r_isSelfInitiatedRestart c = true →
                    ESendChannelMessage
                      (mkMessage _SIG_MESSAGE_TYPE.RESTART (r_peerId c)
                         (truthy (r_isConnectionRestart c))
                         (Date_now_or_fallback (clock s))) ∈ new)
                 ∧ ETrigger (peerRestart_ev (r_peerId c) true) ∈ new).
Proof.
  intros Hk Hph. unfold timeout_callback. rewrite Hk.
  cbn [mbind option_bind]. rewrite Hph. split.
  - intros Hlt. by rewrite bool_decide_eq_false_2 by lia.
  - intros Hge r Hrec. rewrite bool_decide_eq_true_2 by done. cbv zeta.
    change (peerRecord (set_restarts s _) (r_peerId c))
      with (peerRecord s (r_peerId c)).
    rewrite Hrec. eexists. split; [reflexivity|].
    destruct (r_receiveOnly c), (r_isSelfInitiatedRestart c), (r_callback c);
      cbn [negb]; sk;
      rewrite ?list_lookup_fmap, ?list_lookup_alter_eq, Hk;
      cbn [fmap option_fmap option_map with_phase r_phase];
      repeat (split; [done|]);
      rewrite <- ?app_assoc; eexists; (split; [reflexivity|]);
      (split; [intros; try done; set_solver|]);
      (split; [intros; try done; set_solver|]); set_solver.
Qed.

(** Which steps construct a transport: [_addPeer] off the restart path, for
    a peer without a record, and the [_wait] callback of a restart. *)
Lemma no_construction (p : string) (s s' : Skylink) :
  length (transports s') = length (transports s) → ¬ constructs_for p s s'.
Proof.
  intros Hlen (r & Hnone & Hsome). apply lookup_ge_None in Hnone.
  rewrite (lookup_ge_None_2 (transports s') r) in Hsome by lia. done.
Qed.

Lemma construction_appended (p q : string) (s s' : Skylink)
    (pc : RTCPeerConnection) :
  transports s' = (transports s ++ [pc])%list → targetMid pc = q →
  constructs_for p s s' → q = p.
Proof.
  intros Htr Hq (r & Hnone & Hsome). apply lookup_ge_None in Hnone.
  destruct (decide (r = length (transports s))) as [->|Hne].
  - rewrite Htr, list_lookup_middle in Hsome by done.
    cbn [fmap option_fmap option_map] in Hsome. congruence.
  - rewrite (lookup_ge_None_2 (transports s') r) in Hsome; [done|].
    rewrite Htr, length_app. cbn [length]. lia.
Qed.

Lemma heap_size_removePeer (p : string) (s : Skylink) :
  keeps (λ x, length (transports x)) s (after (_removePeer p s)).
Proof. keeps_step. keeps_auto. Qed.

Lemma heap_size_addPeer_restart (p peerBrowser : string)
    (toOffer receiveOnly ctor_ok : bool) (s : Skylink) :
  keeps (λ x, length (transports x)) s
    (after (_addPeer p peerBrowser toOffer true receiveOnly ctor_ok s)).
Proof.
  keeps_step. cbv beta iota delta [negb]. rewrite andb_false_r. keeps_auto.
Qed.

Lemma turn_constructs (a : action) (s : Skylink) (p : string) :
  constructs_for p s (turn a s) →
  (∃ peerBrowser toOffer receiveOnly,
     a = CallAddPeer p peerBrowser toOffer false receiveOnly true
     ∧ peerRecord s p = None)
  ∨ (∃ j c, a = WaitFire j true ∧ restarts s !! j = Some c ∧ r_peerId c = p
            ∧ wait_callback j true s = Some (turn a s)).
Proof.
  intros Hcons. destruct (registers a) eqn:Hreg.
  2: { exfalso. revert Hcons. apply no_construction.
       pose proof (table_turn a s Hreg) as H. unfold keeps, table in H.
       by injection H. }
  destruct a as [| | | | | | |k ctor_ok| |q peerBrowser toOffer restartConn
                   receiveOnly ctor_ok| | | |];
    try discriminate Hreg; unfold turn, step in *.
  - destruct (wait_callback k ctor_ok s) as [s'|] eqn:Hw;
      cbn [fmap option_fmap option_map after] in *;
      [|by apply no_construction in Hcons].
    destruct (wait_callback_spec k ctor_ok s s' Hw)
      as (c & Hc & _ & _ & _ & _ & Htr & _).
    destruct ctor_ok;
      [|apply no_construction in Hcons; [done|by rewrite Htr]].
    right. exists k, c. split; [done|]. split; [done|]. split; [|done].
    by apply (construction_appended p _ s s' _ Htr).
  - destruct restartConn.
    { exfalso. revert Hcons. apply no_construction.
      apply heap_size_addPeer_restart. }
    destruct (peerRecord s q) as [r0|] eqn:Hrec.
    { exfalso. revert Hcons. apply no_construction.
      unfold _addPeer. rewrite Hrec.
      by rewrite bool_decide_eq_true_2 by eauto. }
    destruct (foreign s q) eqn:Hfor.
    { exfalso. revert Hcons. apply no_construction.
      unfold _addPeer. by rewrite Hrec, Hfor. }
    destruct ctor_ok.
    + destruct (addPeer_new s q peerBrowser toOffer receiveOnly
                  Hrec Hfor) as (s' & Ho & _ & Htr & _).
      rewrite Ho in Hcons. cbn [after] in Hcons.
      assert (q = p) as ->
        by (by apply (construction_appended p _ s s' _ Htr)).
      left. by exists peerBrowser, toOffer, receiveOnly.
    + exfalso. revert Hcons. apply no_construction.
      by rewrite (addPeer_allocation_failure s q peerBrowser toOffer
                    receiveOnly Hrec Hfor).
  - exfalso. revert Hcons. apply no_construction.
    apply heap_size_removePeer.
Qed.

(** C1, as the code has it.  [_restartPeerConnection(p, true, true)] for a
    peer with a record: at once, [dataChannelClosed] is set on the old
    transport, the watchdog of [p] is stopped, [close()] is called on the old
    transport unless its signaling state already reads closed, nothing is
    constructed and the peer table keeps the old record.  From then on,
    whatever happens ([acts]): the suspended closure keeps its arguments and
    its snapshot of [receiveOnly]; each of its flags is raised only by the
    matching CLOSED event of [p] published after the call; its [_wait]
    callback runs only with both flags raised, and is what deletes the old
    record and, in the same step, constructs the new transport, registers it
    and arms the 1000 ms timer; the timer function cannot run before 1000 ms
    have passed, and when it runs it restores [receiveOnly] on the record of
    [p] and sends the RESTART message with [isConnectionRestart] true.
    When no earlier restart of [p] is still waiting at the call, no [_wait]
    callback of any restart of [p] runs before both CLOSED events of [p]
    have been published after the call.  The barrier is that of the
    restarts, not of the peer: after the call, a step constructs a transport
    for [p] only if it is the [_wait] callback of a restart of [p], or
    [_addPeer] for [p] off the restart path while [p] has no record, which
    waits for no event. *)
Theorem restart_protocol (s : Skylink) (p : string) (r : nat)
    (pc : RTCPeerConnection) (callback : bool) :
  peerRecord s p = Some r →
  transports s !! r = Some pc →
  let s1 := _restartPeerConnection p true (Some true) callback s in
  let k := length (restarts s) in
  (dataChannelClosed <$> (transports s1 !! r)) = Some (Some true)
  ∧ (p ∉ healthTimers s1)
  ∧ (∃ new, effects s1 = (effects s ++ new)%list
            ∧ (signalingState pc ≠ "closed" → EClose r ∈ new)
            ∧ (∀ r' q, EConstruct r' q ∉ new))
  ∧ peerRecord s1 p = Some r
  ∧ length (transports s1) = length (transports s)
  ∧ ∀ acts,
      let s2 := run acts s1 in
      let ice := published_since (length (effects s1)) (ice_closed p) s2 in
      let signaling :=
        published_since (length (effects s1)) (signaling_closed p) s2 in
      ∃ c2,
        restarts s2 !! k = Some c2
        ∧ r_peerId c2 = p
        ∧ r_isSelfInitiatedRestart c2 = true
        ∧ r_isConnectionRestart c2 = Some true
        ∧ r_receiveOnly c2 = truthy (receiveOnly pc)
        ∧ (r_iceConnectionStateClosed c2 = true → ice)
        ∧ (r_peerConnectionStateClosed c2 = true → signaling)
        ∧ (r_phase c2 ≠ Waiting → ice ∧ signaling)
        ∧ (∀ ctor_ok s3,
             wait_callback k ctor_ok s2 = Some s3 →
             r_phase c2 = Waiting ∧ ice ∧ signaling
             ∧ _peerConnections s3 !! p
               = Some (if ctor_ok then Ref (length (transports s2)) else Null)
             ∧ (ctor_ok = true →
                (r < length (transports s2))%nat
                ∧ transports s3 !! length (transports s2)
                  = Some (fresh_transport p)
                ∧ EConstruct (length (transports s2)) p ∈ effects s3)
             ∧ (r_phase <$> (restarts s3 !! k)) = Some (Delaying (clock s2))
             ∧ clock s3 = clock s2)
        ∧ (∀ since,
             r_phase c2 = Delaying since →
             (clock s2 < since + 1000 → timeout_callback k s2 = None)
             ∧ (since + 1000 ≤ clock s2 →
                ∀ r' pc', peerRecord s2 p = Some r' →
                  transports s2 !! r' = Some pc' →
                  ∃ s3, timeout_callback k s2 = Some (Return s3)
                        ∧ (receiveOnly <$> (transports s3 !! r'))
                          = Some (Some (truthy (receiveOnly pc)))
                        ∧ ESendChannelMessage
                            (mkMessage _SIG_MESSAGE_TYPE.RESTART p true
                               (Date_now_or_fallback (clock s2)))
                          ∈ effects s3))
        ∧ ((∀ j c, restarts s !! j = Some c → r_peerId c = p →
              r_phase c ≠ Waiting) →
           ∀ j cj ctor_ok s3,
             restarts s2 !! j = Some cj → r_peerId cj = p →
             wait_callback j ctor_ok s2 = Some s3 →
             ice ∧ signaling)
        ∧ (∀ a, constructs_for p s2 (turn a s2) →
             (∃ peerBrowser toOffer receiveOnly,
                a = CallAddPeer p peerBrowser toOffer false receiveOnly true
                ∧ peerRecord s2 p = None)
             ∨ (∃ j cj, a = WaitFire j true
                  ∧ restarts s2 !! j = Some cj
                  ∧ r_peerId cj = p
                  ∧ r_phase cj = Waiting
                  ∧ ((∀ j c, restarts s !! j = Some c → r_peerId c = p →
                        r_phase c ≠ Waiting) →
                     ice ∧ signaling))).
Proof.
  intros Hrec Hpc s1 k.
  destruct (restartPeerConnection_known s p r pc true (Some true) callback
              Hrec Hpc) as (Ht & He & Hreg & Hh & _ & _).
  fold s1 in Ht, He, Hreg, Hh.
  pose proof (restartPeerConnection_restarts s p r true (Some true) callback
                Hrec) as Hrs.
  fold s1 in Hrs.
  split.
  { rewrite Ht. destruct (bool_decide (signalingState pc ≠ "closed"));
      rewrite !list_lookup_alter_eq, Hpc; done. }
  split; [rewrite Hh; set_solver|].
  split.
  { eexists. split; [exact He|]. split.
    - intros Hopen. rewrite bool_decide_eq_true_2 by done. set_solver.
    - intros r' q. destruct (bool_decide _), (hasStream pc); set_solver. }
  split; [unfold peerRecord in *; by rewrite Hreg|].
  split.
  { rewrite Ht. destruct (bool_decide _); by rewrite !length_alter. }
  intros acts s2 ice signaling.
  assert (Hk : restarts s1 !! k
               = Some (suspended p true (Some true) callback r s)).
  { rewrite Hrs. subst k. by rewrite lookup_app_r, Nat.sub_diag. }
  destruct (ev_restarts _ _ (evolves_run acts s1) k _ Hk)
    as (c2 & Hc2 & [Hargs Hice Hsig _ _ Hbar _]).
  fold s2 in Hc2, Hice, Hsig.
  destruct Hargs as (Hp & Hself & Hconn & _ & Hro).
  cbn [suspended r_peerId r_isSelfInitiatedRestart r_isConnectionRestart
       r_receiveOnly r_iceConnectionStateClosed r_peerConnectionStateClosed
       r_phase] in *.
  rewrite Hpc in Hro. cbn [mbind option_bind] in Hro.
  assert (Hice' : r_iceConnectionStateClosed c2 = true → ice).
  { intros H. by destruct (Hice H). }
  assert (Hsig' : r_peerConnectionStateClosed c2 = true → signaling).
  { intros H. by destruct (Hsig H). }
  assert (Hbarrier :
            (∀ j c, restarts s !! j = Some c → r_peerId c = p →
               r_phase c ≠ Waiting) →
            ∀ j cj ctor_ok s3,
              restarts s2 !! j = Some cj → r_peerId cj = p →
              wait_callback j ctor_ok s2 = Some s3 →
              ice ∧ signaling).
  { intros Hidle j cj ctor_ok s3 Hcj Hpj Hwait.
    destruct (wait_callback_spec j ctor_ok s2 s3 Hwait)
      as (c & Hc & Hph & Hfi & Hfs & _).
    rewrite Hcj in Hc. injection Hc as <-.
    destruct (decide (j < length (restarts s1))%nat) as [Hlt|Hge].
    + destruct (decide (j = k)) as [->|Hne].
      { rewrite Hc2 in Hcj. injection Hcj as <-. auto. }
      assert (Hj : (j < length (restarts s))%nat).
      { rewrite Hrs, length_app in Hlt. cbn [length] in Hlt.
        subst k. lia. }
      apply lookup_lt_is_Some in Hj as [c0 Hc0].
      destruct (ev_restarts _ _
                  (evolves_trans _ _ _
                     (proj1 (quiet_restartPeerConnection p true (Some true)
                               callback s))
                     (evolves_run acts s1)) j c0 Hc0)
        as (cj' & Hcj' & [(Hp0 & _) _ _ _ _ _ Hleft]).
      fold s1 s2 in Hcj'. rewrite Hcj in Hcj'. injection Hcj' as <-.
      exfalso. apply Hleft; [|done]. apply (Hidle j); [done|congruence].
    + assert (Hle : (length (restarts s1) ≤ j)%nat) by lia.
      destruct (ev_suspended _ _ (evolves_run acts s1) j cj Hcj Hle)
        as [Hi Hs].
      rewrite Hpj in Hi, Hs. split; [by apply Hi|by apply Hs]. }
  exists c2. do 5 (split; [done|]).
  split; [done|]. split; [done|]. split.
  { intros Hleft. destruct Hbar as [? ?]; auto. }
  split; [|split; [|split; [exact Hbarrier|]]].
  - intros ctor_ok s3 Hwait.
    destruct (wait_callback_spec k ctor_ok s2 s3 Hwait)
      as (c & Hc & Hph & Hfi & Hfs & Hreg3 & Ht3 & Hrs3 & Hclock & new
          & He3 & Hnew).
    rewrite Hc2 in Hc. injection Hc as <-. rewrite Hp in *.
    split; [done|]. split; [auto|]. split; [auto|].
    split; [by rewrite Hreg3, lookup_insert_eq|].
    split.
    + intros ->.
      destruct (ev_transports _ _
                  (evolves_trans _ _ _
                     (proj1 (quiet_restartPeerConnection p true (Some true)
                               callback s))
                     (evolves_run acts s1)) r pc Hpc) as (pc2 & Hpc2 & _).
      fold s1 s2 in Hpc2.
      split; [by eapply lookup_lt_Some|].
      split; [by rewrite Ht3, lookup_app_r, Nat.sub_diag|].
      rewrite He3. apply elem_of_app. right. by apply Hnew.
    + split; [|done]. by rewrite Hrs3, list_lookup_alter_eq, Hc2.
  - intros since Hph.
    destruct (timeout_callback_spec k s2 c2 since Hc2 Hph) as [Hearly Hlate].
    split; [exact Hearly|].
    intros Hge r' pc' Hrec' Hpc'. rewrite Hp in Hlate.
    destruct (Hlate Hge r' Hrec')
      as (s3 & Hs3 & Ht3 & _ & _ & new & He3 & _ & Hsend & _).
    exists s3. split; [done|]. split.
    + by rewrite Ht3, list_lookup_alter_eq, Hpc', Hro.
    + rewrite He3. apply elem_of_app. right.
      rewrite Hconn in Hsend. by apply Hsend.
  - intros a Hcons.
    destruct (turn_constructs a s2 p Hcons)
      as [Hadd|(j & cj & -> & Hcj & Hpj & Hw)]; [by left|].
    right. exists j, cj. do 3 (split; [done|]).
    destruct (wait_callback_spec j true s2 _ Hw) as (c & Hc & Hph & _).
    rewrite Hcj in Hc. injection Hc as <-. split; [done|].
    intros Hidle. by apply (Hbarrier Hidle j cj true _ Hcj Hpj Hw).
Qed.

Lemma restart_protocol_witness :
  peerRecord session_with_p "p" = Some 0%nat
  ∧ transports session_with_p !! 0%nat
    = Some (mkPC "p" "stable" ICE_CONNECTION_STATE.NEW "new" "" "" false
              (Some true) None)
  ∧ (dataChannelClosed
       <$> (transports
              (_restartPeerConnection "p" true (Some true) false
                 session_with_p) !! 0%nat)) = Some (Some true).
Proof.
  split; [ vm_compute; reflexivity | ].
  split; [ vm_compute; reflexivity | ].
  destruct (restart_protocol session_with_p "p" 0
              (mkPC "p" "stable" ICE_CONNECTION_STATE.NEW "new" "" "" false
                 (Some true) None) false) as (H & _);
    [ vm_compute; reflexivity | vm_compute; reflexivity | exact H ].
Defined.

(** The whole sequence runs to its end: one second after the barrier the
    new record has the old [receiveOnly] and the RESTART message is out. *)
Example restart_sequence_completes :
  let s' := run (restart_until_barrier ++ [Tick 1000; TimeoutFire 0])
              (set_clock session_with_p 20000) in
  peerRecord s' "p" = Some 1%nat
  ∧ (receiveOnly <$> (transports s' !! 1%nat)) = Some (Some true)
  ∧ last (effects s')
    = Some (ETrigger (peerRestart_ev "p" true))
  ∧ ESendChannelMessage
      (mkMessage _SIG_MESSAGE_TYPE.RESTART "p" true (number 21000))
    ∈ effects s'.
Proof.
  vm_compute. repeat split.
  do 20 apply list_elem_of_further. apply list_elem_of_here.
Qed.

(** C1, as stated, fails three times.  On the 1000 ms delay: at the very
    instant the barrier clears (the clock still reads 20000, the timer was
    armed at 20000 and cannot fire yet) the new transport 1 has already been
    constructed and registered for ["p"] in place of the old transport 0.
    On the barrier, through [_addPeer]: once the restart has been called,
    removing ["p"] and adding it again constructs the transport 1 for ["p"]
    and registers it while the restart still waits and neither CLOSED event
    of ["p"] has been published.  On the barrier, through an earlier
    restart: when a restart of ["p"] that has seen both CLOSED events is
    still suspended at the call, its [_wait] callback constructs the
    transport 1 for ["p"] with no CLOSED event published after the call. *)
Lemma recreation_waits_for_neither_delay_nor_barrier :
  (let s' := run restart_until_barrier (set_clock session_with_p 20000) in
   clock s' = 20000
   ∧ (r_phase <$> (restarts s' !! 0%nat)) = Some (Delaying 20000)
   ∧ timeout_callback 0 s' = None
   ∧ peerRecord s' "p" = Some 1%nat
   ∧ transports s' !! 1%nat = Some (fresh_transport "p")
   ∧ last (effects s')
     = Some (ELog debug (Some "p") "Peer connection constraints:")
   ∧ ¬ (∀ since, (r_phase <$> (restarts s' !! 0%nat)) = Some (Delaying since) →
          clock s' < since + 1000 → peerRecord s' "p" = None))
  ∧ (let s1 := _restartPeerConnection "p" true (Some true) false
                 session_with_p in
     let s2 := turn (CallRemovePeer "p") s1 in
     let s3 := turn (CallAddPeer "p" "chrome" true false false true) s2 in
     constructs_for "p" s2 s3
     ∧ EConstruct 1 "p" ∈ logged_since (effects s2) s3
     ∧ peerRecord s3 "p" = Some 1%nat
     ∧ (r_phase <$> (restarts s3 !! 0%nat)) = Some Waiting
     ∧ ¬ published_since (length (effects s1)) (ice_closed "p") s3
     ∧ ¬ published_since (length (effects s1)) (signaling_closed "p") s3)
  ∧ (let s0 := run [CallRestartPeerConnection "p" true (Some true) false;
                    IceChange 0 ICE_CONNECTION_STATE.CLOSED;
                    SignalingChange 0 "closed"] session_with_p in
     let s1 := _restartPeerConnection "p" true (Some true) false s0 in
     let s2 := turn (WaitFire 0 true) s1 in
     (r_phase <$> (restarts s0 !! 0%nat)) = Some Waiting
     ∧ constructs_for "p" s1 s2
     ∧ peerRecord s2 "p" = Some 1%nat
     ∧ (r_phase <$> (restarts s2 !! 1%nat)) = Some Waiting
     ∧ ¬ published_since (length (effects s1)) (ice_closed "p") s2
     ∧ ¬ published_since (length (effects s1)) (signaling_closed "p") s2).
Proof.
  split.
  { vm_compute. repeat split.
    intros H. specialize (H 20000 eq_refl eq_refl). discriminate H. }
  split; cbv zeta.
  - split; [exists 1%nat; vm_compute; done|].
    split; [vm_compute; apply list_elem_of_further, list_elem_of_here|].
    split; [vm_compute; reflexivity|]. split; [vm_compute; reflexivity|].
    split; apply not_published_since; vm_compute; intros H;
      repeat (apply elem_of_cons in H as [H|H]; [discriminate H|]);
      by apply elem_of_nil in H.
  - split; [vm_compute; reflexivity|].
    split; [exists 1%nat; vm_compute; done|].
    split; [vm_compute; reflexivity|]. split; [vm_compute; reflexivity|].
    split; apply not_published_since; vm_compute; intros H;
      repeat (apply elem_of_cons in H as [H|H]; [discriminate H|]);
      by apply elem_of_nil in H.
Qed.
(** * Further properties *)

(** X4.  The peer table and the transport heap change only when a peer is
    added, a peer is removed, or the [_wait] callback of a restart runs.
    Whatever else happens (transport events, the synchronous part of a
    restart, a refresh, the timer function of a restart, time passing): the
    table holds the same entries and no transport is allocated. *)
Theorem table_changes_only_by_registration (acts : list action) (s : Skylink) :
  forallb (λ a, negb (registers a)) acts = true →
  _peerConnections (run acts s) = _peerConnections s
  ∧ length (transports (run acts s)) = length (transports s).
Proof.
  intros Hacts.
  assert (H : keeps table s (run acts s)).
  { apply (keeps_run table (λ a, negb (registers a))); [|done].
    intros a x Ha. apply table_turn. by destruct (registers a). }
  unfold keeps, table in H. by injection H.
Qed.

Lemma table_changes_only_by_registration_witness :
  forallb (λ a, negb (registers a))
    [IceChange 0 ICE_CONNECTION_STATE.FAILED; Tick 5000;
     CallRefreshConnection None; TimeoutFire 0] = true
  ∧ _peerConnections
      (run [IceChange 0 ICE_CONNECTION_STATE.FAILED; Tick 5000;
            CallRefreshConnection None; TimeoutFire 0] session_with_p)
    = _peerConnections session_with_p.
Proof.
  split; [vm_compute; reflexivity|].
  apply (table_changes_only_by_registration
           [IceChange 0 ICE_CONNECTION_STATE.FAILED; Tick 5000;
            CallRefreshConnection None; TimeoutFire 0] session_with_p).
  vm_compute; reflexivity.
Defined.

(** X11.  Only the ICE connection state callback writes the failure counters
    and the flags that disable trickle ICE.  No other code of the file
    touches them; [_removePeer] in particular does not clear them, so a peer
    that is removed and added again keeps its count. *)
Theorem counters_written_only_by_ice_callback (acts : list action)
    (s : Skylink) :
  forallb (λ a, negb (is_IceChange a)) acts = true →
  _ICEConnectionFailures (run acts s) = _ICEConnectionFailures s
  ∧ _peerIceTrickleDisabled (run acts s) = _peerIceTrickleDisabled s.
Proof.
  intros Hacts.
  assert (H : keeps counters s (run acts s)).
  { apply (keeps_run counters (λ a, negb (is_IceChange a))); [|done].
    intros a x Ha. apply counters_turn. by destruct (is_IceChange a). }
  unfold keeps, counters in H. by injection H.
Qed.

Lemma counters_written_only_by_ice_callback_witness :
  forallb (λ a, negb (is_IceChange a))
    [CallRemovePeer "p"; CallAddPeer "p" "chrome" true false false true] = true
  ∧ _ICEConnectionFailures
      (run [CallRemovePeer "p"; CallAddPeer "p" "chrome" true false false true]
         (turn (IceChange 0 ICE_CONNECTION_STATE.FAILED) session_with_p))
      !! "p" = Some 1.
Proof.
  split; [vm_compute; reflexivity|].
  destruct (counters_written_only_by_ice_callback
              [CallRemovePeer "p";
               CallAddPeer "p" "chrome" true false false true]
              (turn (IceChange 0 ICE_CONNECTION_STATE.FAILED) session_with_p))
    as [-> _]; vm_compute; reflexivity.
Defined.

Lemma cooling_undefined (s : Skylink) :
  lastRestart s = undefined → cooling s = false.
Proof.
  intros H. unfold cooling, js_sub. rewrite H.
  by destruct (ToNumber (Date_now_or_fallback (clock s))).
Qed.

Lemma refreshSinglePeer_not_cooling (s : Skylink) (p : string) :
  cooling s = false → is_Some (peerRecord s p) →
  refreshSinglePeer p s = _restartPeerConnection p true None false s.
Proof.
  intros Hcool [r Hrec]. unfold refreshSinglePeer. rewrite Hrec.
  cbv zeta. fold (cooling s). by rewrite Hcool.
Qed.

Lemma refreshSinglePeer_cooling (s : Skylink) (p : string) :
  cooling s = true → is_Some (peerRecord s p) →
  refreshSinglePeer p s
  = log error (Some p) "Last restart was so tight. Aborting." s.
Proof.
  intros Hcool [r Hrec]. unfold refreshSinglePeer. rewrite Hrec.
  cbv zeta. fold (cooling s). by rewrite Hcool.
Qed.

(** X12.  No code of this file assigns [lastRestart], the attribute that the
    cooldown of [refreshConnection] reads, nor [_lastRestart], the attribute
    that the prototype declares: a restart does not record its own time.
    As long as no other code assigns it, an object whose [lastRestart] was
    never set keeps it undefined, and [refreshSinglePeer] then never rejects:
    for a peer with a record it is the restart. *)
Theorem lastRestart_never_assigned (acts : list action) (s : Skylink) :
  forallb (λ a, negb (is_AssignLastRestart a)) acts = true →
  lastRestart (run acts s) = lastRestart s
  ∧ _lastRestart (run acts s) = _lastRestart s
  ∧ (lastRestart s = undefined →
     ∀ p, is_Some (peerRecord (run acts s) p) →
       refreshSinglePeer p (run acts s)
       = _restartPeerConnection p true None false (run acts s)).
Proof.
  intros Hacts.
  assert (H : keeps stamps s (run acts s)).
  { apply (keeps_run stamps (λ a, negb (is_AssignLastRestart a))); [|done].
    intros a x Ha. apply stamps_turn. by destruct (is_AssignLastRestart a). }
  unfold keeps, stamps in H. injection H as H1 H2.
  split; [done|]. split; [done|]. intros Hundef p Hrec.
  apply refreshSinglePeer_not_cooling; [|done].
  apply cooling_undefined. by rewrite H1.
Qed.

Lemma lastRestart_never_assigned_witness :
  forallb (λ a, negb (is_AssignLastRestart a))
    (restart_until_barrier ++ [Tick 1000; TimeoutFire 0]) = true
  ∧ lastRestart
      (run (restart_until_barrier ++ [Tick 1000; TimeoutFire 0])
         session_with_p) = undefined.
Proof.
  split; [vm_compute; reflexivity|].
  destruct (lastRestart_never_assigned
              (restart_until_barrier ++ [Tick 1000; TimeoutFire 0])
              session_with_p) as [-> _]; vm_compute; reflexivity.
Defined.

(** X6.  Whatever happens to the object, nothing is taken back: the log of
    effects only grows, the clock never goes backwards, a transport once
    allocated stays allocated and keeps the peer id its callbacks were wired
    for, and a peer for which trickle ICE was disabled stays so. *)
Theorem run_keeps_history (acts : list action) (s : Skylink) :
  effects s `prefix_of` effects (run acts s)
  ∧ clock s ≤ clock (run acts s)
  ∧ (∀ r pc, transports s !! r = Some pc →
       ∃ pc', transports (run acts s) !! r = Some pc'
              ∧ targetMid pc' = targetMid pc)
  ∧ (∀ p, _peerIceTrickleDisabled s !! p = Some true →
       _peerIceTrickleDisabled (run acts s) !! p = Some true).
Proof.
  destruct (evolves_run acts s) as [He Hc Ht Hd _ _]. auto.
Qed.

(** ** Adding and removing a peer *)

(** What [_removePeer] leaves for a peer that has a record. *)
Lemma removePeer_known (s : Skylink) (p : string) (r : nat)
    (pc : RTCPeerConnection) :
  peerRecord s p = Some r →
  transports s !! r = Some pc →
  let open := bool_decide (signalingState pc ≠ "closed") in
  ∃ s', _removePeer p s = Return s'
    ∧ _peerConnections s' = delete p (_peerConnections s)
    ∧ transports s'
      = (if open
         then alter closed r
                (alter (with_dataChannelClosed (Some true)) r (transports s))
         else alter (with_dataChannelClosed (Some true)) r (transports s))
    ∧ _peerHSPriorities s' = delete p (_peerHSPriorities s)
    ∧ _peerInformations s' = delete p (_peerInformations s)
    ∧ _peerConnectionHealth s' = delete p (_peerConnectionHealth s)
    ∧ healthTimers s' = healthTimers s ∖ {[p]}
    ∧ _dataChannels s'
      = (if _enableDataChannel s then _dataChannels s ∖ {[p]}
         else _dataChannels s)
    ∧ _hasMCU s' = (if bool_decide (p ≠ "MCU") then _hasMCU s else false)
    ∧ effects s'
      = (effects s
         ++ [if bool_decide (p ≠ "MCU") then ETrigger (peerLeft_ev p false)
             else ELog log_ (Some p) "MCU has stopped listening and left"]
         ++ (if open then [EClose r] else [])
         ++ (if hasStream pc then [ETrigger (streamEnded_ev p false)] else [])
         ++ (if _enableDataChannel s then [ECloseDataChannel p] else [])
         ++ [ELog log_ (Some p) "Successfully removed peer"])%list
    ∧ restarts s' = restarts s
    ∧ clock s' = clock s.
Proof.
  intros Hrec Hpc. cbv zeta. apply peerRecord_slot in Hrec as Hslot.
  unfold closed, _removePeer, with_pc, peerRecord.
  destruct (bool_decide (p ≠ "MCU")); cbv zeta; sk; rewrite Hslot;
    rewrite ?list_lookup_alter_eq, Hpc; cbn [fmap option_fmap option_map];
    cbn [signalingState with_dataChannelClosed];
    destruct (bool_decide (signalingState pc ≠ "closed")); sk;
    rewrite ?list_lookup_alter_eq, Hpc; cbn [fmap option_fmap option_map];
    cbn [hasStream with_dataChannelClosed with_iceConnectionState
           with_signalingState];
    destruct (hasStream pc), (_enableDataChannel s) eqn:Hdc; sk;
    rewrite ?Hdc; sk;
    eexists; (split; [reflexivity|]); sk;
    rewrite ?notify_streamEnded, ?notify_peerLeft;
    rewrite <- ?app_assoc; cbn [app]; done.
Qed.

(** Without a record, [_removePeer] stops before it touches the table. *)
Lemma removePeer_unknown_table (s : Skylink) (p : string) :
  peerRecord s p = None →
  _peerConnections (after (_removePeer p s)) = _peerConnections s.
Proof.
  intros Hrec. unfold _removePeer.
  assert (peerRecord
            (_stopPeerConnectionHealthCheck p
               (if bool_decide (p ≠ "MCU")
                then _trigger (peerLeft_ev p false) s
                else log log_ (Some p) "MCU has stopped listening and left"
                       (set_hasMCU s false))) p = None) as ->
    by (by case_bool_decide).
  by case_bool_decide.
Qed.



(** X2.  [_removePeer] for a peer that has a record: the call returns; the
    record is deleted and the other entries stay; [dataChannelClosed] is set
    on the transport and [close()] is called on it unless its signaling state
    already reads closed; no other transport changes; the handshake
    priority, the peer information and the health flag of the peer are
    deleted and its watchdog is stopped; [_hasMCU] is cleared when the peer
    is the MCU.  The collaborators see, in this order: [peerLeft] (for the
    MCU, a log line instead), [close()] if it is called, [streamEnded] if the
    transport had received a stream, the closing of the data channel if data
    channels are enabled, and the final log line. *)
Theorem removePeer_unregisters (s : Skylink) (p : string) (r : nat)
    (pc : RTCPeerConnection) :
  peerRecord s p = Some r →
  transports s !! r = Some pc →
  let open := bool_decide (signalingState pc ≠ "closed") in
  let o := _removePeer p s in
  throws o = false
  ∧ _peerConnections (after o) = delete p (_peerConnections s)
  ∧ transports (after o) !! r
    = Some (with_dataChannelClosed (Some true) (if open then closed pc else pc))
  ∧ (∀ r', r' ≠ r → transports (after o) !! r' = transports s !! r')
  ∧ _peerHSPriorities (after o) = delete p (_peerHSPriorities s)
  ∧ _peerInformations (after o) = delete p (_peerInformations s)
  ∧ _peerConnectionHealth (after o) = delete p (_peerConnectionHealth s)
  ∧ (p ∉ healthTimers (after o))
  ∧ _hasMCU (after o) = (if bool_decide (p ≠ "MCU") then _hasMCU s else false)
  ∧ effects (after o)
    = (effects s
       ++ [if bool_decide (p ≠ "MCU") then ETrigger (peerLeft_ev p false)
           else ELog log_ (Some p) "MCU has stopped listening and left"]
       ++ (if open then [EClose r] else [])
       ++ (if hasStream pc then [ETrigger (streamEnded_ev p false)] else [])
       ++ (if _enableDataChannel s then [ECloseDataChannel p] else [])
       ++ [ELog log_ (Some p) "Successfully removed peer"])%list.
Proof.
  intros Hrec Hpc open o.
  destruct (removePeer_known s p r pc Hrec Hpc)
    as (s' & Ho & Htab & Htr & Hhs & Hinf & Hh & Hht & _ & Hmcu & Heff & _).
  subst o. rewrite Ho. cbn [throws after].
  split; [done|]. split; [done|]. split.
  { rewrite Htr. subst open.
    destruct (bool_decide (signalingState pc ≠ "closed"));
      rewrite ?list_lookup_alter_eq, Hpc; done. }
  split.
  { intros r' Hr'. rewrite Htr.
    destruct (bool_decide (signalingState pc ≠ "closed"));
      rewrite ?list_lookup_alter_ne by done; done. }
  repeat (split; [done|]). split; [rewrite Hht; set_solver|done].
Qed.

Lemma removePeer_unregisters_witness :
  peerRecord session_with_p "p" = Some 0%nat
  ∧ _peerConnections (after (_removePeer "p" session_with_p))
    = delete "p" (_peerConnections session_with_p).
Proof.
  split; [vm_compute; reflexivity|].
  destruct (removePeer_unregisters session_with_p "p" 0
              (with_receiveOnly (Some true) (fresh_transport "p")))
    as (_ & H & _); [vm_compute; reflexivity..|exact H].
Defined.



(** ** The peer table and the transport heap *)

Lemma well_formed_spec (s : Skylink) :
  well_formed s = true
  ↔ ∀ p r, _peerConnections s !! p = Some (Ref r) →
      targetMid <$> transports s !! r = Some p.
Proof.
  unfold well_formed. rewrite forallb_forall. split.
  - intros H p r Hp.
    assert (Hin : In (p, Ref r) (map_to_list (_peerConnections s)))
      by (by apply list_elem_of_In, elem_of_map_to_list).
    apply H in Hin. cbn [registered_for fst snd] in Hin.
    by apply bool_decide_eq_true in Hin.
  - intros H [p [|r]] Hin; [done|]. cbn [registered_for fst snd].
    apply bool_decide_eq_true, H.
    by apply elem_of_map_to_list, list_elem_of_In.
Qed.

(** An entry that a piece of code leaves in the table was there before, or
    refers to a transport wired for its peer. *)
Lemma well_formed_then (s s' : Skylink) :
  evolves s s' →
  (∀ p r, _peerConnections s' !! p = Some (Ref r) →
     _peerConnections s !! p = Some (Ref r)
     ∨ targetMid <$> transports s' !! r = Some p) →
  well_formed s = true → well_formed s' = true.
Proof.
  rewrite !well_formed_spec. intros Hev Hnew Hwf p r Hp.
  destruct (Hnew p r Hp) as [Hold|Hfresh]; [|done].
  specialize (Hwf p r Hold).
  destruct (transports s !! r) as [pc|] eqn:Hpc; [|done].
  destruct (ev_transports _ _ Hev r pc Hpc) as (pc' & -> & Hmid).
  cbn [fmap option_fmap option_map] in *. congruence.
Qed.

Lemma addPeer_entries (p peerBrowser : string)
    (toOffer restartConn receiveOnly ctor_ok : bool) (s : Skylink) :
  let s' := after (_addPeer p peerBrowser toOffer restartConn receiveOnly
                     ctor_ok s) in
  ∀ q r, _peerConnections s' !! q = Some (Ref r) →
    _peerConnections s !! q = Some (Ref r)
    ∨ targetMid <$> transports s' !! r = Some q.
Proof.
  intros s' q r Hq. subst s'. destruct restartConn.
  { left. revert Hq.
    assert (H : keeps table s
                  (after (_addPeer p peerBrowser toOffer true receiveOnly
                            ctor_ok s))).
    { keeps_step. cbv beta iota delta [negb]. rewrite andb_false_r.
      keeps_auto. }
    unfold keeps, table in H. injection H as -> _. done. }
  destruct (peerRecord s p) as [r0|] eqn:Hrec.
  { left. revert Hq. unfold _addPeer. rewrite Hrec.
    by rewrite bool_decide_eq_true_2 by eauto. }
  destruct (foreign s p) eqn:Hfor.
  { left. revert Hq. unfold _addPeer. by rewrite Hrec, Hfor. }
  destruct ctor_ok.
  - destruct (addPeer_new s p peerBrowser toOffer receiveOnly Hrec Hfor)
      as (s' & Ho & Htab & Htr & _).
    rewrite Ho in *. cbn [after] in *. rewrite Htab in Hq.
    destruct (decide (q = p)) as [->|Hne].
    + rewrite lookup_insert_eq in Hq. injection Hq as <-. right.
      by rewrite Htr, list_lookup_middle.
    + rewrite lookup_insert_ne in Hq by done. by left.
  - rewrite (addPeer_allocation_failure s p peerBrowser toOffer receiveOnly
               Hrec Hfor) in Hq. cbn [after] in Hq. sk.
    destruct (decide (q = p)) as [->|Hne].
    + by rewrite lookup_insert_eq in Hq.
    + rewrite lookup_insert_ne in Hq by done. by left.
Qed.

Lemma removePeer_entries (p : string) (s : Skylink) :
  well_formed s = true →
  ∀ q v, _peerConnections (after (_removePeer p s)) !! q = Some v →
    _peerConnections s !! q = Some v.
Proof.
  intros Hwf q v. destruct (peerRecord s p) as [r|] eqn:Hrec.
  - apply peerRecord_slot in Hrec as Hslot.
    pose proof (proj1 (well_formed_spec s) Hwf p r Hslot) as Hmid.
    destruct (transports s !! r) as [pc|] eqn:Hpc; [|done].
    destruct (removePeer_known s p r pc Hrec Hpc) as (s' & -> & Htab & _).
    cbn [after]. rewrite Htab, lookup_delete_Some. tauto.
  - by rewrite removePeer_unknown_table.
Qed.

Lemma wait_callback_entries (k : nat) (ctor_ok : bool) (s s' : Skylink) :
  wait_callback k ctor_ok s = Some s' →
  ∀ q r, _peerConnections s' !! q = Some (Ref r) →
    _peerConnections s !! q = Some (Ref r)
    ∨ targetMid <$> transports s' !! r = Some q.
Proof.
  intros Hw q r Hq.
  destruct (wait_callback_spec k ctor_ok s s' Hw)
    as (c & _ & _ & _ & _ & Htab & Htr & _).
  rewrite Htab in Hq. destruct (decide (q = r_peerId c)) as [->|Hne].
  - rewrite lookup_insert_eq in Hq. destruct ctor_ok; [|done].
    injection Hq as <-. right. by rewrite Htr, list_lookup_middle.
  - rewrite lookup_insert_ne, lookup_delete_ne in Hq by done. by left.
Qed.

Lemma well_formed_turn (a : action) (s : Skylink) :
  well_formed s = true → well_formed (turn a s) = true.
Proof.
  intros Hwf. apply (well_formed_then s); [apply evolves_turn| |done].
  destruct (registers a) eqn:Ha.
  - destruct a; try discriminate Ha; unfold turn, step.
    + destruct (wait_callback k ctor_ok s) as [s'|] eqn:Hw;
        cbn [fmap option_fmap option_map after]; [|auto].
      by apply (wait_callback_entries k ctor_ok).
    + apply addPeer_entries.
    + intros q r Hq. left. by apply (removePeer_entries peerId).
  - pose proof (table_turn a s Ha) as H. unfold keeps, table in H.
    injection H as -> _. auto.
Qed.

(** X5.  The peer table and the transport heap stay consistent, whatever
    happens: every entry of the table that is not [null] refers to a
    transport that has been allocated and whose callbacks were wired for the
    peer of the entry.  So the callbacks of the transport registered for a
    peer report under that peer's id, and no transport is registered for two
    peers. *)
Theorem table_stays_well_formed (acts : list action) (s : Skylink) :
  well_formed s = true →
  well_formed (run acts s) = true
  ∧ (∀ p r, peerRecord (run acts s) p = Some r →
       ∃ pc, transports (run acts s) !! r = Some pc ∧ targetMid pc = p)
  ∧ (∀ p q r, peerRecord (run acts s) p = Some r →
       peerRecord (run acts s) q = Some r → p = q).
Proof.
  intros Hwf.
  assert (Hrun : well_formed (run acts s) = true).
  { induction acts as [|a acts IH] using rev_ind; [done|].
    rewrite run_snoc. by apply well_formed_turn. }
  split; [done|].
  assert (Hderef : ∀ p r, peerRecord (run acts s) p = Some r →
            ∃ pc, transports (run acts s) !! r = Some pc ∧ targetMid pc = p).
  { intros p r Hp. apply peerRecord_slot in Hp.
    pose proof (proj1 (well_formed_spec _) Hrun p r Hp) as Hmid.
    destruct (transports (run acts s) !! r) as [pc|]; [|done].
    exists pc. split; [done|]. by injection Hmid. }
  split; [done|]. intros p q r Hp Hq.
  destruct (Hderef p r Hp) as (pc & Hpc & <-).
  destruct (Hderef q r Hq) as (pc' & Hpc' & <-). congruence.
Qed.

Lemma table_stays_well_formed_witness :
  well_formed (new_Skylink true true) = true
  ∧ well_formed
      (run (CallAddPeer "p" "chrome" true false true true
              :: CallAddPeer "q" "chrome" false false false false
              :: restart_until_barrier)
         (new_Skylink true true)) = true.
Proof.
  split; [vm_compute; reflexivity|].
  apply (table_stays_well_formed
           (CallAddPeer "p" "chrome" true false true true
              :: CallAddPeer "q" "chrome" false false false false
              :: restart_until_barrier)
           (new_Skylink true true)).
  vm_compute; reflexivity.
Defined.

(** ** The timer function of a restart *)

Lemma notify_peerRestart (p : string) (b : bool) (cs : list restartClosure) :
  notify (peerRestart_ev p b) <$> cs = cs.
Proof. apply list_fmap_id. Qed.

(** The timer function finds no record: it faults on its first statement. *)
Lemma timeout_callback_missing (k : nat) (s : Skylink) (c : restartClosure)
    (since : Z) :
  restarts s !! k = Some c →
  r_phase c = Delaying since →
  since + 1000 ≤ clock s →
  peerRecord s (r_peerId c) = None →
  timeout_callback k s
  = Some (Throw (set_restarts s (alter (with_phase Finished) k (restarts s)))).
Proof.
  intros Hk Hph Hge Hrec. unfold timeout_callback. rewrite Hk.
  cbn [mbind option_bind]. rewrite Hph, bool_decide_eq_true_2 by done.
  cbv zeta.
  change (peerRecord (set_restarts s _) (r_peerId c))
    with (peerRecord s (r_peerId c)).
  by rewrite Hrec.
Qed.

(** The timer function finds a record. *)
Lemma timeout_callback_known (k : nat) (s : Skylink) (c : restartClosure)
    (since : Z) (r : nat) :
  restarts s !! k = Some c →
  r_phase c = Delaying since →
  since + 1000 ≤ clock s →
  peerRecord s (r_peerId c) = Some r →
  ∃ s', timeout_callback k s = Some (Return s')
    ∧ effects s' = (effects s ++ timer_effects c (clock s))%list
    ∧ transports s'
      = alter (with_receiveOnly (Some (r_receiveOnly c))) r (transports s)
    ∧ _peerConnections s' = _peerConnections s
    ∧ restarts s' = alter (with_phase Finished) k (restarts s)
    ∧ clock s' = clock s.
Proof.
  intros Hk Hph Hge Hrec. unfold timeout_callback, timer_effects. rewrite Hk.
  cbn [mbind option_bind]. rewrite Hph, bool_decide_eq_true_2 by done.
  cbv zeta.
  change (peerRecord (set_restarts s _) (r_peerId c))
    with (peerRecord s (r_peerId c)).
  rewrite Hrec. eexists. split; [reflexivity|].
  destruct (r_receiveOnly c), (r_isSelfInitiatedRestart c), (r_callback c);
    cbn [negb]; sk; rewrite notify_peerRestart, <- ?app_assoc; done.
Qed.

(** X13.  The timer function of a restart, run for a peer that has a record
    once 1000 ms have passed: it returns; it restores [receiveOnly] on the
    registered transport from the value saved when the restart began; and
    the collaborators see, in this order: the local streams attached again
    unless [receiveOnly]; the RESTART message, only when the restart is
    self-initiated; the [peerRestart] event, always, and always published
    with the self-initiated flag true, whoever initiated the restart; the
    callback, only when one was supplied.  The peer table is not touched,
    and the function cannot run a second time. *)
Theorem timer_function_effects (k : nat) (s : Skylink) (c : restartClosure)
    (since : Z) (r : nat) :
  restarts s !! k = Some c →
  r_phase c = Delaying since →
  since + 1000 ≤ clock s →
  peerRecord s (r_peerId c) = Some r →
  ∃ s', timeout_callback k s = Some (Return s')
    ∧ effects s' = (effects s ++ timer_effects c (clock s))%list
    ∧ transports s'
      = alter (with_receiveOnly (Some (r_receiveOnly c))) r (transports s)
    ∧ _peerConnections s' = _peerConnections s
    ∧ timeout_callback k s' = None.
Proof.
  intros Hk Hph Hge Hrec.
  destruct (timeout_callback_known k s c since r Hk Hph Hge Hrec)
    as (s' & Ho & Heff & Htr & Htab & Hrs & _).
  exists s'. repeat (split; [done|]).
  unfold timeout_callback. rewrite Hrs, list_lookup_alter_eq, Hk. done.
Qed.

Lemma timer_function_effects_witness :
  restarts (run (restart_until_barrier ++ [Tick 1000]) session_with_p) !! 0%nat
  = Some (mkRestart "p" true (Some true) false true true true false
            (Delaying 0))
  ∧ ∃ s', timeout_callback 0
            (run (restart_until_barrier ++ [Tick 1000]) session_with_p)
          = Some (Return s')
          ∧ _peerConnections s'
            = _peerConnections
                (run (restart_until_barrier ++ [Tick 1000]) session_with_p).
Proof.
  split; [vm_compute; reflexivity|].
  destruct (timer_function_effects 0
              (run (restart_until_barrier ++ [Tick 1000]) session_with_p)
              (mkRestart "p" true (Some true) false true true true false
                 (Delaying 0)) 0 1) as (s' & Ho & _ & _ & Htab & _);
    [vm_compute; reflexivity|reflexivity|vm_compute; discriminate
    |vm_compute; reflexivity|].
  exists s'. split; [exact Ho|exact Htab].
Defined.

(** X7.  A restart whose re-creation fails.  When the transport cannot be
    allocated in the [_wait] callback, [null] is stored under the peer id and
    the timer is armed all the same.  When the timer function then runs, it
    faults on its first statement: no RESTART message is sent, no
    [peerRestart] event is published, no callback is fired; nothing was
    allocated, the peer is left without a connection, and this restart does
    not run again. *)
Theorem timer_faults_after_failed_recreation (k : nat) (s s1 : Skylink)
    (d : Z) :
  wait_callback k false s = Some s1 →
  1000 ≤ d →
  ∃ c s3, restarts s !! k = Some c
    ∧ _peerConnections s1 !! r_peerId c = Some Null
    ∧ step (TimeoutFire k) (turn (Tick d) s1) = Some (Throw s3)
    ∧ effects s3 = effects s1
    ∧ transports s3 = transports s
    ∧ _peerConnections s3 !! r_peerId c = Some Null
    ∧ (r_phase <$> restarts s3 !! k) = Some Finished.
Proof.
  intros Hw Hd.
  destruct (wait_callback_spec k false s s1 Hw)
    as (c & Hk & _ & _ & _ & Htab & Htr & Hrs & Hclock & _).
  assert (Hnull : _peerConnections s1 !! r_peerId c = Some Null)
    by (by rewrite Htab, lookup_insert_eq).
  assert (Hturn : turn (Tick d) s1 = set_clock s1 (clock s1 + d)).
  { unfold turn, step. by rewrite bool_decide_eq_true_2 by lia. }
  assert (Hk1 : restarts s1 !! k = Some (with_phase (Delaying (clock s)) c))
    by (by rewrite Hrs, list_lookup_alter_eq, Hk).
  exists c. eexists. split; [done|]. split; [done|]. split.
  { rewrite Hturn. cbn [step].
    apply (timeout_callback_missing k _ (with_phase (Delaying (clock s)) c)
             (clock s)); sk.
    - exact Hk1.
    - done.
    - lia.
    - unfold peerRecord. sk. cbn [with_phase r_peerId]. by rewrite Hnull. }
  sk. split; [done|]. split; [done|]. split; [done|].
  by rewrite list_lookup_alter_eq, Hk1.
Qed.

Lemma timer_faults_after_failed_recreation_witness :
  wait_callback 0 false
    (run [CallRestartPeerConnection "p" true (Some true) false;
          IceChange 0 ICE_CONNECTION_STATE.CLOSED; SignalingChange 0 "closed"]
       session_with_p)
  = Some (run [CallRestartPeerConnection "p" true (Some true) false;
               IceChange 0 ICE_CONNECTION_STATE.CLOSED;
               SignalingChange 0 "closed"; WaitFire 0 false] session_with_p)
  ∧ ∃ s3, step (TimeoutFire 0)
            (turn (Tick 1000)
               (run [CallRestartPeerConnection "p" true (Some true) false;
                     IceChange 0 ICE_CONNECTION_STATE.CLOSED;
                     SignalingChange 0 "closed"; WaitFire 0 false]
                  session_with_p))
          = Some (Throw s3).
Proof.
  split; [vm_compute; reflexivity|].
  destruct (timer_faults_after_failed_recreation 0
              (run [CallRestartPeerConnection "p" true (Some true) false;
                    IceChange 0 ICE_CONNECTION_STATE.CLOSED;
                    SignalingChange 0 "closed"] session_with_p)
              (run [CallRestartPeerConnection "p" true (Some true) false;
                    IceChange 0 ICE_CONNECTION_STATE.CLOSED;
                    SignalingChange 0 "closed"; WaitFire 0 false]
                 session_with_p) 1000)
    as (c & s3 & _ & _ & H & _);
    [vm_compute; reflexivity|vm_compute; discriminate|].
  exists s3. exact H.
Defined.

(** X8.  A peer removed while its restart waits for the timer.  The removal
    returns and deletes the record that the [_wait] callback registered; the
    timer stays armed.  When the timer function runs, it faults on its first
    statement: no RESTART message is sent and no [peerRestart] event is
    published for the peer that left. *)
Theorem timer_faults_after_removal (k : nat) (s : Skylink)
    (c : restartClosure) (since d : Z) (r : nat) (pc : RTCPeerConnection) :
  restarts s !! k = Some c →
  r_phase c = Delaying since →
  peerRecord s (r_peerId c) = Some r →
  transports s !! r = Some pc →
  0 ≤ d →
  since + 1000 ≤ clock s + d →
  ∃ s1 s3, _removePeer (r_peerId c) s = Return s1
    ∧ step (TimeoutFire k) (turn (Tick d) s1) = Some (Throw s3)
    ∧ effects s3 = effects s1
    ∧ transports s3 = transports s1
    ∧ peerRecord s3 (r_peerId c) = None.
Proof.
  intros Hk Hph Hrec Hpc Hd Hge.
  destruct (removePeer_known s (r_peerId c) r pc Hrec Hpc)
    as (s1 & Ho & Htab & _ & _ & _ & _ & _ & _ & _ & _ & Hrs & Hclock).
  assert (Hturn : turn (Tick d) s1 = set_clock s1 (clock s1 + d)).
  { unfold turn, step. by rewrite bool_decide_eq_true_2 by lia. }
  assert (Hnone : peerRecord s1 (r_peerId c) = None).
  { unfold peerRecord. by rewrite Htab, lookup_delete_eq. }
  exists s1. eexists. split; [done|]. split.
  { rewrite Hturn. cbn [step].
    apply (timeout_callback_missing k _ c since); sk.
    - by rewrite Hrs.
    - done.
    - lia.
    - exact Hnone. }
  sk. done.
Qed.

Lemma timer_faults_after_removal_witness :
  restarts (run restart_until_barrier session_with_p) !! 0%nat
  = Some (mkRestart "p" true (Some true) false true true true false
            (Delaying 0))
  ∧ ∃ s1 s3,
      _removePeer "p" (run restart_until_barrier session_with_p) = Return s1
      ∧ step (TimeoutFire 0) (turn (Tick 1000) s1) = Some (Throw s3).
Proof.
  split; [vm_compute; reflexivity|].
  destruct (timer_faults_after_removal 0
              (run restart_until_barrier session_with_p)
              (mkRestart "p" true (Some true) false true true true false
                 (Delaying 0)) 0 1000 1 (fresh_transport "p"))
    as (s1 & s3 & H1 & H3 & _);
    [vm_compute; reflexivity|reflexivity|vm_compute; reflexivity
    |vm_compute; reflexivity|vm_compute; discriminate
    |vm_compute; discriminate|].
  exists s1, s3. split; [exact H1|exact H3].
Defined.

(** ** Overlapping restarts *)

Lemma wait_callback_ready (k : nat) (ctor_ok : bool) (s : Skylink)
    (c : restartClosure) :
  restarts s !! k = Some c → ready c = true →
  is_Some (wait_callback k ctor_ok s).
Proof.
  intros Hk Hr. unfold wait_callback. rewrite Hk. cbn [mbind option_bind].
  rewrite Hr. by destruct (_createPeerConnection _ _ _).
Qed.

(** X10.  Two restarts of the same peer whose [_wait] callbacks are both
    ready, which is what two calls of [_restartPeerConnection] made before
    the old transport reports its closing lead to: the two CLOSED events
    raise the flags of both.  Each callback then constructs a transport for
    the peer.  The second one replaces the entry that the first one
    registered without closing its transport: that transport stays on the
    heap as it was constructed, and no entry of the table refers to it.
    Both timers are armed. *)
Theorem overlapping_restarts_leak_a_transport (s : Skylink) (p : string)
    (j k : nat) :
  well_formed s = true →
  j ≠ k →
  (r_peerId <$> restarts s !! j) = Some p →
  (r_peerId <$> restarts s !! k) = Some p →
  (ready <$> restarts s !! j) = Some true →
  (ready <$> restarts s !! k) = Some true →
  let n := length (transports s) in
  ∃ s1 s2, wait_callback j true s = Some s1
    ∧ wait_callback k true s1 = Some s2
    ∧ transports s2
      = (transports s ++ [fresh_transport p; fresh_transport p])%list
    ∧ peerRecord s1 p = Some n
    ∧ peerRecord s2 p = Some (S n)
    ∧ (∀ q, peerRecord s2 q ≠ Some n)
    ∧ (r_phase <$> restarts s2 !! j) = Some (Delaying (clock s))
    ∧ (r_phase <$> restarts s2 !! k) = Some (Delaying (clock s)).
Proof.
  intros Hwf Hjk Hpj Hpk Hrj Hrk n.
  destruct (restarts s !! j) as [cj|] eqn:Hj; [|done].
  destruct (restarts s !! k) as [ck|] eqn:Hk; [|done].
  cbn [fmap option_fmap option_map] in *.
  injection Hpj as Hpj. injection Hpk as Hpk.
  injection Hrj as Hrj. injection Hrk as Hrk.
  destruct (wait_callback_ready j true s cj Hj Hrj) as [s1 Hw1].
  destruct (wait_callback_spec j true s s1 Hw1)
    as (c & Hc & _ & _ & _ & Htab1 & Htr1 & Hrs1 & Hclock1 & _).
  rewrite Hj in Hc. injection Hc as <-. rewrite Hpj in *.
  assert (Hk1 : restarts s1 !! k = Some ck)
    by (by rewrite Hrs1, list_lookup_alter_ne).
  destruct (wait_callback_ready k true s1 ck Hk1 Hrk) as [s2 Hw2].
  destruct (wait_callback_spec k true s1 s2 Hw2)
    as (c & Hc & _ & _ & _ & Htab2 & Htr2 & Hrs2 & Hclock2 & _).
  rewrite Hk1 in Hc. injection Hc as <-. rewrite Hpk in *.
  assert (Hlen : length (transports s1) = S n).
  { rewrite Htr1, length_app. cbn [length]. subst n. lia. }
  rewrite Hlen in Htab2.
  exists s1, s2. split; [done|]. split; [done|]. split.
  { by rewrite Htr2, Htr1, <- app_assoc. }
  split. { apply peerRecord_slot. by rewrite Htab1, lookup_insert_eq. }
  split. { apply peerRecord_slot. by rewrite Htab2, lookup_insert_eq. }
  split.
  { intros q Hq. apply peerRecord_slot in Hq. rewrite Htab2 in Hq.
    destruct (decide (q = p)) as [->|Hne].
    - rewrite lookup_insert_eq in Hq. injection Hq. lia.
    - rewrite lookup_insert_ne, lookup_delete_ne in Hq by done.
      rewrite Htab1, lookup_insert_ne, lookup_delete_ne in Hq by done.
      pose proof (proj1 (well_formed_spec s) Hwf q n Hq) as Hmid.
      by rewrite (lookup_ge_None_2 (transports s) n) in Hmid. }
  rewrite Hrs2, Hrs1, Hclock1. split.
  - by rewrite list_lookup_alter_ne, list_lookup_alter_eq, Hj.
  - by rewrite list_lookup_alter_eq, list_lookup_alter_ne, Hk.
Qed.

Lemma overlapping_restarts_leak_a_transport_witness :
  (ready <$> restarts (run two_restarts session_with_p) !! 1%nat) = Some true
  ∧ ∃ s1 s2,
      wait_callback 0 true (run two_restarts session_with_p) = Some s1
      ∧ wait_callback 1 true s1 = Some s2
      ∧ ∀ q, peerRecord s2 q ≠ Some 1%nat.
Proof.
  split; [vm_compute; reflexivity|].
  destruct (overlapping_restarts_leak_a_transport
              (run two_restarts session_with_p) "p" 0 1)
    as (s1 & s2 & H1 & H2 & _ & _ & _ & H & _);
    [vm_compute; reflexivity|discriminate|vm_compute; reflexivity..|].
  exists s1, s2. split; [exact H1|]. split; [exact H2|exact H].
Defined.

(** ** Refreshing every peer *)

Lemma refreshSinglePeer_suspends (s : Skylink) (p : string) :
  cooling s = false →
  ∃ cs, restarts (refreshSinglePeer p s) = (restarts s ++ cs)%list
    ∧ r_peerId <$> cs = (if decide (is_Some (peerRecord s p)) then [p] else [])
    ∧ Forall (λ c, r_isSelfInitiatedRestart c = true
                   ∧ r_isConnectionRestart c = None
                   ∧ r_callback c = false
                   ∧ r_phase c = Waiting) cs.
Proof.
  intros Hcool. destruct (peerRecord s p) as [r|] eqn:Hrec.
  - rewrite refreshSinglePeer_not_cooling by (by rewrite ?Hrec; eauto).
    rewrite (restartPeerConnection_restarts s p r true None false Hrec).
    eexists. split; [reflexivity|].
    rewrite decide_True by eauto. split; [done|].
    by repeat constructor.
  - exists []. rewrite app_nil_r, decide_False by (by intros [? ?]).
    split; [|by split].
    destruct (foreign s p) eqn:Hfor;
      [|by rewrite (refreshSinglePeer_unknown_peer s p Hrec Hfor)].
    unfold refreshSinglePeer. rewrite Hrec, Hfor. cbv zeta.
    fold (cooling s). rewrite Hcool.
    unfold _restartPeerConnection. by rewrite Hrec, Hfor.
Qed.

Lemma refresh_loop_suspends (keys : list string) (s : Skylink) :
  cooling s = false →
  ∃ cs, restarts (foldl (λ s key, refreshSinglePeer key s) s keys)
        = (restarts s ++ cs)%list
    ∧ r_peerId <$> cs = filter (λ p, is_Some (peerRecord s p)) keys
    ∧ Forall (λ c, r_isSelfInitiatedRestart c = true
                   ∧ r_isConnectionRestart c = None
                   ∧ r_callback c = false
                   ∧ r_phase c = Waiting) cs.
Proof.
  revert s. induction keys as [|key keys IH]; intros s Hcool.
  { exists []. by rewrite app_nil_r. }
  cbn [foldl].
  pose proof (refresh_inputs_refreshSinglePeer key s) as Hin.
  unfold keeps, refresh_inputs in Hin. injection Hin as Htab Hlast Hclock.
  assert (Hsame : ∀ q, peerRecord (refreshSinglePeer key s) q = peerRecord s q)
    by (intros q; unfold peerRecord; by rewrite Htab).
  assert (Hcool' : cooling (refreshSinglePeer key s) = false)
    by (unfold cooling; by rewrite Hlast, Hclock).
  destruct (refreshSinglePeer_suspends s key Hcool) as (c1 & Hr1 & Hp1 & Hf1).
  destruct (IH _ Hcool') as (cs & Hrs & Hps & Hfs).
  exists (c1 ++ cs)%list. split; [by rewrite Hrs, Hr1, <- app_assoc|].
  split; [|by apply Forall_app].
  rewrite fmap_app, Hp1, Hps, filter_cons.
  rewrite (list_filter_iff _ (λ p, is_Some (peerRecord s p)))
    by (intros q; by rewrite Hsame).
  by destruct (decide (is_Some (peerRecord s key))).
Qed.

Lemma refresh_loop_cooling (keys : list string) (s : Skylink) :
  cooling s = true →
  restarts (foldl (λ s key, refreshSinglePeer key s) s keys) = restarts s
  ∧ transports (foldl (λ s key, refreshSinglePeer key s) s keys)
    = transports s.
Proof.
  revert s. induction keys as [|key keys IH]; intros s Hcool; [done|].
  cbn [foldl].
  pose proof (refresh_inputs_refreshSinglePeer key s) as Hin.
  unfold keeps, refresh_inputs in Hin. injection Hin as Htab Hlast Hclock.
  assert (Hcool' : cooling (refreshSinglePeer key s) = true)
    by (unfold cooling; by rewrite Hlast, Hclock).
  destruct (IH _ Hcool') as [-> ->].
  destruct (peerRecord s key) as [r|] eqn:Hrec.
  - by rewrite refreshSinglePeer_cooling by (by rewrite ?Hrec; eauto).
  - destruct (foreign s key) eqn:Hfor;
      [|by rewrite (refreshSinglePeer_unknown_peer s key Hrec Hfor)].
    unfold refreshSinglePeer. rewrite Hrec, Hfor. cbv zeta.
    fold (cooling s). by rewrite Hcool.
Qed.

(** X9.  [refreshConnection()] without a peer id, once past the MCU test
    and the throttle.  When the last restart is not less than 3000 ms old,
    the loop starts one restart for every peer that has a record, and none
    for an entry that holds [null]: the restarts suspended by the call are,
    in whatever order the table is enumerated, exactly one per connected
    peer, each self-initiated, with [isConnectionRestart] omitted and no
    callback.  When the last restart is less than 3000 ms old, every peer is
    refused: no restart is started and no transport is touched. *)
Theorem refreshConnection_all_peers (s : Skylink) :
  (cooling s = false →
   ∃ cs, restarts (toRefresh None s) = (restarts s ++ cs)%list
     ∧ NoDup (r_peerId <$> cs)
     ∧ (∀ p, p ∈ r_peerId <$> cs ↔ is_Some (peerRecord s p))
     ∧ Forall (λ c, r_isSelfInitiatedRestart c = true
                    ∧ r_isConnectionRestart c = None
                    ∧ r_callback c = false
                    ∧ r_phase c = Waiting) cs)
  ∧ (cooling s = true →
     restarts (toRefresh None s) = restarts s
     ∧ transports (toRefresh None s) = transports s).
Proof.
  split; intros Hcool; unfold toRefresh; [|by apply refresh_loop_cooling].
  destruct (refresh_loop_suspends (map_to_list (_peerConnections s)).*1 s
              Hcool) as (cs & Hrs & Hps & Hall).
  exists cs. split; [done|]. rewrite Hps.
  split; [apply NoDup_filter, NoDup_fst_map_to_list|]. split; [|done].
  intros p. rewrite list_elem_of_filter.
  split; [tauto|]. intros Hrec. split; [done|].
  destruct Hrec as [r Hr]. apply peerRecord_slot in Hr.
  apply list_elem_of_fmap. exists (p, Ref r).
  split; [done|]. by apply elem_of_map_to_list.
Qed.

Lemma refreshConnection_all_peers_witness :
  cooling session_with_three = false
  ∧ ∃ cs, restarts (toRefresh None session_with_three) = cs
          ∧ length cs = 2%nat
          ∧ ∀ p, p ∈ r_peerId <$> cs
                 ↔ is_Some (peerRecord session_with_three p).
Proof.
  split; [vm_compute; reflexivity|].
  destruct (refreshConnection_all_peers session_with_three) as [H _].
  destruct H as (cs & Hrs & _ & Hps & _); [vm_compute; reflexivity|].
  exists cs. split; [exact Hrs|]. split; [|exact Hps].
  change (restarts (toRefresh None session_with_three) = cs) in Hrs.
  rewrite <- Hrs. vm_compute; reflexivity.
Defined.

(** ** A failure reported by a transport that was replaced *)

(** X14.  The ICE callback of a transport restarts whatever connection is
    registered for its peer at that time.  When the transport [r] that
    reports FAILED is no longer the registered one (it was replaced by a
    restart), the callback still counts the failure for the peer, and the
    restart it starts closes the transport [r'] that is registered now:
    [dataChannelClosed] is set on [r'], [close()] is called on it unless it
    already reads closed, the watchdog of the peer is stopped and a restart
    of the peer is suspended, while [r] only records the state it reported. *)
Theorem stale_failure_restarts_current_connection (s : Skylink) (r r' : nat)
    (pc pc' : RTCPeerConnection) :
  transports s !! r = Some pc →
  peerRecord s (targetMid pc) = Some r' →
  r ≠ r' →
  transports s !! r' = Some pc' →
  let p := targetMid pc in
  let open := bool_decide (signalingState pc' ≠ "closed") in
  let s' := turn (IceChange r ICE_CONNECTION_STATE.FAILED) s in
  transports s' !! r
  = Some (with_iceConnectionState ICE_CONNECTION_STATE.FAILED pc)
  ∧ transports s' !! r'
    = Some (with_dataChannelClosed (Some true)
              (if open then closed pc' else pc'))
  ∧ (EClose r' ∈ logged_since (effects s) s' ↔ open = true)
  ∧ (EClose r ∉ logged_since (effects s) s')
  ∧ peerRecord s' p = Some r'
  ∧ (p ∉ healthTimers s')
  ∧ _ICEConnectionFailures s' !! p
    = Some (default 0 (_ICEConnectionFailures s !! p) + 1)
  ∧ restarts s'
    = (restarts s
       ++ [mkRestart p true (Some true) false (truthy (receiveOnly pc'))
             false false (negb (_enableDataChannel s)) Waiting])%list.
Proof.
  intros Hpc Hrec Hne Hpc' p open s'.
  set (s0 := update_pc r (with_iceConnectionState ICE_CONNECTION_STATE.FAILED)
               s).
  assert (Hs' : s' = _restartPeerConnection p true (Some true) false
                       (failed_bookkeeping p s0))
    by apply (turn_IceChange_FAILED s r pc Hpc).
  destruct (failed_bookkeeping_spec p s0)
    as (Hf & _ & He & _ & Htab & Htr & Hrs & _).
  cbv zeta in Hf, He. subst s0. sk.
  set (sb := failed_bookkeeping p _) in *.
  assert (Hrecb : peerRecord sb p = Some r')
    by (unfold peerRecord; by rewrite Htab).
  assert (Hpcb : transports sb !! r' = Some pc')
    by (by rewrite Htr, list_lookup_alter_ne).
  destruct (restartPeerConnection_known sb p r' pc' true (Some true) false
              Hrecb Hpcb) as (Htr' & He' & Htab' & Hht' & _).
  cbv zeta in Htr', He'. rewrite <- Hs' in *.
  destruct (restartPeerConnection_counters p true (Some true) false sb)
    as [Hc' _]. rewrite <- Hs' in Hc'.
  pose proof (restartPeerConnection_restarts sb p r' true (Some true) false
                Hrecb) as Hrs'. rewrite <- Hs' in Hrs'.
  assert (Hsince : logged_since (effects s) s'
                   = ([ELog debug (Some p) "Ice connection state changed ->";
                       ETrigger (iceConnectionState_ev
                                   ICE_CONNECTION_STATE.FAILED p)]
                      ++ (if _enableIceTrickle s
                             && negb (truthy (_peerIceTrickleDisabled sb !! p))
                          then [ETrigger (iceConnectionState_ev
                                  ICE_CONNECTION_STATE.TRICKLE_FAILED p)]
                          else [])
                      ++ [ELog log_ (Some p) "Restarting a peer connection"]
                      ++ (if open then [EClose r'] else [])
                      ++ (if hasStream pc'
                          then [ETrigger (streamEnded_ev p false)]
                          else []))%list).
  { unfold logged_since. rewrite He', He, <- !app_assoc.
    by rewrite drop_app_length. }
  split.
  { rewrite Htr', Htr.
    destruct (bool_decide (signalingState pc' ≠ "closed"));
      rewrite ?list_lookup_alter_ne by done;
      by rewrite list_lookup_alter_eq, Hpc. }
  split.
  { rewrite Htr'. subst open.
    destruct (bool_decide (signalingState pc' ≠ "closed"));
      by rewrite ?list_lookup_alter_eq, Hpcb. }
  split.
  { rewrite Hsince. clear.
    destruct open, (_enableIceTrickle s && _), (hasStream pc');
      cbn [app]; rewrite ?elem_of_cons, ?elem_of_nil; naive_solver. }
  split.
  { rewrite Hsince. clear -Hne.
    destruct open, (_enableIceTrickle s && _), (hasStream pc');
      cbn [app]; rewrite ?elem_of_cons, ?elem_of_nil; naive_solver. }
  split; [unfold peerRecord; by rewrite Htab', Htab|].
  split; [rewrite Hht'; clear; set_solver|].
  split; [by rewrite Hc', Hf, lookup_insert_eq|].
  rewrite Hrs', Hrs. unfold suspended. do 3 f_equal.
  - by rewrite Hpcb.
  - assert (H : keeps (λ x, _enableDataChannel x) s sb); [|by rewrite H].
    subst sb. cbv beta delta [failed_bookkeeping]. keeps_auto.
Qed.

Lemma stale_failure_restarts_current_connection_witness :
  transports (run restart_until_barrier session_with_p) !! 0%nat
  = Some replaced_transport
  ∧ peerRecord (run restart_until_barrier session_with_p) "p" = Some 1%nat
  ∧ transports
      (turn (IceChange 0 ICE_CONNECTION_STATE.FAILED)
         (run restart_until_barrier session_with_p)) !! 1%nat
    = Some (with_dataChannelClosed (Some true)
              (closed (fresh_transport "p"))).
Proof.
  split; [vm_compute; reflexivity|]. split; [vm_compute; reflexivity|].
  destruct (stale_failure_restarts_current_connection
              (run restart_until_barrier session_with_p) 0 1
              replaced_transport (fresh_transport "p")) as (_ & H & _);
    [vm_compute; reflexivity|vm_compute; reflexivity|discriminate
    |vm_compute; reflexivity|exact H].
Defined.

(** ** The MCU flag *)

Lemma hasMCU_removePeer (p : string) (s : Skylink) :
  _hasMCU (after (_removePeer p s))
  = (if bool_decide (p ≠ "MCU") then _hasMCU s else false).
Proof.
  cbv beta delta [_removePeer].
  destruct (bool_decide (p ≠ "MCU")); cbv beta iota.
  - match goal with
    | |- _hasMCU ?y = _ => change (keeps (λ x, _hasMCU x) s y)
    end.
    keeps_auto.
  - match goal with
    | |- _hasMCU ?y = _ =>
        change (keeps (λ x, _hasMCU x) (set_hasMCU s false) y)
    end.
    keeps_auto.
Qed.

Lemma hasMCU_turn (a : action) (s : Skylink) :
  _hasMCU s = false → _hasMCU (turn a s) = false.
Proof.
  intros Hs.
  destruct a;
    try (unfold turn, step; rewrite hasMCU_removePeer; by case_bool_decide);
    rewrite <- Hs;
    match goal with
    | |- _hasMCU ?y = _ => change (keeps (λ x, _hasMCU x) s y)
    end;
    apply keeps_turn; try keeps_refresh; keeps_step; keeps_auto.
Qed.

(** X16.  No code of this file sets [_hasMCU]: once it is false it stays
    false, whatever happens.  [_removePeer] clears it for the id ["MCU"],
    before anything else, so the flag is cleared even when the MCU has no
    record and the call faults; for any other id it leaves the flag as it
    is. *)
Theorem hasMCU_only_cleared (acts : list action) (s : Skylink) (p : string) :
  (_hasMCU s = false → _hasMCU (run acts s) = false)
  ∧ _hasMCU (after (_removePeer "MCU" s)) = false
  ∧ (p ≠ "MCU" → _hasMCU (after (_removePeer p s)) = _hasMCU s).
Proof.
  split; [|split].
  - intros Hs. induction acts as [|a acts IH] using rev_ind; [done|].
    rewrite run_snoc. by apply hasMCU_turn.
  - by rewrite hasMCU_removePeer.
  - intros Hp. by rewrite hasMCU_removePeer, bool_decide_eq_true_2.
Qed.

Lemma refused_turn (a : action) (s : Skylink) :
  _hasMCU s = true → is_refresh_or_tick a = true →
  keeps refresh_outputs s (turn a s)
  ∧ refreshes [a] s = 0%nat
  ∧ ∃ new, effects (turn a s) = (effects s ++ new)%list
           ∧ Forall (λ e, ∃ peerId text, e = ELog warn peerId text) new.
Proof.
  intros Hmcu Ha. destruct a; try discriminate Ha;
    unfold turn, step; rewrite ?after_ends; cbn [refreshes].
  - split; [|split; [done|]].
    + case_bool_decide; [|done]. cbn [after]. keeps_auto.
    + exists []. rewrite app_nil_r. by case_bool_decide.
  - unfold refreshConnection. rewrite Hmcu. cbn [after fst snd].
    split; [keeps_auto|]. split; [done|]. sk.
    eexists. split; [reflexivity|]. repeat constructor. eauto.
Qed.

Lemma refused_run (acts : list action) (s : Skylink) :
  _hasMCU s = true → forallb is_refresh_or_tick acts = true →
  keeps refresh_outputs s (run acts s)
  ∧ refreshes acts s = 0%nat
  ∧ ∃ new, effects (run acts s) = (effects s ++ new)%list
           ∧ Forall (λ e, ∃ peerId text, e = ELog warn peerId text) new.
Proof.
  revert s. induction acts as [|a acts IH]; intros s Hmcu Hacts.
  { split; [done|]. split; [done|]. exists []. by rewrite app_nil_r. }
  cbn [forallb] in Hacts. apply andb_true_iff in Hacts as [Ha Hacts].
  destruct (refused_turn a s Hmcu Ha) as (Hk1 & Hr1 & new1 & He1 & Hw1).
  assert (Hmcu' : _hasMCU (turn a s) = true).
  { unfold keeps, refresh_outputs in Hk1. injection Hk1 as _ _ _ _ _ ->.
    done. }
  destruct (IH _ Hmcu' Hacts) as (Hk & Hr & new & He & Hw).
  rewrite run_cons. split; [by eapply keeps_then|]. split.
  - cbn [refreshes] in *. rewrite Hr. lia.
  - exists (new1 ++ new)%list. rewrite He, He1, <- app_assoc.
    split; [done|]. by apply Forall_app.
Qed.

(** X15.  While the MCU flag is set, [refreshConnection] is refused: however
    often it is called and whatever time passes in between, the refresh
    operation is never executed, no restart is started, no transport, table
    entry or watchdog is touched, and a refused call does not open a
    throttle window, so that it cannot make the throttle drop a later call.
    Each refused call only logs a warning. *)
Theorem refreshConnection_refused_while_MCU (acts : list action)
    (s : Skylink) :
  _hasMCU s = true →
  forallb is_refresh_or_tick acts = true →
  refreshes acts s = 0%nat
  ∧ restarts (run acts s) = restarts s
  ∧ transports (run acts s) = transports s
  ∧ _peerConnections (run acts s) = _peerConnections s
  ∧ healthTimers (run acts s) = healthTimers s
  ∧ throttleStamp (run acts s) = throttleStamp s
  ∧ Forall (λ e, ∃ peerId text, e = ELog warn peerId text)
      (logged_since (effects s) (run acts s)).
Proof.
  intros Hmcu Hacts.
  destruct (refused_run acts s Hmcu Hacts) as (Hk & Hr & new & He & Hw).
  unfold keeps, refresh_outputs in Hk. injection Hk as -> -> -> -> -> _.
  repeat (split; [done|]).
  unfold logged_since. by rewrite He, drop_app_length.
Qed.

Lemma refreshConnection_refused_while_MCU_witness :
  _hasMCU (set_hasMCU session_with_p true) = true
  ∧ restarts (run ten_refreshes (set_hasMCU session_with_p true)) = [].
Proof.
  split; [reflexivity|].
  destruct (refreshConnection_refused_while_MCU ten_refreshes
              (set_hasMCU session_with_p true)) as (_ & -> & _);
    vm_compute; reflexivity.
Defined.

(** ** Remote streams *)




(** ** A restart from the call to the timer function *)

Lemma clock_turn (a : action) (s : Skylink) :
  is_Tick a = false → keeps (λ x, clock x) s (turn a s).
Proof.
  intros Ha. apply keeps_turn.
  destruct a; try discriminate Ha; clear Ha; try keeps_refresh;
    keeps_step; keeps_auto.
Qed.

Lemma iceConnectionState_callback_restarts (s s' : Skylink) (r : nat)
    (pc : RTCPeerConnection) (state : IceState) :
  transports s !! r = Some pc →
  state ≠ ICE_CONNECTION_STATE.FAILED →
  iceConnectionState_callback r state s = Some s' →
  restarts s'
  = notify (iceConnectionState_ev state (targetMid pc)) <$> restarts s.
Proof.
  intros Hpc Hst. unfold iceConnectionState_callback.
  rewrite Hpc. cbn [mbind option_bind]. cbv zeta.
  rewrite (bool_decide_eq_false_2 (state = ICE_CONNECTION_STATE.FAILED))
    by done.
  intros [= <-].
  destruct (bool_decide (state = ICE_CONNECTION_STATE.COMPLETED)
            && bool_decide (signalingState pc = PEER_CONNECTION_STATE.STABLE));
    crunch; done.
Qed.

Lemma onsignalingstatechange_restarts (s s' : Skylink) (r : nat)
    (pc : RTCPeerConnection) :
  transports s !! r = Some pc →
  onsignalingstatechange r s = Some s' →
  restarts s'
  = notify (peerConnectionState_ev (signalingState pc) (targetMid pc))
      <$> restarts s.
Proof.
  intros Hpc. unfold onsignalingstatechange.
  rewrite Hpc. cbn [mbind option_bind]. cbv zeta.
  intros [= <-]. crunch; done.
Qed.

(** What one report of the closing transport [r] of peer [p] leaves. *)
Lemma closing_report (s : Skylink) (r : nat) (pc : RTCPeerConnection)
    (a : action) (e : event) :
  transports s !! r = Some pc →
  (a = IceChange r ICE_CONNECTION_STATE.CLOSED
   ∧ e = iceConnectionState_ev ICE_CONNECTION_STATE.CLOSED (targetMid pc))
  ∨ (a = SignalingChange r PEER_CONNECTION_STATE.CLOSED
     ∧ e = peerConnectionState_ev PEER_CONNECTION_STATE.CLOSED (targetMid pc)) →
  restarts (turn a s) = notify e <$> restarts s
  ∧ _peerConnections (turn a s) = _peerConnections s
  ∧ length (transports (turn a s)) = length (transports s)
  ∧ clock (turn a s) = clock s
  ∧ ∃ pc', transports (turn a s) !! r = Some pc' ∧ targetMid pc' = targetMid pc.
Proof.
  intros Hpc Ha.
  assert (Htab : keeps table s (turn a s))
    by (apply table_turn; by destruct Ha as [[-> _]|[-> _]]).
  assert (Hclock : keeps (λ x, clock x) s (turn a s))
    by (apply clock_turn; by destruct Ha as [[-> _]|[-> _]]).
  unfold keeps, table in Htab, Hclock. injection Htab as Htab Hlen.
  destruct (ev_transports _ _ (evolves_turn a s) r pc Hpc)
    as (pc'' & Hpc'' & Hmid).
  split; [|by eauto 10].
  destruct Ha as [[-> ->]|[-> ->]].
  - destruct (turn_IceChange s r pc ICE_CONNECTION_STATE.CLOSED Hpc)
      as [Hpc' Hturn].
    rewrite (iceConnectionState_callback_restarts _ _ r _
               ICE_CONNECTION_STATE.CLOSED Hpc' ltac:(discriminate) Hturn).
    by sk.
  - destruct (turn_SignalingChange s r pc PEER_CONNECTION_STATE.CLOSED Hpc)
      as [Hpc' Hturn].
    rewrite (onsignalingstatechange_restarts _ _ r _ Hpc' Hturn). by sk.
Qed.

(** Both reports, in either order, make a waiting restart of the peer
    ready. *)
Lemma ready_after_reports (c : restartClosure) (p : string) :
  r_peerId c = p → r_phase c = Waiting →
  ready (notify (peerConnectionState_ev PEER_CONNECTION_STATE.CLOSED p)
           (notify (iceConnectionState_ev ICE_CONNECTION_STATE.CLOSED p) c))
  = true
  ∧ ready (notify (iceConnectionState_ev ICE_CONNECTION_STATE.CLOSED p)
             (notify (peerConnectionState_ev PEER_CONNECTION_STATE.CLOSED p) c))
    = true.
Proof.
  destruct c as [q b1 o b2 b3 b4 b5 b6 ph].
  cbn [r_peerId r_phase]. intros -> ->. unfold notify, ready.
  repeat (progress
            (rewrite ?(bool_decide_eq_true_2 (p = p)),
               ?(bool_decide_eq_true_2
                   (ICE_CONNECTION_STATE.CLOSED = ICE_CONNECTION_STATE.CLOSED)),
               ?(bool_decide_eq_true_2
                   (PEER_CONNECTION_STATE.CLOSED = PEER_CONNECTION_STATE.CLOSED))
               by done;
             cbn [andb r_peerId r_phase r_iceConnectionStateClosed
                    r_peerConnectionStateClosed])).
  done.
Qed.


(** The two reports, in either order, on the closing transport [r] of the
    peer [p], for the waiting restart [k] of [p]. *)
Lemma closing_reports_ready (s : Skylink) (p : string) (r k : nat)
    (pc : RTCPeerConnection) (c : restartClosure) (ice_first : bool) :
  transports s !! r = Some pc →
  targetMid pc = p →
  restarts s !! k = Some c →
  r_peerId c = p →
  r_phase c = Waiting →
  let s' := run (closing_reports r ice_first) s in
  (∃ c', restarts s' !! k = Some c' ∧ ready c' = true
         ∧ same_closure_args c c')
  ∧ _peerConnections s' = _peerConnections s
  ∧ length (transports s') = length (transports s)
  ∧ clock s' = clock s.
Proof.
  intros Hpc Hmid Hk Hp Hph s'. subst s'.
  destruct (ready_after_reports c p Hp Hph) as [Hr1 Hr2].
  destruct ice_first; cbn [closing_reports run foldl].
  - destruct (closing_report s r pc _ _ Hpc (or_introl (conj eq_refl eq_refl)))
      as (Hrs1 & Htab1 & Hlen1 & Hclock1 & pc1 & Hpc1 & Hmid1).
    destruct (closing_report _ r pc1 _ _ Hpc1
                (or_intror (conj eq_refl eq_refl)))
      as (Hrs2 & Htab2 & Hlen2 & Hclock2 & _).
    split; [|by rewrite Htab2, Hlen2, Hclock2].
    eexists. rewrite Hrs2, Hrs1, !list_lookup_fmap, Hk, Hmid1, Hmid.
    split; [reflexivity|]. split; [done|].
    unfold same_closure_args.
    destruct (notify_args
                (peerConnectionState_ev PEER_CONNECTION_STATE.CLOSED p)
                (notify (iceConnectionState_ev ICE_CONNECTION_STATE.CLOSED p) c))
      as [(-> & -> & -> & -> & ->) _].
    by destruct (notify_args
                   (iceConnectionState_ev ICE_CONNECTION_STATE.CLOSED p) c)
      as [? _].
  - destruct (closing_report s r pc _ _ Hpc (or_intror (conj eq_refl eq_refl)))
      as (Hrs1 & Htab1 & Hlen1 & Hclock1 & pc1 & Hpc1 & Hmid1).
    destruct (closing_report _ r pc1 _ _ Hpc1
                (or_introl (conj eq_refl eq_refl)))
      as (Hrs2 & Htab2 & Hlen2 & Hclock2 & _).
    split; [|by rewrite Htab2, Hlen2, Hclock2].
    eexists. rewrite Hrs2, Hrs1, !list_lookup_fmap, Hk, Hmid1, Hmid.
    split; [reflexivity|]. split; [done|].
    unfold same_closure_args.
    destruct (notify_args
                (iceConnectionState_ev ICE_CONNECTION_STATE.CLOSED p)
                (notify (peerConnectionState_ev PEER_CONNECTION_STATE.CLOSED p)
                   c))
      as [(-> & -> & -> & -> & ->) _].
    by destruct (notify_args
                   (peerConnectionState_ev PEER_CONNECTION_STATE.CLOSED p) c)
      as [? _].
Qed.

Lemma timer_effects_args (c c' : restartClosure) (now : Z) :
  same_closure_args c c' → timer_effects c' now = timer_effects c now.
Proof.
  intros (Hp & Hself & Hconn & Hcb & Hro). unfold timer_effects.
  by rewrite Hp, Hself, Hconn, Hcb, Hro.
Qed.

(** X18.  A restart runs to its end.  For a peer with a record whose
    transport was wired for it: after the call of [_restartPeerConnection],
    once the old transport has reported both that its ICE connection and
    that its signaling closed, in either order, the [_wait] callback of this
    restart can run; with the transport allocated and 1000 ms or more gone
    by, the timer function can run and returns.  At the end the peer is
    registered with a transport that did not exist before, on which
    [receiveOnly] is what it was on the old transport when the restart
    began; the restart is finished; and the last effects handed to the
    collaborators are those of the timer function: the local streams, the
    RESTART message when self-initiated, [peerRestart], the callback. *)
Theorem restart_completes (s : Skylink) (p : string) (r : nat)
    (pc : RTCPeerConnection) (isSelf : bool) (isConn : option bool)
    (callback ice_first : bool) (d : Z) :
  peerRecord s p = Some r →
  transports s !! r = Some pc →
  targetMid pc = p →
  1000 ≤ d →
  let k := length (restarts s) in
  let n := length (transports s) in
  let c := suspended p isSelf isConn callback r s in
  let s' := run (whole_restart p isSelf isConn callback r k ice_first d) s in
  peerRecord s' p = Some n
  ∧ transports s' !! n
    = Some (with_receiveOnly (Some (truthy (receiveOnly pc)))
              (fresh_transport p))
  ∧ (r_phase <$> restarts s' !! k) = Some Finished
  ∧ clock s' = clock s + d
  ∧ ∃ before,
      logged_since (effects s) s'
      = (before ++ timer_effects c (clock s + d))%list.
Proof.
  intros Hrec Hpc Hmid Hd k n c s'. subst s'. unfold whole_restart.
  rewrite run_cons, run_app.
  set (s1 := turn (CallRestartPeerConnection p isSelf isConn callback) s).
  assert (Hs1 : s1 = _restartPeerConnection p isSelf isConn callback s)
    by apply turn_CallRestartPeerConnection.
  destruct (restartPeerConnection_known s p r pc isSelf isConn callback
              Hrec Hpc) as (_ & _ & Htab1 & _ & _ & Hclock1).
  cbv zeta in Htab1, Hclock1. rewrite <- Hs1 in Htab1, Hclock1.
  pose proof (restartPeerConnection_restarts s p r isSelf isConn callback
                Hrec) as Hrs1. rewrite <- Hs1 in Hrs1. fold c in Hrs1.
  pose proof (evolves_turn (CallRestartPeerConnection p isSelf isConn callback)
                s) as Hev1. fold s1 in Hev1.
  destruct (ev_transports _ _ Hev1 r pc Hpc) as (pc1 & Hpc1 & Hmid1).
  assert (Hlen1 : length (transports s1) = n).
  { pose proof (table_turn
                  (CallRestartPeerConnection p isSelf isConn callback) s
                  eq_refl) as H.
    unfold keeps, table in H. by injection H. }
  assert (Hk1 : restarts s1 !! k = Some c)
    by (rewrite Hrs1; by apply list_lookup_middle).
  destruct (closing_reports_ready s1 p r k pc1 c ice_first Hpc1
              ltac:(congruence) Hk1 eq_refl eq_refl)
    as ((c3 & Hk3 & Hready & Hargs) & Htab3 & Hlen3 & Hclock3).
  set (s3 := run (closing_reports r ice_first) s1) in *.
  pose proof (evolves_run (closing_reports r ice_first) s1) as Hev3.
  fold s3 in Hev3.
  destruct (wait_callback_ready k true s3 c3 Hk3 Hready) as [s4 Hw].
  destruct (wait_callback_spec k true s3 s4 Hw)
    as (c3' & Hk3' & _ & _ & _ & Htab4 & Htr4 & Hrs4 & Hclock4 & new4 & He4
        & _).
  rewrite Hk3 in Hk3'. injection Hk3' as <-.
  pose proof Hargs as (Hp3 & _ & _ & _ & Hro3). unfold c in Hp3, Hro3.
  cbn [suspended r_peerId r_receiveOnly] in Hp3, Hro3.
  rewrite Hp3, Hlen3, Hlen1 in Htab4. rewrite Hp3 in Htr4.
  rewrite run_cons.
  assert (Hs4 : turn (WaitFire k true) s3 = s4)
    by (unfold turn, step; by rewrite Hw).
  rewrite Hs4, run_cons.
  assert (Hs5 : turn (Tick d) s4 = set_clock s4 (clock s4 + d)).
  { unfold turn, step. by rewrite bool_decide_eq_true_2 by lia. }
  rewrite Hs5. set (s5 := set_clock s4 (clock s4 + d)).
  set (c5 := with_phase (Delaying (clock s3)) c3).
  assert (Hk5 : restarts s5 !! k = Some c5).
  { subst s5. sk. by rewrite Hrs4, list_lookup_alter_eq, Hk3. }
  assert (Hrec5 : peerRecord s5 (r_peerId c5) = Some n).
  { subst s5 c5. cbn [with_phase r_peerId]. rewrite Hp3.
    apply peerRecord_slot. sk. by rewrite Htab4, lookup_insert_eq. }
  destruct (timeout_callback_known k s5 c5 (clock s3) n Hk5 eq_refl)
    as (s6 & Ho6 & He6 & Htr6 & Htab6 & Hrs6 & Hclock6);
    [subst s5; sk; lia|exact Hrec5|].
  cbn [run foldl].
  assert (Hs6 : turn (TimeoutFire k) s5 = s6)
    by (unfold turn, step; by rewrite Ho6).
  rewrite Hs6.
  assert (Hclock5 : clock s5 = clock s + d).
  { subst s5. sk. rewrite Hclock4, Hclock3, Hclock1. done. }
  split.
  { apply peerRecord_slot. rewrite Htab6. subst s5. sk.
    by rewrite Htab4, lookup_insert_eq. }
  split.
  { rewrite Htr6. subst s5. sk. rewrite Htr4.
    rewrite <- Hlen1, <- Hlen3, alter_last.
    rewrite list_lookup_middle by done.
    subst c5. cbn [with_phase r_receiveOnly]. by rewrite Hro3, Hpc. }
  split; [by rewrite Hrs6, list_lookup_alter_eq, Hk5|].
  split; [by rewrite Hclock6|].
  destruct (ev_effects _ _ Hev1) as [new1 Hnew1].
  destruct (ev_effects _ _ Hev3) as [new3 Hnew3].
  exists (new1 ++ new3 ++ new4)%list.
  unfold logged_since. rewrite He6. subst s5. sk.
  rewrite He4, Hnew3, Hnew1, <- !app_assoc, drop_app_length.
  rewrite !app_assoc. f_equal. rewrite Hclock4, Hclock3, Hclock1.
  apply timer_effects_args. exact Hargs.
Qed.

Lemma restart_completes_witness :
  peerRecord session_with_p "p" = Some 0%nat
  ∧ peerRecord
      (run (whole_restart "p" true (Some true) false 0 0 false 1000)
         session_with_p) "p" = Some 1%nat.
Proof.
  split; [vm_compute; reflexivity|].
  destruct (restart_completes session_with_p "p" 0
              (with_receiveOnly (Some true) (fresh_transport "p"))
              true (Some true) false false 1000) as (H & _);
    [vm_compute; reflexivity|vm_compute; reflexivity|reflexivity
    |vm_compute; discriminate|exact H].
Defined.

(** ** [_addPeer] on the restart path *)

(** X19.  [_addPeer] called with [restartConn] for a peer that has a record:
    the call returns; nothing is constructed, whether or not a transport
    could be allocated, and the peer table is not touched; [receiveOnly] is
    overwritten on the registered transport and no other transport changes;
    the watchdog of the peer is started; and the collaborators see the start
    log line, the local streams unless [receiveOnly], and for the offerer
    the data channel (when data channels are enabled) followed by the
    offer. *)
Theorem addPeer_restart_reuses_transport (s : Skylink)
    (p peerBrowser : string) (toOffer receiveOnly ctor_ok : bool) (r : nat) :
  peerRecord s p = Some r →
  let o := _addPeer p peerBrowser toOffer true receiveOnly ctor_ok s in
  throws o = false
  ∧ _peerConnections (after o) = _peerConnections s
  ∧ transports (after o)
    = alter (with_receiveOnly (Some receiveOnly)) r (transports s)
  ∧ healthTimers (after o) = {[p]} ∪ healthTimers s
  ∧ restarts (after o) = restarts s
  ∧ effects (after o)
    = (effects s
       ++ [ELog log_ (Some p)
             "Starting the connection to peer. Options provided:"]
       ++ (if receiveOnly then [] else [EAddLocalMediaStreams p])
       ++ (if toOffer
           then (if _enableDataChannel s then [ECreateDataChannel p] else [])
                ++ [EDoOffer p]
           else []))%list.
Proof.
  intros Hrec o. subst o. unfold _addPeer. rewrite andb_false_r.
  cbv beta iota zeta delta [negb].
  change (peerRecord (log _ _ _ s) p) with (peerRecord s p). rewrite Hrec.
  destruct receiveOnly, toOffer, (_enableDataChannel s) eqn:Hdc;
    cbn [negb]; sk; rewrite ?Hdc; sk;
    rewrite <- ?app_assoc; cbn [app]; done.
Qed.

Lemma addPeer_restart_reuses_transport_witness :
  peerRecord session_with_p "p" = Some 0%nat
  ∧ transports
      (after (_addPeer "p" "chrome" true true false false session_with_p))
    = [with_receiveOnly (Some false) (fresh_transport "p")].
Proof.
  split; [vm_compute; reflexivity|].
  destruct (addPeer_restart_reuses_transport session_with_p "p" "chrome"
              true false false 0) as (_ & _ & -> & _);
    vm_compute; reflexivity.
Defined.
